(** * xFFT.py: the audio callback, the spectral band-pass and the rolling buffers

    A shallow embedding of [run_visualizer] of [xFFT.py].  The closures of
    [run_visualizer] become functions over an explicit [State] record that
    holds the variables they rebind ([nonlocal]) or mutate in place.

    Numbers.  Samples, window coefficients and frequencies are [numpy]
    floating-point values; they are modelled by the real numbers [R], so every
    equation below is an equation of exact arithmetic.  The two cutoffs are
    Python floats that come out of [float(text)], which can also produce
    [inf], [-inf] and [nan]; they are modelled by [pyfloat].  The builtins
    [float] and [str] on them are parameters of the model.  The texts the
    two boxes show are part of the state, because [TextBox.set_val] compares
    its argument with the text shown before it submits anything.

    Library functions.  [rfft], [irfft], [rfftfreq] (scipy.fft) and
    [blackman] (numpy) are given by the formulas of their documentation;
    [deque] (collections) by its documented behaviour under [maxlen];
    [linspace], [mean], [min], [max] and boolean indexing (numpy), which
    [update] uses, likewise.  The artists [update] draws into are the record
    [Artists]. *)

From Stdlib Require Import String DecimalString ZArith Arith Lia Bool List.
From Stdlib Require Import Reals Lra.
Import ListNotations.

Set Warnings "-abstract-large-number".

(** ** Exceptions and results *)

Inductive exn : Type :=
  | UnboundLocalError
  | ValueError
  | IndexError
  | ZeroDivisionError.

Inductive result (A : Type) : Type :=
  | Ok (a : A)
  | Raise (e : exn).
Arguments Ok {A} a.
Arguments Raise {A} e.

Definition rbind {A B : Type} (r : result A) (k : A -> result B) : result B :=
  match r with
  | Ok a => k a
  | Raise e => Raise e
  end.

(** ** collections.deque with a [maxlen] *)

Module Deque.

Record deque (A : Type) : Type := mkDeque { items : list A; maxlen : nat }.
Arguments mkDeque {A} items maxlen.
Arguments items {A} d.
Arguments maxlen {A} d.

(** [deque(maxlen=m)] *)
Definition empty {A : Type} (m : nat) : deque A := mkDeque [] m.

(** [d.append(x)]: the element goes to the right end; when the deque has
    grown past [maxlen], one element is dropped from the left end. *)
Definition append {A : Type} (d : deque A) (x : A) : deque A :=
  let l := items d ++ [x] in
  mkDeque (if maxlen d <? length l then tl l else l) (maxlen d).

(** [d.extend(xs)]: appends the elements of [xs] one after the other. *)
Definition extend {A : Type} (d : deque A) (xs : list A) : deque A :=
  fold_left append xs d.

(** [d.clear()] *)
Definition clear {A : Type} (d : deque A) : deque A := mkDeque [] (maxlen d).

(** [len(d)] *)
Definition len {A : Type} (d : deque A) : nat := length (items d).

End Deque.

(** ** Python floats as produced by [float(text)] *)

Inductive pyfloat : Type :=
  | Fin (r : R)
  | PInf
  | NInf
  | NaN.

(** [a < b] on floats; every comparison with [nan] is false. *)
Definition py_lt (a b : pyfloat) : bool :=
  match a, b with
  | NaN, _ | _, NaN => false
  | _, NInf => false
  | NInf, _ => true
  | PInf, _ => false
  | Fin _, PInf => true
  | Fin x, Fin y => if Rlt_dec x y then true else false
  end.

(** [a <= b] on floats. *)
Definition py_le (a b : pyfloat) : bool :=
  match a, b with
  | NaN, _ | _, NaN => false
  | NInf, _ => true
  | _, PInf => true
  | _, NInf => false
  | PInf, _ => false
  | Fin x, Fin y => if Rle_dec x y then true else false
  end.

(** The builtins [min(a, b)] and [max(a, b)]: the first argument is kept
    unless the second is strictly smaller (resp. larger). *)
Definition py_min (a b : pyfloat) : pyfloat := if py_lt b a then b else a.
Definition py_max (a b : pyfloat) : pyfloat := if py_lt a b then b else a.

(** ** numpy and scipy.fft on one-dimensional arrays *)

Module Np.

Definition C : Type := (R * R)%type.
Definition Czero : C := (0%R, 0%R).

(** [np.abs] of a complex number *)
Definition Cabs (z : C) : R := sqrt (fst z * fst z + snd z * snd z).

Definition log10 (x : R) : R := (ln x / ln 10)%R.

(** [sum_{i < n} f i] *)
Fixpoint Rsum (n : nat) (f : nat -> R) : R :=
  match n with
  | O => 0%R
  | S n' => (Rsum n' f + f n')%R
  end.

Fixpoint zip_with {A B D : Type} (f : A -> B -> D) (a : list A) (b : list B) : list D :=
  match a, b with
  | x :: a', y :: b' => f x y :: zip_with f a' b'
  | _, _ => []
  end.

(** [a * b] with broadcasting: equal lengths, or one operand of length 1. *)
Definition mul (a b : list R) : result (list R) :=
  if length a =? length b then Ok (zip_with Rmult a b)
  else if length a =? 1 then Ok (map (fun v => (hd 0 a * v)%R) b)
  else if length b =? 1 then Ok (map (fun v => (v * hd 0 b)%R) a)
  else Raise ValueError.

(** [a[lo:hi]] for [0 <= lo] and [0 <= hi] *)
Definition slice {A : Type} (a : list A) (lo hi : nat) : list A :=
  firstn (hi - lo) (skipn lo a).

(** [a[::4]] *)
Definition every4th (a : list R) : list R :=
  map (fun i => nth (4 * i) a 0%R) (seq 0 ((length a + 3) / 4)).

(** [a.fill(v)] *)
Definition fill (a : list R) (v : R) : list R := map (fun _ => v) a.

(** [dst[:] = src.reshape(-1, 1)] for [dst] of shape [(len dst, 1)]: the
    column [src] is copied when the lengths agree, broadcast when it has
    one row, and refused otherwise. *)
Definition assign_column (dst src : list R) : result (list R) :=
  if length src =? length dst then Ok src
  else if length src =? 1 then Ok (fill dst (hd 0%R src))
  else Raise ValueError.

(** [a[sel] = v] for a boolean index array [sel] *)
Definition set_where (a : list C) (sel : list bool) (v : C) : result (list C) :=
  if length sel =? length a
  then Ok (zip_with (fun z (b : bool) => if b then v else z) a sel)
  else Raise IndexError.

(** The angle [2 pi j k / n] of the transform kernel. *)
Definition angle (n j k : nat) : R := (2 * PI * INR j * INR k / INR n)%R.

(** Bin [k] of the forward transform of the real signal [x]:
    [sum_m x[m] exp(-2 pi i m k / n)]. *)
Definition rfft_bin (x : list R) (k : nat) : C :=
  let n := length x in
  (Rsum n (fun m => (nth m x 0 * cos (angle n m k))%R),
   (- Rsum n (fun m => (nth m x 0 * sin (angle n m k))%R))%R).

(** [scipy.fft.rfft(x)]: bins [0 .. n/2]. *)
Definition rfft (x : list R) : result (list C) :=
  if length x =? 0 then Raise ValueError
  else Ok (map (rfft_bin x) (seq 0 (length x / 2 + 1))).

(** Sample [j] of the inverse transform of the half spectrum [X] for an
    output of even length [n]: the bins [1 .. n/2 - 1] count twice (they
    stand for their conjugates too), the imaginary parts of bin [0] and of
    bin [n/2] are not used. *)
Definition irfft_sample (X : list C) (n j : nat) : R :=
  ((fst (nth 0 X Czero)
    + 2 * Rsum (n / 2 - 1) (fun i =>
            (fst (nth (S i) X Czero) * cos (angle n j (S i))
             - snd (nth (S i) X Czero) * sin (angle n j (S i)))%R)
    + fst (nth (n / 2) X Czero) * (-1) ^ j) / INR n)%R.

(** [scipy.fft.irfft(X)]: output length [2 * (len(X) - 1)]. *)
Definition irfft (X : list C) : result (list R) :=
  let n := 2 * (length X - 1) in
  if n =? 0 then Raise ValueError
  else Ok (map (irfft_sample X n) (seq 0 n)).

(** [scipy.fft.rfftfreq(n, d)] *)
Definition rfftfreq (n : nat) (d : R) : list R :=
  let val := (1 / (INR n * d))%R in
  map (fun k => (INR k * val)%R) (seq 0 (n / 2 + 1)).

(** [np.blackman(M)] *)
Definition blackman (M : nat) : list R :=
  match M with
  | 0 => []
  | 1 => [1%R]
  | _ =>
      map (fun i =>
             let n := IZR (1 - Z.of_nat M + 2 * Z.of_nat i) in
             (0.42 + 0.5 * cos (PI * n / INR (M - 1))
              + 0.08 * cos (2 * PI * n / INR (M - 1)))%R)
          (seq 0 M)
  end.

End Np.

Notation "x <- r ;; k" := (rbind r (fun x => k))
  (at level 61, r at next level, right associativity).

(** [a >= b] on floats. *)
Definition py_ge (a b : pyfloat) : bool := py_le b a.

(** ** The variables of [run_visualizer] that its closures rebind or mutate *)

(** The [sd.OutputStream] object bound to [stream], if any. *)
Inductive stream_status : Type :=
  | Active
  | Closed.

Record State : Type := mkState {
  y : list R;                              (* decoded samples *)
  sr : nat;                                (* their sample rate *)
  time_buffer : Deque.deque R;
  spectrum_buffer : Deque.deque (list R);
  lowcut : pyfloat;
  highcut : pyfloat;
  filter_enabled : bool;
  stream : option stream_status;
  paused : bool;
  audio_position : nat;
  lowcut_box : string;                     (* the text [lowcut_box] shows *)
  highcut_box : string                     (* the text [highcut_box] shows *)
}.

Definition set_source (st : State) (y' : list R) (sr' : nat) : State :=
  mkState y' sr' (time_buffer st) (spectrum_buffer st) (lowcut st) (highcut st)
          (filter_enabled st) (stream st) (paused st) (audio_position st)
          (lowcut_box st) (highcut_box st).
Definition set_time_buffer (st : State) (b : Deque.deque R) : State :=
  mkState (y st) (sr st) b (spectrum_buffer st) (lowcut st) (highcut st)
          (filter_enabled st) (stream st) (paused st) (audio_position st)
          (lowcut_box st) (highcut_box st).
Definition set_spectrum_buffer (st : State) (b : Deque.deque (list R)) : State :=
  mkState (y st) (sr st) (time_buffer st) b (lowcut st) (highcut st)
          (filter_enabled st) (stream st) (paused st) (audio_position st)
          (lowcut_box st) (highcut_box st).
Definition set_lowcut (st : State) (v : pyfloat) : State :=
  mkState (y st) (sr st) (time_buffer st) (spectrum_buffer st) v (highcut st)
          (filter_enabled st) (stream st) (paused st) (audio_position st)
          (lowcut_box st) (highcut_box st).
Definition set_highcut (st : State) (v : pyfloat) : State :=
  mkState (y st) (sr st) (time_buffer st) (spectrum_buffer st) (lowcut st) v
          (filter_enabled st) (stream st) (paused st) (audio_position st)
          (lowcut_box st) (highcut_box st).
Definition set_filter_enabled (st : State) (b : bool) : State :=
  mkState (y st) (sr st) (time_buffer st) (spectrum_buffer st) (lowcut st) (highcut st)
          b (stream st) (paused st) (audio_position st)
          (lowcut_box st) (highcut_box st).
Definition set_stream (st : State) (s : option stream_status) : State :=
  mkState (y st) (sr st) (time_buffer st) (spectrum_buffer st) (lowcut st) (highcut st)
          (filter_enabled st) s (paused st) (audio_position st)
          (lowcut_box st) (highcut_box st).
Definition set_paused (st : State) (b : bool) : State :=
  mkState (y st) (sr st) (time_buffer st) (spectrum_buffer st) (lowcut st) (highcut st)
          (filter_enabled st) (stream st) b (audio_position st)
          (lowcut_box st) (highcut_box st).
Definition set_audio_position (st : State) (p : nat) : State :=
  mkState (y st) (sr st) (time_buffer st) (spectrum_buffer st) (lowcut st) (highcut st)
          (filter_enabled st) (stream st) (paused st) p
          (lowcut_box st) (highcut_box st).
Definition set_lowcut_box (st : State) (text : string) : State :=
  mkState (y st) (sr st) (time_buffer st) (spectrum_buffer st) (lowcut st) (highcut st)
          (filter_enabled st) (stream st) (paused st) (audio_position st)
          text (highcut_box st).
Definition set_highcut_box (st : State) (text : string) : State :=
  mkState (y st) (sr st) (time_buffer st) (spectrum_buffer st) (lowcut st) (highcut st)
          (filter_enabled st) (stream st) (paused st) (audio_position st)
          (lowcut_box st) text.

(** A computation that reads and writes the variables and may raise: the
    variables keep what was written before the exception. *)
Definition M (A : Type) : Type := State -> result A * State.

Definition ret {A : Type} (a : A) : M A := fun st => (Ok a, st).
Definition bind {A B : Type} (m : M A) (k : A -> M B) : M B :=
  fun st =>
    match m st with
    | (Ok a, st') => k a st'
    | (Raise e, st') => (Raise e, st')
    end.
Definition lift {A : Type} (r : result A) : M A := fun st => (r, st).
Definition get : M State := fun st => (Ok st, st).
Definition modify (f : State -> State) : M unit := fun st => (Ok tt, f st).

Notation "x <~ m ;; k" := (bind m (fun x => k))
  (at level 61, m at next level, right associativity).

Definition block_size : nat := 2048.

(** What the file dialog and [librosa.load] gave to [change_file]. *)
Inductive load_outcome : Type :=
  | NoFile                                 (* nothing chosen, or the path does not exist *)
  | LoadError                              (* [librosa.load] raised *)
  | Loaded (y' : list R) (sr' : nat).

Section Closures.

(** [sr] when [run_visualizer] creates its closures: the sample rate of the
    file loaded at start-up. *)
Variable sr0 : nat.

(** The builtin [float] on the text of a text box; [None] is [ValueError]. *)
Variable float_ : string -> option pyfloat.

(** The builtin [str] on a cutoff. *)
Variable str_ : pyfloat -> string.

Definition display_samples : nat := sr0 / 10.
Definition freqs : list R := Np.rfftfreq block_size (1 / INR sr0)%R.
Definition window : list R := Np.blackman block_size.

(** Lines 42-89: the variables once the file is loaded. *)
Definition initial_state (y0 : list R) : State :=
  {| y := y0; sr := sr0;
     time_buffer := Deque.empty display_samples;
     spectrum_buffer := Deque.empty 10;
     lowcut := Fin 100; highcut := Fin 1000;
     filter_enabled := false;
     stream := None; paused := true; audio_position := 0;
     lowcut_box := "100"%string; highcut_box := "1000"%string |}.        (* [initial=str(...)] *)

(** [run_visualizer] up to [plt.show()], the file being loaded as [y0] at
    the rate [sr0]. *)
Definition run_visualizer (y0 : list R) : result State :=
  if sr0 =? 0 then Raise ZeroDivisionError            (* [1/sr], line 48 *)
  else Ok (initial_state y0).

Definition apply_bandpass (data : list R) (lowcut highcut : pyfloat)
  : result (list R) :=
  xw <- Np.mul data window ;;
  fft_data <- Np.rfft xw ;;
  let mask := map (fun f => py_ge (Fin f) lowcut && py_le (Fin f) highcut) freqs in
  fft_data <- Np.set_where fft_data (map negb mask) Np.Czero ;;
  Np.irfft fft_data.                     (* [.real] of a real array *)

(** [audio_callback(outdata, frames, time, status)]; [time] and [status]
    are not read.  The result is the new content of [outdata]. *)
Definition audio_callback (outdata : list R) (frames : nat) : M (list R) :=
  st <~ get ;;
  if paused st || (length (y st) <=? audio_position st) then
    ret (Np.fill outdata 0%R)
  else
    let start := audio_position st in
    let end_ := Nat.min (start + frames) (length (y st)) in
    let chunk := Np.slice (y st) start end_ in
    (* [filtered_chunk] is bound by the [if] alone *)
    filtered_chunk <~
      (if length chunk =? block_size then
         fc <~ (if filter_enabled st
                then lift (apply_bandpass chunk (lowcut st) (highcut st))
                else ret chunk) ;;
         _ <~ modify (fun s =>
                set_time_buffer s (Deque.extend (time_buffer s) (Np.every4th fc))) ;;
         xw <~ lift (Np.mul fc window) ;;
         X <~ lift (Np.rfft xw) ;;
         let spectrum := map (fun z => (20 * Np.log10 (Np.Cabs z + 1e-9))%R) X in
         _ <~ modify (fun s =>
                set_spectrum_buffer s (Deque.append (spectrum_buffer s) spectrum)) ;;
         ret (Some fc)
       else ret None) ;;
    fc <~ match filtered_chunk with
          | Some fc => ret fc
          | None => lift (Raise UnboundLocalError)
          end ;;
    out <~ lift (Np.assign_column outdata fc) ;;
    _ <~ modify (fun s => set_audio_position s end_) ;;
    ret out.

Definition toggle_filter (st : State) : State :=
  set_filter_enabled st (negb (filter_enabled st)).

(** [update_lowcut(text)] and [update_highcut(text)], the [on_submit]
    callbacks of the two text boxes.  [box.set_val(val)] of matplotlib's
    [TextBox] returns at once when the box already shows [str(val)];
    otherwise it shows that text and submits it to the callback of the box.
    [update(0)] only redraws.  [fuel] bounds the depth of the nested
    submissions. *)
Fixpoint update_lowcut (fuel : nat) (st : State) (text : string) : option State :=
  match fuel with
  | O => None
  | S fuel' =>
      match float_ text with
      | None => Some st                   (* [except ValueError: pass] *)
      | Some v =>
          let lc := py_max (Fin 20) (py_min (Fin (INR (sr st) / 2)) v) in
          let st := set_lowcut st lc in
          if py_lt (highcut st) lc
          then (* [highcut_box.set_val(str(lowcut))] *)
            if String.eqb (highcut_box st) (str_ lc) then Some st
            else update_highcut fuel' (set_highcut_box st (str_ lc)) (str_ lc)
          else Some st
      end
  end
with update_highcut (fuel : nat) (st : State) (text : string) : option State :=
  match fuel with
  | O => None
  | S fuel' =>
      match float_ text with
      | None => Some st
      | Some v =>
          let hc := py_max (Fin 20) (py_min (Fin (INR (sr st) / 2)) v) in
          let st := set_highcut st hc in
          if py_lt hc (lowcut st)
          then (* [lowcut_box.set_val(str(highcut))] *)
            if String.eqb (lowcut_box st) (str_ hc) then Some st
            else update_lowcut fuel' (set_lowcut_box st (str_ hc)) (str_ hc)
          else Some st
      end
  end.

Definition start_stream (st : State) : State :=
  set_paused (set_stream st (Some Active)) false.

Definition stop_stream (st : State) : State :=
  set_paused (match stream st with
              | Some _ => set_stream st (Some Closed)
              | None => st
              end) true.

Definition toggle_play (st : State) : State :=
  if paused st then start_stream st else stop_stream st.

Definition reset (st : State) : State :=
  let st := set_audio_position st 0 in
  let st := set_time_buffer st (Deque.clear (time_buffer st)) in
  set_spectrum_buffer st (Deque.clear (spectrum_buffer st)).

Definition change_file (st : State) (o : load_outcome) : State :=
  let st := stop_stream st in
  match o with
  | Loaded y' sr' => reset (set_source st y' sr')
  | NoFile | LoadError => st
  end.

(** What can happen to the variables: the device calls the callback, or the
    user acts on a widget. *)
Inductive event : Type :=
  | EvCallback (outdata : list R) (frames : nat)
  | EvToggleFilter
  | EvLowcut (text : string)
  | EvHighcut (text : string)
  | EvTogglePlay
  | EvReset
  | EvChangeFile (o : load_outcome)
  | EvClose.

Inductive step : State -> event -> State -> Prop :=
  | step_callback st outdata frames r st' :
      audio_callback outdata frames st = (r, st') ->
      step st (EvCallback outdata frames) st'
  | step_toggle_filter st :
      step st EvToggleFilter (toggle_filter st)
  | step_lowcut st text fuel st' :          (* the box shows what was typed *)
      update_lowcut fuel (set_lowcut_box st text) text = Some st' ->
      step st (EvLowcut text) st'
  | step_highcut st text fuel st' :
      update_highcut fuel (set_highcut_box st text) text = Some st' ->
      step st (EvHighcut text) st'
  | step_toggle_play st :
      step st EvTogglePlay (toggle_play st)
  | step_reset st :
      step st EvReset (reset st)
  | step_change_file st o :
      step st (EvChangeFile o) (change_file st o)
  | step_close st :
      step st EvClose (stop_stream st).

Inductive steps : State -> list event -> State -> Prop :=
  | steps_nil st : steps st [] st
  | steps_cons st ev st' evs st'' :
      step st ev st' -> steps st' evs st'' -> steps st (ev :: evs) st''.

(** The states the program can be in after start-up on the samples [y0]. *)
Definition reachable (y0 : list R) (st : State) : Prop :=
  exists st0 evs, run_visualizer y0 = Ok st0 /\ steps st0 evs st.

End Closures.

(** [N] successive calls of the callback by the device, each for [frames]
    frames into the buffer [outdata]; an exception of one call does not change
    what the next one finds in the variables. *)
Fixpoint callbacks (sr0 : nat) (outdata : list R) (frames N : nat) (st : State) : State :=
  match N with
  | O => st
  | S N' => callbacks sr0 outdata frames N' (snd (audio_callback sr0 outdata frames st))
  end.

(** The band mask of [apply_bandpass] and the spectrum it leaves. *)
Definition band_mask (sr0 : nat) (lowcut highcut : pyfloat) : list bool :=
  map (fun f => py_ge (Fin f) lowcut && py_le (Fin f) highcut) (freqs sr0).

Definition windowed (data : list R) : list R := Np.zip_with Rmult data window.

Definition masked_spectrum (sr0 : nat) (data : list R) (lowcut highcut : pyfloat)
  : list Np.C :=
  Np.zip_with (fun z (b : bool) => if b then Np.Czero else z)
    (map (Np.rfft_bin (windowed data)) (seq 0 (block_size / 2 + 1)))
    (map negb (band_mask sr0 lowcut highcut)).

(** The angle [2 pi d / n] for an integer [d]. *)
Definition kernel_angle (n : nat) (d : Z) : R := (2 * PI * IZR d / INR n)%R.

(** How often bin [k] of a half spectrum of [M + 1] bins counts in the
    inverse transform: once at both ends, twice in between. *)
Definition bin_weight (M k : nat) : R :=
  if (k =? 0) || (k =? M) then 1%R else 2%R.

(** The value [max(20, min(s, v))] takes. *)
Definition clamp_value (s : R) (v : pyfloat) : R :=
  match v with
  | Fin r => Rmax 20 (Rmin s r)
  | NInf => 20%R
  | PInf | NaN => Rmax 20 s
  end.

(** The cutoffs are numbers of 20 Hz or more. *)
Definition cutoffs_floor (st : State) : Prop :=
  exists l h : R,
    lowcut st = Fin l /\ highcut st = Fin h /\ (20 <= l)%R /\ (20 <= h)%R.

(** The cutoffs are at most half the rate of the current source. *)
Definition below_nyquist (st : State) : Prop :=
  exists l h : R,
    lowcut st = Fin l /\ highcut st = Fin h
    /\ (l <= INR (sr st) / 2)%R /\ (h <= INR (sr st) / 2)%R.

(** Every file of [evs] is loaded at the rate [sr]. *)
Fixpoint same_rate (sr : nat) (evs : list event) : Prop :=
  match evs with
  | [] => True
  | EvChangeFile (Loaded _ sr') :: evs' => sr' = sr /\ same_rate sr evs'
  | _ :: evs' => same_rate sr evs'
  end.

(** The cutoffs are in order between 20 Hz and half the rate, and each is the
    clamped value of the text its box shows, whenever [float] reads that
    text. *)
Definition boxes_agree (float_ : string -> option pyfloat) (st : State) : Prop :=
  exists l h : R,
    lowcut st = Fin l /\ highcut st = Fin h
    /\ (20 <= l <= h)%R /\ (h <= INR (sr st) / 2)%R
    /\ (forall v, float_ (lowcut_box st) = Some v ->
                  clamp_value (INR (sr st) / 2) v = l)
    /\ (forall v, float_ (highcut_box st) = Some v ->
                  clamp_value (INR (sr st) / 2) v = h).

(** [st'] differs from [st] at most in the cutoffs and in the texts the two
    boxes show, and a cutoff that differs is a value of
    [max(20, min(sr/2, v))]. *)
Definition edited (st st' : State) : Prop :=
  exists (lc hc : pyfloat) (lb hb : string),
    st' = set_highcut_box (set_lowcut_box (set_highcut (set_lowcut st lc) hc) lb) hb
    /\ (lc = lowcut st \/ exists v, lc = Fin (clamp_value (INR (sr st) / 2) v))
    /\ (hc = highcut st \/ exists v, hc = Fin (clamp_value (INR (sr st) / 2) v)).

(** No file of [evs] is loaded at a lower rate than the source it replaces,
    [sr] being the rate of the current one. *)
Fixpoint no_rate_drop (sr : nat) (evs : list event) : Prop :=
  match evs with
  | [] => True
  | EvChangeFile (Loaded _ sr') :: evs' => sr <= sr' /\ no_rate_drop sr' evs'
  | _ :: evs' => no_rate_drop sr evs'
  end.

(** The rate of the source after an event. *)
Definition rate_after (st : State) (ev : event) : nat :=
  match ev with
  | EvChangeFile (Loaded _ sr') => sr'
  | _ => sr st
  end.

(** The buffers have the capacities chosen at start-up and respect them. *)
Definition buffers_bounded (sr0 : nat) (st : State) : Prop :=
  Deque.maxlen (time_buffer st) = sr0 / 10
  /\ Deque.len (time_buffer st) <= sr0 / 10
  /\ Deque.maxlen (spectrum_buffer st) = 10
  /\ Deque.len (spectrum_buffer st) <= 10.

(** [float] on the texts made of decimal digits, for the examples: the
    integer they denote; every other text is left unparsed. *)
Fixpoint digits_value (s : string) (acc : Z) : option Z :=
  match s with
  | EmptyString => Some acc
  | String c s' =>
      let n := Ascii.nat_of_ascii c in
      if (48 <=? n) && (n <=? 57)
      then digits_value s' (10 * acc + Z.of_nat (n - 48))
      else None
  end.

Definition float_digits (s : string) : option pyfloat :=
  match s with
  | EmptyString => None
  | _ => option_map (fun z => Fin (IZR z)) (digits_value s 0)
  end.

(** [float] on the same texts and on those with a final [.0], as [str]
    writes a whole number. *)
Definition decimal_value (s : string) : option Z :=
  let digits (s : string) :=
    match s with
    | EmptyString => None
    | _ => digits_value s 0
    end in
  match digits s with
  | Some z => Some z
  | None =>
      let n := String.length s in
      if String.eqb (String.substring (n - 2) 2 s) ".0"
      then digits (String.substring 0 (n - 2) s)
      else None
  end.

Definition float_decimal (s : string) : option pyfloat :=
  option_map (fun z => Fin (IZR z)) (decimal_value s).

(** [str] for the examples: a whole number is written with its digits and
    [.0] (a number with a fraction is written as the whole number below it);
    [inf], [-inf] and [nan] as Python writes them. *)
Definition str_decimal (v : pyfloat) : string :=
  match v with
  | Fin r => (NilZero.string_of_int (Z.to_int (up r - 1)) ++ ".0")%string
  | PInf => "inf"%string
  | NInf => "-inf"%string
  | NaN => "nan"%string
  end.

(** A session: a 44100 Hz file is open, an 8000 Hz file of 4096 samples
    replaces it, playback is started, and the device asks for two blocks. *)
Definition after_source_change : State :=
  toggle_play (change_file (initial_state 44100 [])
                 (Loaded (repeat 0%R 4096) 8000)).

Definition after_two_blocks : State :=
  callbacks 44100 (repeat 0%R block_size) block_size 2 after_source_change.

(** ** What a run of calls gives to the device *)

(** The results of [N] successive calls of the callback. *)
Fixpoint callback_log (sr0 : nat) (outdata : list R) (frames N : nat) (st : State)
  : list (result (list R)) :=
  match N with
  | O => []
  | S N' =>
      fst (audio_callback sr0 outdata frames st)
      :: callback_log sr0 outdata frames N' (snd (audio_callback sr0 outdata frames st))
  end.

(** What a call has put into [outdata]; a call that raises writes nothing. *)
Definition written (r : result (list R)) : list R :=
  match r with
  | Ok out => out
  | Raise _ => []
  end.

(** The last [n] elements of [l]. *)
Definition lastn {A : Type} (n : nat) (l : list A) : list A :=
  skipn (length l - n) l.

(** The position is a whole number of blocks inside the source, every stored
    spectrum has one value per frequency bin, and [paused] is false exactly
    when the stream made by [start_stream] has not been closed. *)
Definition well_formed (st : State) : Prop :=
  (exists k, audio_position st = k * block_size)
  /\ audio_position st <= length (y st)
  /\ Forall (fun s => length s = block_size / 2 + 1)
            (Deque.items (spectrum_buffer st))
  /\ (paused st = false <-> stream st = Some Active).

(** The block [a * u + b * v], sample by sample. *)
Definition combine (a : R) (u : list R) (b : R) (v : list R) : list R :=
  Np.zip_with Rplus (map (Rmult a) u) (map (Rmult b) v).


(** No stored magnitude is below -180 dB. *)
Definition spectra_floor (st : State) : Prop :=
  Forall (Forall (fun v => (-180 <= v)%R)) (Deque.items (spectrum_buffer st)).

(** ** The animation callback *)

Module Plot.

(** [np.linspace(start, stop, num)] *)
Definition linspace (start stop : R) (num : nat) : list R :=
  match num with
  | 0 => []
  | 1 => [start]
  | _ => map (fun i => (start + INR i * ((stop - start) / INR (num - 1)))%R)
             (seq 0 num)
  end.

(** [np.mean(rows, axis=0)] for a first row [r] and the rows [rs] after it:
    the rows must have one length. *)
Definition mean_axis0 (r : list R) (rs : list (list R)) : result (list R) :=
  if forallb (fun r' => length r' =? length r) rs
  then Ok (map (fun k =>
                  (fold_right (fun row acc => nth k row 0 + acc) 0 (r :: rs)
                   / INR (length (r :: rs)))%R)
               (seq 0 (length r)))
  else Raise ValueError.

Fixpoint select {A : Type} (a : list A) (m : list bool) : list A :=
  match a, m with
  | x :: a', b :: m' => if b then x :: select a' m' else select a' m'
  | _, _ => []
  end.

(** [a[m]] for a boolean index array [m] *)
Definition index_mask (a : list R) (m : list bool) : result (list R) :=
  if length m =? length a then Ok (select a m) else Raise IndexError.

(** [np.min] and [np.max] of the array [v :: vs] *)
Definition amin (v : R) (vs : list R) : R := fold_left Rmin vs v.
Definition amax (v : R) (vs : list R) : R := fold_left Rmax vs v.

End Plot.

(** What the lines and the frequency axes show. *)
Record Artists : Type := mkArtists {
  time_line : list R * list R;
  freq_line : list R * list R;
  selected_band : list R * list R;
  ylim : R * R
}.

(** Lines 71-85: empty lines, magnitudes from 0 to 100 dB. *)
Definition initial_artists : Artists :=
  mkArtists ([], []) ([], []) ([], []) (0%R, 100%R).

(** [update(frame)]; [frame] is not read.  The result is the artists as the
    call leaves them and the exception it raised, if any. *)
Definition update (sr0 : nat) (st : State) (art : Artists) : Artists * option exn :=
  if paused st then (art, None)
  else
    let time_data := Deque.items (time_buffer st) in
    if sr st =? 0 then (art, Some ZeroDivisionError)       (* [display_samples/sr] *)
    else
      let time_x :=
        Plot.linspace 0 (INR (display_samples sr0) / INR (sr st)) (length time_data) in
      let art := mkArtists (time_x, time_data) (freq_line art)
                           (selected_band art) (ylim art) in
      match Deque.items (spectrum_buffer st) with
      | [] => (art, None)
      | s :: rest =>
          match Plot.mean_axis0 s rest with
          | Raise e => (art, Some e)
          | Ok avg_spectrum =>
              let art := mkArtists (time_line art) (freqs sr0, avg_spectrum)
                                   (selected_band art) (ylim art) in
              let mask := map (fun f => py_ge (Fin f) (lowcut st)
                                        && py_le (Fin f) (highcut st)) (freqs sr0) in
              match Plot.index_mask (freqs sr0) mask,
                    Plot.index_mask avg_spectrum mask with
              | Raise e, _ | Ok _, Raise e => (art, Some e)
              | Ok fm, Ok am =>
                  let art := mkArtists (time_line art) (freq_line art)
                                       (fm, am) (ylim art) in
                  match Plot.index_mask avg_spectrum
                          (map (fun f => py_ge (Fin f) (Fin 20)
                                         && py_le (Fin f) (Fin 20000)) (freqs sr0)) with
                  | Raise e => (art, Some e)
                  | Ok [] => (art, None)
                  | Ok (v :: vs) =>
                      (mkArtists (time_line art) (freq_line art) (selected_band art)
                                 ((Plot.amin v vs - 5)%R, (Plot.amax v vs + 5)%R),
                       None)
                  end
              end
          end
      end.

(** * Properties *)

(** ** The callback *)

Lemma fill_repeat (a : list R) (v : R) : Np.fill a v = repeat v (length a).
Proof.
  unfold Np.fill. induction a as [|x a IH]; simpl; [reflexivity|now rewrite IH].
Qed.

Lemma slice_length {A : Type} (a : list A) (lo hi : nat) :
  length (Np.slice a lo hi) = Nat.min (hi - lo) (length a - lo).
Proof.
  unfold Np.slice. now rewrite length_firstn, length_skipn.
Qed.

(** The length of the chunk the callback reads. *)
Lemma chunk_length (st : State) (frames : nat) :
  audio_position st < length (y st) ->
  length (Np.slice (y st) (audio_position st)
            (Nat.min (audio_position st + frames) (length (y st))))
  = Nat.min frames (length (y st) - audio_position st).
Proof.
  intros Hpos. rewrite slice_length. lia.
Qed.

Lemma playing_guard (st : State) :
  paused st = false -> audio_position st < length (y st) ->
  paused st || (length (y st) <=? audio_position st) = false.
Proof.
  intros -> Hpos. simpl. apply Nat.leb_gt. exact Hpos.
Qed.

(** A chunk whose length is not [block_size] leaves [filtered_chunk] unbound:
    line 117 raises, nothing has been written. *)
Lemma callback_unbound (sr0 : nat) (st : State) (outdata : list R) (frames : nat) :
  paused st = false ->
  audio_position st < length (y st) ->
  Nat.min frames (length (y st) - audio_position st) <> block_size ->
  audio_callback sr0 outdata frames st = (Raise UnboundLocalError, st).
Proof.
  intros Hp Hpos Hlen.
  unfold audio_callback, bind, get.
  rewrite (playing_guard st Hp Hpos).
  rewrite (chunk_length st frames Hpos).
  apply Nat.eqb_neq in Hlen. rewrite Hlen.
  reflexivity.
Qed.

(** ** Lengths of the arrays of [apply_bandpass] *)

Lemma zip_with_length {A B D : Type} (f : A -> B -> D) (a : list A) (b : list B) :
  length (Np.zip_with f a b) = Nat.min (length a) (length b).
Proof.
  revert b. induction a as [|x a IH]; intros [|v b]; simpl; auto.
Qed.

Lemma zip_with_nth {A B D : Type} (f : A -> B -> D) (a : list A) (b : list B)
      (i : nat) (da : A) (db : B) (dd : D) :
  i < length a -> i < length b ->
  nth i (Np.zip_with f a b) dd = f (nth i a da) (nth i b db).
Proof.
  revert b i. induction a as [|x a IH]; intros [|v b] [|i]; simpl; try lia; auto.
  intros Ha Hb. apply IH; lia.
Qed.

Lemma blackman_length (M : nat) : length (Np.blackman M) = M.
Proof.
  destruct M as [|[|M]]; try reflexivity.
  unfold Np.blackman. now rewrite length_map, length_seq.
Qed.

Lemma window_length : length window = block_size.
Proof. apply blackman_length. Qed.

Lemma rfftfreq_length (n : nat) (d : R) : length (Np.rfftfreq n d) = n / 2 + 1.
Proof. unfold Np.rfftfreq. now rewrite length_map, length_seq. Qed.

Lemma freqs_length (sr0 : nat) : length (freqs sr0) = block_size / 2 + 1.
Proof. apply rfftfreq_length. Qed.

Lemma block_size_half : block_size / 2 = 1024.
Proof. reflexivity. Qed.

Lemma block_size_even : 2 * (block_size / 2) = block_size.
Proof. reflexivity. Qed.

Lemma mul_same_length (a b : list R) :
  length a = length b -> Np.mul a b = Ok (Np.zip_with Rmult a b).
Proof.
  intros H. unfold Np.mul. now rewrite H, Nat.eqb_refl.
Qed.

Lemma rfft_nonempty (x : list R) :
  length x <> 0 ->
  Np.rfft x = Ok (map (Np.rfft_bin x) (seq 0 (length x / 2 + 1))).
Proof.
  intros H. unfold Np.rfft. apply Nat.eqb_neq in H. now rewrite H.
Qed.

Lemma block_size_nonzero : block_size <> 0.
Proof. discriminate. Qed.

Lemma windowed_length (data : list R) :
  length data = block_size -> length (windowed data) = block_size.
Proof.
  intros H. unfold windowed. rewrite zip_with_length, window_length, H. apply Nat.min_id.
Qed.

Lemma band_mask_length (sr0 : nat) (lo hi : pyfloat) :
  length (band_mask sr0 lo hi) = block_size / 2 + 1.
Proof. unfold band_mask. now rewrite length_map, freqs_length. Qed.

Lemma masked_spectrum_length (sr0 : nat) (data : list R) (lo hi : pyfloat) :
  length (masked_spectrum sr0 data lo hi) = block_size / 2 + 1.
Proof.
  unfold masked_spectrum.
  rewrite zip_with_length, !length_map, length_seq, band_mask_length.
  apply Nat.min_id.
Qed.

(** On a block of [block_size] samples no step of [apply_bandpass] raises. *)
Lemma apply_bandpass_full (sr0 : nat) (data : list R) (lo hi : pyfloat) :
  length data = block_size ->
  apply_bandpass sr0 data lo hi
  = Ok (map (Np.irfft_sample (masked_spectrum sr0 data lo hi) block_size)
            (seq 0 block_size)).
Proof.
  intros Hlen. unfold apply_bandpass.
  rewrite mul_same_length by (now rewrite window_length).
  cbn [rbind]. fold (windowed data).
  rewrite rfft_nonempty
    by (rewrite (windowed_length data Hlen); exact block_size_nonzero).
  cbn [rbind]. rewrite (windowed_length data Hlen).
  unfold Np.set_where.
  fold (band_mask sr0 lo hi).
  rewrite !length_map, length_seq, band_mask_length, Nat.eqb_refl.
  cbn [rbind]. fold (masked_spectrum sr0 data lo hi).
  unfold Np.irfft. rewrite masked_spectrum_length.
  replace (2 * (block_size / 2 + 1 - 1)) with block_size by reflexivity.
  reflexivity.
Qed.

(** ** Finite sums *)

Section Sums.
Local Open Scope R_scope.
Import Np.

Lemma Rsum_ext (n : nat) (f g : nat -> R) :
  (forall i, (i < n)%nat -> f i = g i) -> Rsum n f = Rsum n g.
Proof.
  induction n as [|n IH]; intros H; simpl; [reflexivity|].
  rewrite IH by (intros i Hi; apply H; lia).
  now rewrite H by lia.
Qed.

Lemma Rsum_zero (n : nat) : Rsum n (fun _ => 0) = 0.
Proof. induction n as [|n IH]; simpl; [reflexivity|rewrite IH; ring]. Qed.

Lemma Rsum_plus (n : nat) (f g : nat -> R) :
  Rsum n (fun i => f i + g i) = Rsum n f + Rsum n g.
Proof. induction n as [|n IH]; simpl; [ring|rewrite IH; ring]. Qed.

Lemma Rsum_minus (n : nat) (f g : nat -> R) :
  Rsum n (fun i => f i - g i) = Rsum n f - Rsum n g.
Proof. induction n as [|n IH]; simpl; [ring|rewrite IH; ring]. Qed.

Lemma Rsum_scal (n : nat) (c : R) (f : nat -> R) :
  Rsum n (fun i => c * f i) = c * Rsum n f.
Proof. induction n as [|n IH]; simpl; [ring|rewrite IH; ring]. Qed.

Lemma Rsum_const (n : nat) (c : R) : Rsum n (fun _ => c) = INR n * c.
Proof.
  induction n as [|n IH]; [simpl; ring|].
  cbn [Rsum]. rewrite IH, S_INR. ring.
Qed.

Lemma Rsum_shift (n : nat) (f : nat -> R) :
  Rsum (S n) f = f O + Rsum n (fun i => f (S i)).
Proof.
  induction n as [|n IH]; [simpl; ring|].
  change (Rsum (S (S n)) f) with (Rsum (S n) f + f (S n)).
  rewrite IH. simpl. ring.
Qed.

Lemma Rsum_exchange (n m : nat) (f : nat -> nat -> R) :
  Rsum n (fun i => Rsum m (fun j => f i j))
  = Rsum m (fun j => Rsum n (fun i => f i j)).
Proof.
  induction n as [|n IH]; simpl.
  - now rewrite Rsum_zero.
  - rewrite IH. now rewrite <- Rsum_plus.
Qed.

(** A sum with one non-zero term. *)
Lemma Rsum_single (n k : nat) (f : nat -> R) :
  (k < n)%nat ->
  (forall i, (i < n)%nat -> i <> k -> f i = 0) ->
  Rsum n f = f k.
Proof.
  induction n as [|n IH]; intros Hk Hz; [lia|].
  simpl. destruct (Nat.eq_dec k n) as [->|Hne].
  - rewrite (Rsum_ext n f (fun _ => 0)) by (intros i Hi; apply Hz; lia).
    rewrite Rsum_zero. ring.
  - rewrite IH by (try lia; intros i Hi Hik; apply Hz; lia).
    rewrite (Hz n) by lia. ring.
Qed.

(** *** Sums of cosines and sines in arithmetic progression *)

Lemma cos_progression (phi : R) (n : nat) :
  2 * sin (phi / 2) * Rsum n (fun j => cos (INR j * phi))
  = sin ((INR n - 1 / 2) * phi) + sin (phi / 2).
Proof.
  induction n as [|n IH].
  - simpl. replace ((0 - 1 / 2) * phi) with (- (phi / 2)) by field.
    rewrite sin_neg. ring.
  - cbn [Rsum]. rewrite Rmult_plus_distr_l, IH.
    replace ((INR (S n) - 1 / 2) * phi) with (INR n * phi + phi / 2)
      by (rewrite S_INR; field).
    replace ((INR n - 1 / 2) * phi) with (INR n * phi - phi / 2) by field.
    rewrite sin_plus, sin_minus. ring.
Qed.

Lemma sin_progression (phi : R) (n : nat) :
  2 * sin (phi / 2) * Rsum n (fun j => sin (INR j * phi))
  = cos (phi / 2) - cos ((INR n - 1 / 2) * phi).
Proof.
  induction n as [|n IH].
  - simpl. replace ((0 - 1 / 2) * phi) with (- (phi / 2)) by field.
    rewrite cos_neg. ring.
  - cbn [Rsum]. rewrite Rmult_plus_distr_l, IH.
    replace ((INR (S n) - 1 / 2) * phi) with (INR n * phi + phi / 2)
      by (rewrite S_INR; field).
    replace ((INR n - 1 / 2) * phi) with (INR n * phi - phi / 2) by field.
    rewrite cos_plus, cos_minus. ring.
Qed.

End Sums.

(** ** Orthogonality of the transform kernel *)

Section Kernel.
Local Open Scope R_scope.
Import Np.

Lemma sin_int_PI (k : Z) : sin (IZR k * PI) = 0.
Proof. apply sin_eq_0_1. now exists k. Qed.

Lemma cos_int_2PI (k : Z) : cos (2 * (IZR k * PI)) = 1.
Proof. rewrite cos_2a_sin, sin_int_PI. ring. Qed.

Lemma sin_int_2PI (k : Z) : sin (2 * (IZR k * PI)) = 0.
Proof. rewrite sin_2a, sin_int_PI. ring. Qed.

Lemma cos_nat_PI (j : nat) : cos (INR j * PI) = (-1) ^ j.
Proof.
  induction j as [|j IH].
  - simpl. rewrite Rmult_0_l. apply cos_0.
  - replace (INR (S j) * PI) with (INR j * PI + PI) by (rewrite S_INR; ring).
    rewrite neg_cos, IH. simpl. ring.
Qed.

Lemma sin_nat_PI (j : nat) : sin (INR j * PI) = 0.
Proof. rewrite INR_IZR_INZ. apply sin_int_PI. Qed.

Variable n : nat.
Hypothesis n_pos : (0 < n)%nat.

Lemma INR_n_neq0 : INR n <> 0.
Proof. apply not_0_INR. lia. Qed.

Lemma sin_half_phi_neq0 (d : Z) :
  ~ (Z.of_nat n | d)%Z -> sin (kernel_angle n d / 2) <> 0.
Proof.
  intros Hnd Hs. apply Hnd.
  destruct (sin_eq_0_0 _ Hs) as [k Hk].
  exists k. apply eq_IZR. rewrite mult_IZR, <- INR_IZR_INZ.
  assert (Hpi := PI_neq0). assert (Hn := INR_n_neq0).
  unfold kernel_angle in Hk.
  assert (E : IZR d * PI = IZR k * INR n * PI).
  { transitivity (2 * PI * IZR d / INR n / 2 * INR n); [field; exact Hn|].
    rewrite Hk. ring. }
  apply (Rmult_eq_reg_r PI); [exact E|exact Hpi].
Qed.

Lemma phi_multiple (j : nat) (q : Z) :
  INR j * kernel_angle n (q * Z.of_nat n) = 2 * (IZR (Z.of_nat j * q) * PI).
Proof.
  unfold kernel_angle. rewrite !mult_IZR, <- !INR_IZR_INZ. field. exact INR_n_neq0.
Qed.

Lemma n_phi (d : Z) : INR n * kernel_angle n d = 2 * (IZR d * PI).
Proof. unfold kernel_angle. field. exact INR_n_neq0. Qed.

(** [sum_{j<n} cos (2 pi j d / n)] is [n] when [n] divides [d], else [0]. *)
Lemma cos_sum_multiple (d : Z) :
  (Z.of_nat n | d)%Z -> Rsum n (fun j => cos (INR j * kernel_angle n d)) = INR n.
Proof.
  intros [q ->].
  rewrite (Rsum_ext n _ (fun _ => 1)).
  - rewrite Rsum_const. ring.
  - intros j _. rewrite phi_multiple. apply cos_int_2PI.
Qed.

Lemma cos_sum_other (d : Z) :
  ~ (Z.of_nat n | d)%Z -> Rsum n (fun j => cos (INR j * kernel_angle n d)) = 0.
Proof.
  intros Hnd. assert (Hs := sin_half_phi_neq0 d Hnd).
  apply (Rmult_eq_reg_l (2 * sin (kernel_angle n d / 2))); [|lra].
  rewrite cos_progression.
  replace ((INR n - 1 / 2) * kernel_angle n d) with (INR n * kernel_angle n d - kernel_angle n d / 2) by field.
  rewrite n_phi, sin_minus, cos_int_2PI, sin_int_2PI. ring.
Qed.

Lemma sin_sum_zero (d : Z) : Rsum n (fun j => sin (INR j * kernel_angle n d)) = 0.
Proof.
  assert (Hdec : (Z.of_nat n | d)%Z \/ ~ (Z.of_nat n | d)%Z).
  { destruct (Z.eq_dec (d mod Z.of_nat n) 0) as [E|E]; [left|right];
      rewrite <- Z.mod_divide by lia; exact E. }
  destruct Hdec as [[q ->]|Hnd].
  - rewrite (Rsum_ext n _ (fun _ => 0)); [apply Rsum_zero|].
    intros j _. rewrite phi_multiple. apply sin_int_2PI.
  - assert (Hs := sin_half_phi_neq0 d Hnd).
    apply (Rmult_eq_reg_l (2 * sin (kernel_angle n d / 2))); [|lra].
    rewrite sin_progression.
    replace ((INR n - 1 / 2) * kernel_angle n d) with (INR n * kernel_angle n d - kernel_angle n d / 2) by field.
    rewrite n_phi, cos_minus, cos_int_2PI, sin_int_2PI. ring.
Qed.

Lemma angle_phi (j k : nat) : angle n j k = INR j * kernel_angle n (Z.of_nat k).
Proof. unfold angle, kernel_angle. rewrite <- INR_IZR_INZ. unfold Rdiv. ring. Qed.

Lemma angle_sym (j k : nat) : angle n j k = angle n k j.
Proof. unfold angle, Rdiv. ring. Qed.

Lemma phi_plus (a b : Z) : kernel_angle n (a + b) = kernel_angle n a + kernel_angle n b.
Proof. unfold kernel_angle. rewrite plus_IZR. unfold Rdiv. ring. Qed.

Lemma phi_minus (a b : Z) : kernel_angle n (a - b) = kernel_angle n a - kernel_angle n b.
Proof. unfold kernel_angle. rewrite minus_IZR. unfold Rdiv. ring. Qed.

End Kernel.

Section Products.
Local Open Scope R_scope.
Import Np.

Variable n : nat.

Lemma cos_cos_sum (a b : nat) :
  Rsum n (fun j => cos (angle n j a) * cos (angle n j b))
  = (Rsum n (fun j => cos (INR j * kernel_angle n (Z.of_nat a - Z.of_nat b)))
     + Rsum n (fun j => cos (INR j * kernel_angle n (Z.of_nat a + Z.of_nat b)))) / 2.
Proof.
  rewrite <- Rsum_plus. unfold Rdiv. rewrite Rmult_comm, <- Rsum_scal.
  apply Rsum_ext. intros j _.
  rewrite phi_minus, phi_plus, !angle_phi.
  rewrite (Rmult_minus_distr_l (INR j)), (Rmult_plus_distr_l (INR j)).
  rewrite cos_minus, cos_plus. field.
Qed.

Lemma sin_sin_sum (a b : nat) :
  Rsum n (fun j => sin (angle n j a) * sin (angle n j b))
  = (Rsum n (fun j => cos (INR j * kernel_angle n (Z.of_nat a - Z.of_nat b)))
     - Rsum n (fun j => cos (INR j * kernel_angle n (Z.of_nat a + Z.of_nat b)))) / 2.
Proof.
  rewrite <- Rsum_minus. unfold Rdiv. rewrite Rmult_comm, <- Rsum_scal.
  apply Rsum_ext. intros j _.
  rewrite phi_minus, phi_plus, !angle_phi.
  rewrite (Rmult_minus_distr_l (INR j)), (Rmult_plus_distr_l (INR j)).
  rewrite cos_minus, cos_plus. field.
Qed.

Lemma sin_cos_sum (a b : nat) :
  Rsum n (fun j => sin (angle n j a) * cos (angle n j b))
  = (Rsum n (fun j => sin (INR j * kernel_angle n (Z.of_nat a + Z.of_nat b)))
     + Rsum n (fun j => sin (INR j * kernel_angle n (Z.of_nat a - Z.of_nat b)))) / 2.
Proof.
  rewrite <- Rsum_plus. unfold Rdiv. rewrite Rmult_comm, <- Rsum_scal.
  apply Rsum_ext. intros j _.
  rewrite phi_minus, phi_plus, !angle_phi.
  rewrite (Rmult_minus_distr_l (INR j)), (Rmult_plus_distr_l (INR j)).
  rewrite sin_minus, sin_plus. field.
Qed.

End Products.

(** The kernel for an even length [2 * M]. *)
Section EvenLength.
Local Open Scope R_scope.
Import Np.

Variable M : nat.
Hypothesis M_pos : (0 < M)%nat.

Lemma even_pos : (0 < 2 * M)%nat.
Proof. lia. Qed.

Lemma divide_diff (a b : nat) :
  (a <= M)%nat -> (b <= M)%nat ->
  (Z.of_nat (2 * M) | Z.of_nat a - Z.of_nat b)%Z -> a = b.
Proof.
  intros Ha Hb [q Hq]. rewrite Nat2Z.inj_mul in Hq. change (Z.of_nat 2) with 2%Z in Hq.
  assert (Hq3 : (q <= -1 \/ q = 0 \/ 1 <= q)%Z) by lia.
  destruct Hq3 as [H|[H|H]]; [nia|subst q; lia|nia].
Qed.

Lemma divide_sum (a b : nat) :
  (a <= M)%nat -> (b <= M)%nat ->
  (Z.of_nat (2 * M) | Z.of_nat a + Z.of_nat b)%Z ->
  a = b /\ (a = O \/ a = M).
Proof.
  intros Ha Hb [q Hq]. rewrite Nat2Z.inj_mul in Hq. change (Z.of_nat 2) with 2%Z in Hq.
  assert (Hq3 : (q <= -1 \/ q = 0 \/ q = 1 \/ 2 <= q)%Z) by lia.
  destruct Hq3 as [H|[H|[H|H]]]; [nia|subst q; lia|subst q; lia|nia].
Qed.

Lemma sin_cos_orthogonal (a b : nat) :
  Rsum (2 * M) (fun j => sin (angle (2 * M) j a) * cos (angle (2 * M) j b)) = 0.
Proof.
  rewrite sin_cos_sum, !(sin_sum_zero (2 * M) even_pos). field.
Qed.

Lemma cos_cos_distinct (a b : nat) :
  (a <= M)%nat -> (b <= M)%nat -> a <> b ->
  Rsum (2 * M) (fun j => cos (angle (2 * M) j a) * cos (angle (2 * M) j b)) = 0.
Proof.
  intros Ha Hb Hab. rewrite cos_cos_sum.
  rewrite !(cos_sum_other (2 * M) even_pos); [field| |].
  - intros H. now destruct (divide_sum a b Ha Hb H).
  - intros H. now apply Hab, divide_diff.
Qed.

Lemma sin_sin_distinct (a b : nat) :
  (a <= M)%nat -> (b <= M)%nat -> a <> b ->
  Rsum (2 * M) (fun j => sin (angle (2 * M) j a) * sin (angle (2 * M) j b)) = 0.
Proof.
  intros Ha Hb Hab. rewrite sin_sin_sum.
  rewrite !(cos_sum_other (2 * M) even_pos); [field| |].
  - intros H. now destruct (divide_sum a b Ha Hb H).
  - intros H. now apply Hab, divide_diff.
Qed.

(** Bins [0] and [M]: the kernel is real. *)
Lemma cos_cos_edge (a : nat) :
  a = O \/ a = M ->
  Rsum (2 * M) (fun j => cos (angle (2 * M) j a) * cos (angle (2 * M) j a))
  = INR (2 * M).
Proof.
  intros Ha. rewrite cos_cos_sum.
  rewrite !(cos_sum_multiple (2 * M) even_pos); [field| |].
  - destruct Ha as [->| ->]; [exists 0%Z|exists 1%Z]; lia.
  - exists 0%Z. lia.
Qed.

Lemma sin_sin_edge (a : nat) :
  a = O \/ a = M ->
  Rsum (2 * M) (fun j => sin (angle (2 * M) j a) * sin (angle (2 * M) j a)) = 0.
Proof.
  intros Ha. rewrite sin_sin_sum.
  rewrite !(cos_sum_multiple (2 * M) even_pos); [field| |].
  - destruct Ha as [->| ->]; [exists 0%Z|exists 1%Z]; lia.
  - exists 0%Z. lia.
Qed.

Lemma cos_cos_inner (a : nat) :
  (0 < a < M)%nat ->
  Rsum (2 * M) (fun j => cos (angle (2 * M) j a) * cos (angle (2 * M) j a))
  = INR M.
Proof.
  intros Ha. rewrite cos_cos_sum.
  rewrite (cos_sum_multiple (2 * M) even_pos) by (exists 0%Z; lia).
  rewrite (cos_sum_other (2 * M) even_pos).
  - rewrite mult_INR. simpl. field.
  - intros H. destruct (divide_sum a a) as [_ [E|E]]; try lia. exact H.
Qed.

Lemma sin_sin_inner (a : nat) :
  (0 < a < M)%nat ->
  Rsum (2 * M) (fun j => sin (angle (2 * M) j a) * sin (angle (2 * M) j a))
  = INR M.
Proof.
  intros Ha. rewrite sin_sin_sum.
  rewrite (cos_sum_multiple (2 * M) even_pos) by (exists 0%Z; lia).
  rewrite (cos_sum_other (2 * M) even_pos).
  - rewrite mult_INR. simpl. field.
  - intros H. destruct (divide_sum a a) as [_ [E|E]]; try lia. exact H.
Qed.

End EvenLength.

(** ** The transform pair on blocks of even length *)

Lemma nth_map_seq {A : Type} (f : nat -> A) (n j : nat) (d : A) :
  j < n -> nth j (map f (seq 0 n)) d = f j.
Proof.
  intros Hj. rewrite (nth_indep _ d (f 0)) by (now rewrite length_map, length_seq).
  rewrite map_nth, seq_nth by exact Hj. reflexivity.
Qed.

Lemma Rsum_shift_pred (n : nat) (f : nat -> R) :
  0 < n -> Np.Rsum n f = (f O + Np.Rsum (n - 1) (fun i => f (S i)))%R.
Proof.
  intros Hn. destruct n as [|n]; [lia|].
  replace (S n - 1) with n by lia. apply Rsum_shift.
Qed.

Section TransformPair.
Local Open Scope R_scope.
Import Np.

Variable M : nat.
Hypothesis M_pos : (0 < M)%nat.

Lemma half_even : ((2 * M) / 2 = M)%nat.
Proof. rewrite Nat.mul_comm. apply Nat.div_mul. discriminate. Qed.

Lemma INR_even_neq0 : INR (2 * M) <> 0.
Proof. apply not_0_INR. lia. Qed.

Lemma angle_zero (j : nat) : angle (2 * M) j 0 = 0.
Proof. unfold angle. simpl INR. unfold Rdiv. ring. Qed.

Lemma angle_half (j : nat) : angle (2 * M) j M = INR j * PI.
Proof.
  unfold angle. rewrite mult_INR. simpl INR. field.
  apply not_0_INR. lia.
Qed.

Lemma weighted_sum (f : nat -> R) :
  Rsum (S M) (fun k => bin_weight M k * f k) = 2 * Rsum M f - f O + f M.
Proof.
  revert M_pos. generalize M. intros [|M'] H; [lia|].
  change (Rsum (S (S M')) (fun k => bin_weight (S M') k * f k))
    with (Rsum (S M') (fun k => bin_weight (S M') k * f k)
          + bin_weight (S M') (S M') * f (S M')).
  rewrite !Rsum_shift.
  rewrite (Rsum_ext M' (fun i => bin_weight (S M') (S i) * f (S i))
                       (fun i => 2 * f (S i))).
  - rewrite Rsum_scal. unfold bin_weight. rewrite !Nat.eqb_refl, orb_true_r.
    cbn [orb]. ring.
  - intros i Hi. unfold bin_weight.
    replace (S i =? S M')%nat with false by (symmetry; apply Nat.eqb_neq; lia).
    reflexivity.
Qed.

(** The inverse transform as one weighted sum over the bins [0 .. M]. *)
Lemma irfft_sample_weighted (X : list C) (j : nat) :
  irfft_sample X (2 * M) j
  = Rsum (S M) (fun k =>
      bin_weight M k
      * (fst (nth k X Czero) * cos (angle (2 * M) j k)
         - snd (nth k X Czero) * sin (angle (2 * M) j k)))
    / INR (2 * M).
Proof.
  unfold irfft_sample. rewrite half_even. f_equal.
  rewrite weighted_sum.
  rewrite angle_zero, cos_0, sin_0, angle_half, cos_nat_PI, sin_nat_PI.
  replace (Rsum M (fun k =>
             fst (nth k X Czero) * cos (angle (2 * M) j k)
             - snd (nth k X Czero) * sin (angle (2 * M) j k)))
    with (fst (nth 0 X Czero)
          + Rsum (M - 1) (fun i =>
              fst (nth (S i) X Czero) * cos (angle (2 * M) j (S i))
              - snd (nth (S i) X Czero) * sin (angle (2 * M) j (S i)))).
  - ring.
  - rewrite (Rsum_shift_pred M _ M_pos), angle_zero, cos_0, sin_0. ring.
Qed.

Lemma Rsum_combination (n : nat) (w a b : R) (f g : nat -> R) :
  Rsum n (fun j => w * (a * f j - b * g j)) = w * (a * Rsum n f - b * Rsum n g).
Proof. now rewrite Rsum_scal, Rsum_minus, !Rsum_scal. Qed.

(** *** Forward after inverse *)

Section ForwardInverse.
Variable X : list C.

Lemma rfft_irfft_re (k : nat) :
  (k <= M)%nat ->
  fst (rfft_bin (map (irfft_sample X (2 * M)) (seq 0 (2 * M))) k) = fst (nth k X Czero).
Proof.
  intros Hk. unfold rfft_bin. cbn [fst].
  rewrite length_map, length_seq.
  rewrite (Rsum_ext _ _ (fun j =>
     / INR (2 * M) * Rsum (S M) (fun k' =>
        bin_weight M k'
        * (fst (nth k' X Czero) * (cos (angle (2 * M) j k') * cos (angle (2 * M) j k))
           - snd (nth k' X Czero) * (sin (angle (2 * M) j k') * cos (angle (2 * M) j k)))))).
  2:{ intros j Hj. rewrite nth_map_seq by exact Hj.
      rewrite irfft_sample_weighted. unfold Rdiv.
      rewrite (Rmult_comm _ (/ _)), Rmult_assoc. f_equal.
      rewrite Rmult_comm, <- Rsum_scal. apply Rsum_ext. intros k' _. ring. }
  rewrite Rsum_scal, Rsum_exchange.
  rewrite (Rsum_ext _ _ (fun k' =>
     bin_weight M k'
     * (fst (nth k' X Czero)
          * Rsum (2 * M) (fun j => cos (angle (2 * M) j k') * cos (angle (2 * M) j k))
        - snd (nth k' X Czero)
          * Rsum (2 * M) (fun j => sin (angle (2 * M) j k') * cos (angle (2 * M) j k)))))
    by (intros k' _; apply Rsum_combination).
  rewrite (Rsum_single (S M) k).
  - rewrite sin_cos_orthogonal by exact M_pos.
    assert (Hn := INR_even_neq0).
    unfold bin_weight.
    destruct ((k =? 0)%nat || (k =? M)%nat) eqn:E.
    + rewrite cos_cos_edge; [field; exact Hn|exact M_pos|].
      apply orb_true_iff in E. destruct E as [E|E]; apply Nat.eqb_eq in E; auto.
    + apply orb_false_iff in E. destruct E as [E0 EM].
      apply Nat.eqb_neq in E0, EM.
      rewrite cos_cos_inner by (try exact M_pos; lia).
      rewrite mult_INR in *. simpl INR in *. field.
      intros H. apply Hn. rewrite H. ring.
  - lia.
  - intros k' Hk' Hne.
    rewrite sin_cos_orthogonal by exact M_pos.
    rewrite cos_cos_distinct by (try exact M_pos; lia). ring.
Qed.

Lemma rfft_irfft_im (k : nat) :
  (k <= M)%nat ->
  snd (rfft_bin (map (irfft_sample X (2 * M)) (seq 0 (2 * M))) k)
  = if (k =? 0)%nat || (k =? M)%nat then 0 else snd (nth k X Czero).
Proof.
  intros Hk. unfold rfft_bin. cbn [snd].
  rewrite length_map, length_seq.
  rewrite (Rsum_ext _ _ (fun j =>
     / INR (2 * M) * Rsum (S M) (fun k' =>
        bin_weight M k'
        * (fst (nth k' X Czero) * (sin (angle (2 * M) j k) * cos (angle (2 * M) j k'))
           - snd (nth k' X Czero) * (sin (angle (2 * M) j k') * sin (angle (2 * M) j k)))))).
  2:{ intros j Hj. rewrite nth_map_seq by exact Hj.
      rewrite irfft_sample_weighted. unfold Rdiv.
      rewrite (Rmult_comm _ (/ _)), Rmult_assoc. f_equal.
      rewrite Rmult_comm, <- Rsum_scal. apply Rsum_ext. intros k' _. ring. }
  rewrite Rsum_scal, Rsum_exchange.
  rewrite (Rsum_ext _ _ (fun k' =>
     bin_weight M k'
     * (fst (nth k' X Czero)
          * Rsum (2 * M) (fun j => sin (angle (2 * M) j k) * cos (angle (2 * M) j k'))
        - snd (nth k' X Czero)
          * Rsum (2 * M) (fun j => sin (angle (2 * M) j k') * sin (angle (2 * M) j k)))))
    by (intros k' _; apply Rsum_combination).
  rewrite (Rsum_single (S M) k).
  - rewrite sin_cos_orthogonal by exact M_pos.
    assert (Hn := INR_even_neq0).
    unfold bin_weight.
    destruct ((k =? 0)%nat || (k =? M)%nat) eqn:E.
    + rewrite sin_sin_edge; [field; exact Hn|exact M_pos|].
      apply orb_true_iff in E. destruct E as [E|E]; apply Nat.eqb_eq in E; auto.
    + apply orb_false_iff in E. destruct E as [E0 EM].
      apply Nat.eqb_neq in E0, EM.
      rewrite sin_sin_inner by (try exact M_pos; lia).
      rewrite mult_INR in *. simpl INR in *. field.
      intros H. apply Hn. rewrite H. ring.
  - lia.
  - intros k' Hk' Hne.
    rewrite sin_cos_orthogonal by exact M_pos.
    rewrite sin_sin_distinct by (try exact M_pos; lia). ring.
Qed.

End ForwardInverse.

End TransformPair.

Section InverseForward.
Local Open Scope R_scope.
Import Np.

Variable M : nat.
Hypothesis M_pos : (0 < M)%nat.

Lemma half_phi (d : Z) : INR M * kernel_angle (2 * M) d = IZR d * PI.
Proof.
  unfold kernel_angle. rewrite mult_INR. simpl INR. field.
  apply not_0_INR. lia.
Qed.

(** The weighted kernel sum over the bins: [2 M] at distance [0], and [0]
    at every other distance below [2 M]. *)
Lemma bins_sum_zero (d : Z) :
  d <> 0%Z -> (- Z.of_nat (2 * M) < d < Z.of_nat (2 * M))%Z ->
  Rsum (S M) (fun k => bin_weight M k * cos (INR k * kernel_angle (2 * M) d)) = 0.
Proof.
  intros Hd Hr.
  assert (Hnd : ~ (Z.of_nat (2 * M) | d)%Z).
  { intros [q Hq].
    assert (Hq3 : (q <= -1 \/ q = 0 \/ 1 <= q)%Z) by lia.
    destruct Hq3 as [H|[H|H]]; [nia|subst q; lia|nia]. }
  assert (Hs := sin_half_phi_neq0 (2 * M) (even_pos M M_pos) d Hnd).
  rewrite (weighted_sum M M_pos).
  apply (Rmult_eq_reg_l (sin (kernel_angle (2 * M) d / 2))); [|exact Hs].
  rewrite Rmult_0_r.
  transitivity
    (2 * sin (kernel_angle (2 * M) d / 2)
       * Rsum M (fun k => cos (INR k * kernel_angle (2 * M) d))
     - sin (kernel_angle (2 * M) d / 2) * cos (INR 0 * kernel_angle (2 * M) d)
     + sin (kernel_angle (2 * M) d / 2) * cos (INR M * kernel_angle (2 * M) d));
    [ring|].
  rewrite cos_progression.
  replace ((INR M - 1 / 2) * kernel_angle (2 * M) d)
    with (INR M * kernel_angle (2 * M) d - kernel_angle (2 * M) d / 2) by field.
  rewrite sin_minus, half_phi, sin_int_PI.
  replace (INR 0 * kernel_angle (2 * M) d) with 0 by (simpl INR; ring).
  rewrite cos_0. ring.
Qed.

Lemma bins_sum_same :
  Rsum (S M) (fun k => bin_weight M k * cos (INR k * kernel_angle (2 * M) 0))
  = INR (2 * M).
Proof.
  rewrite (weighted_sum M M_pos).
  rewrite (Rsum_ext M _ (fun _ => 1)).
  - rewrite Rsum_const.
    unfold kernel_angle. unfold Rdiv. rewrite !Rmult_0_r, !Rmult_0_l, !Rmult_0_r, cos_0.
    rewrite mult_INR. simpl INR. ring.
  - intros k _. unfold kernel_angle, Rdiv.
    rewrite !Rmult_0_r, !Rmult_0_l, !Rmult_0_r. apply cos_0.
Qed.

Variable x : list R.
Hypothesis x_length : length x = (2 * M)%nat.

(** Inverse after forward gives the signal back. *)
Lemma irfft_rfft_sample (j : nat) :
  (j < 2 * M)%nat ->
  irfft_sample (map (rfft_bin x) (seq 0 (M + 1))) (2 * M) j = nth j x 0.
Proof.
  intros Hj. rewrite (irfft_sample_weighted M M_pos).
  rewrite (Rsum_ext _ _ (fun k =>
     Rsum (2 * M) (fun m =>
       nth m x 0
       * (bin_weight M k
          * cos (INR k * kernel_angle (2 * M) (Z.of_nat m - Z.of_nat j)))))).
  2:{ intros k Hk. rewrite nth_map_seq by lia.
      unfold rfft_bin. cbn [fst snd]. rewrite x_length.
      transitivity
        (bin_weight M k
         * (cos (angle (2 * M) j k)
              * Rsum (2 * M) (fun m => nth m x 0 * cos (angle (2 * M) m k))
            - (- sin (angle (2 * M) j k))
              * Rsum (2 * M) (fun m => nth m x 0 * sin (angle (2 * M) m k))));
        [ring|].
      rewrite <- !Rsum_scal, <- Rsum_minus, <- Rsum_scal.
      apply Rsum_ext. intros m _.
      rewrite phi_minus, (Rmult_minus_distr_l (INR k)).
      rewrite <- !angle_phi, !(angle_sym (2 * M) k).
      rewrite cos_minus. ring. }
  rewrite Rsum_exchange.
  rewrite (Rsum_ext _ _ (fun m =>
     nth m x 0
     * Rsum (S M) (fun k =>
         bin_weight M k
         * cos (INR k * kernel_angle (2 * M) (Z.of_nat m - Z.of_nat j)))))
    by (intros m _; apply Rsum_scal).
  rewrite (Rsum_single (2 * M) j).
  - rewrite Z.sub_diag, bins_sum_same. field.
    apply not_0_INR. lia.
  - exact Hj.
  - intros m Hm Hne. rewrite bins_sum_zero by lia. ring.
Qed.

End InverseForward.

(** ** [apply_bandpass] *)

Lemma nth_map_in {A B : Type} (f : A -> B) (l : list A) (i : nat) (d : B) (d' : A) :
  i < length l -> nth i (map f l) d = f (nth i l d').
Proof.
  intros Hi. rewrite (nth_indep _ d (f d')) by (now rewrite length_map).
  apply map_nth.
Qed.

Section Bandpass.
Local Open Scope R_scope.
Import Np.

Lemma INR_block_size : INR block_size = 2048.
Proof. rewrite INR_IZR_INZ. reflexivity. Qed.

Lemma block_size_double : block_size = (2 * 1024)%nat.
Proof. reflexivity. Qed.

(** [freqs[k] = k * sr / block_size], for the [sr] of start-up. *)
Lemma freqs_nth (sr0 k : nat) :
  (0 < sr0)%nat -> (k <= 1024)%nat ->
  nth k (freqs sr0) 0 = INR k * INR sr0 / INR block_size.
Proof.
  intros Hsr Hk. unfold freqs, rfftfreq.
  rewrite nth_map_seq by (rewrite block_size_half; lia).
  rewrite INR_block_size. field. apply not_0_INR. lia.
Qed.

Lemma freqs_range (sr0 k : nat) :
  (0 < sr0)%nat -> (k <= 1024)%nat ->
  0 <= nth k (freqs sr0) 0 <= INR sr0 / 2.
Proof.
  intros Hsr Hk. rewrite freqs_nth by assumption. rewrite INR_block_size.
  assert (H0 : 0 <= INR k) by apply pos_INR.
  assert (H1 : INR k <= 1024).
  { replace 1024 with (INR 1024) by (rewrite INR_IZR_INZ; reflexivity).
    apply le_INR. exact Hk. }
  assert (H2 : 0 < INR sr0) by (apply lt_0_INR; exact Hsr).
  split.
  - apply Rmult_le_pos; [apply Rmult_le_pos; lra|lra].
  - apply (Rmult_le_reg_r 2048); [lra|].
    replace (INR k * INR sr0 / 2048 * 2048) with (INR k * INR sr0) by field.
    replace (INR sr0 / 2 * 2048) with (1024 * INR sr0) by field.
    apply Rmult_le_compat_r; lra.
Qed.

Lemma band_mask_nth (sr0 : nat) (lo hi : pyfloat) (k : nat) :
  (k <= 1024)%nat ->
  nth k (band_mask sr0 lo hi) false
  = py_ge (Fin (nth k (freqs sr0) 0)) lo && py_le (Fin (nth k (freqs sr0) 0)) hi.
Proof.
  intros Hk. unfold band_mask.
  rewrite (nth_map_in _ _ k false 0); [reflexivity|].
  rewrite freqs_length, block_size_half. lia.
Qed.

(** Bin [k] of the spectrum that [apply_bandpass] inverts. *)
Lemma masked_spectrum_nth (sr0 : nat) (data : list R) (lo hi : pyfloat) (k : nat) :
  (k <= 1024)%nat ->
  nth k (masked_spectrum sr0 data lo hi) Czero
  = if nth k (band_mask sr0 lo hi) false
    then rfft_bin (windowed data) k
    else Czero.
Proof.
  intros Hk. unfold masked_spectrum.
  rewrite (zip_with_nth _ _ _ k Czero true Czero).
  - rewrite nth_map_seq by (rewrite block_size_half; lia).
    rewrite (nth_map_in negb _ k true false)
      by (rewrite band_mask_length, block_size_half; lia).
    now destruct (nth k (band_mask sr0 lo hi) false).
  - rewrite length_map, length_seq, block_size_half. lia.
  - rewrite length_map, band_mask_length, block_size_half. lia.
Qed.

(** The forward transform of what [irfft] returns for a half spectrum [Y]
    of [block_size / 2 + 1] bins. *)
Lemma rfft_of_irfft (Y : list C) :
  rfft (map (irfft_sample Y block_size) (seq 0 block_size))
  = Ok (map (rfft_bin (map (irfft_sample Y block_size) (seq 0 block_size)))
            (seq 0 (block_size / 2 + 1))).
Proof.
  rewrite rfft_nonempty; rewrite length_map, length_seq;
    [reflexivity|exact block_size_nonzero].
Qed.

Lemma rfft_of_irfft_nth (Y : list C) (k : nat) :
  (k <= 1024)%nat ->
  rfft_bin (map (irfft_sample Y block_size) (seq 0 block_size)) k
  = (fst (nth k Y Czero),
     if (k =? 0)%nat || (k =? 1024)%nat then 0 else snd (nth k Y Czero)).
Proof.
  intros Hk. rewrite block_size_double.
  rewrite (surjective_pairing (rfft_bin _ k)).
  rewrite (rfft_irfft_re 1024) by lia.
  rewrite (rfft_irfft_im 1024) by lia.
  reflexivity.
Qed.

End Bandpass.

Section BandpassClaims.
Local Open Scope R_scope.
Import Np.

Lemma py_le_fin (a b : R) : py_le (Fin a) (Fin b) = true <-> a <= b.
Proof. simpl. destruct (Rle_dec a b); split; intros; auto; discriminate. Qed.

Lemma py_lt_fin (a b : R) : py_lt (Fin a) (Fin b) = true <-> a < b.
Proof. simpl. destruct (Rlt_dec a b); split; intros; auto; discriminate. Qed.

Lemma in_band_true (f low high : R) :
  low <= f <= high -> py_ge (Fin f) (Fin low) && py_le (Fin f) (Fin high) = true.
Proof.
  intros [H1 H2]. apply andb_true_iff. split; [unfold py_ge|]; now apply py_le_fin.
Qed.

Lemma out_of_band_false (f low high : R) :
  f < low \/ high < f -> py_ge (Fin f) (Fin low) && py_le (Fin f) (Fin high) = false.
Proof.
  intros H. apply andb_false_iff. unfold py_ge.
  destruct H as [H|H]; [left|right];
    apply not_true_is_false; rewrite py_le_fin; lra.
Qed.

Lemma windowed_nth (data : list R) (i : nat) :
  length data = block_size -> (i < block_size)%nat ->
  nth i (windowed data) 0 = nth i data 0 * nth i window 0.
Proof.
  intros Hlen Hi. unfold windowed.
  apply zip_with_nth; [rewrite Hlen|rewrite window_length]; exact Hi.
Qed.

Lemma blackman_nth (M i : nat) :
  (2 <= M)%nat -> (i < M)%nat ->
  nth i (blackman M) 0
  = 0.42 + 0.5 * cos (PI * IZR (1 - Z.of_nat M + 2 * Z.of_nat i) / INR (M - 1))
    + 0.08 * cos (2 * PI * IZR (1 - Z.of_nat M + 2 * Z.of_nat i) / INR (M - 1)).
Proof.
  intros HM Hi. destruct M as [|[|M]]; try lia.
  unfold blackman. now rewrite nth_map_seq by exact Hi.
Qed.

(** The Blackman window starts at zero. *)
Lemma window_first : nth 0 window 0 = 0.
Proof.
  unfold window. rewrite blackman_nth by (unfold block_size; lia).
  replace (IZR (1 - Z.of_nat block_size + 2 * Z.of_nat 0)) with (-2047)
    by reflexivity.
  replace (INR (block_size - 1)) with 2047
    by (rewrite INR_IZR_INZ; reflexivity).
  replace (PI * -2047 / 2047) with (- PI) by field.
  replace (2 * PI * -2047 / 2047) with (- (2 * PI)) by field.
  rewrite !cos_neg, cos_PI, cos_2PI. lra.
Qed.

End BandpassClaims.

Section BandpassTheorems.
Local Open Scope R_scope.
Import Np.

(** C9.  On every block of [block_size] samples and for every pair of
    cutoffs, [apply_bandpass] returns (it does not raise) and what it returns
    has exactly [block_size] samples. *)
Theorem apply_bandpass_length (sr0 : nat) (data : list R) (low high : pyfloat) :
  length data = block_size ->
  exists out, apply_bandpass sr0 data low high = Ok out
              /\ length out = block_size.
Proof.
  intros Hlen. eexists. split.
  - apply apply_bandpass_full. exact Hlen.
  - now rewrite length_map, length_seq.
Qed.

Lemma apply_bandpass_length_witness :
  length (repeat 0 block_size) = block_size
  /\ exists out, apply_bandpass 44100 (repeat 0 block_size) (Fin 100) (Fin 1000) = Ok out
                 /\ length out = block_size.
Proof.
  split.
  - apply repeat_length.
  - apply (apply_bandpass_length 44100 (repeat 0 block_size) (Fin 100) (Fin 1000)).
    apply repeat_length.
Defined.

(** C2.  On a block of [block_size] samples [apply_bandpass] multiplies the
    block elementwise by the window, takes the forward transform [X] of the
    product, inverts the spectrum [Y] that is zero at the bins [k] with
    [freqs[k] < low] or [freqs[k] > high] and equal to [X] at the bins with
    [low <= freqs[k] <= high]; the forward transform [Z] of the signal it
    returns is zero at every bin out of the band. *)
Theorem apply_bandpass_masks_out_of_band
        (sr0 : nat) (data : list R) (low high : R) :
  length data = block_size ->
  exists (xw : list R) (X Y : list C) (out : list R) (Z : list C),
    mul data window = Ok xw
    /\ (forall i, (i < block_size)%nat ->
                  nth i xw 0 = nth i data 0 * nth i window 0)
    /\ rfft xw = Ok X
    /\ length X = (block_size / 2 + 1)%nat
    /\ length Y = (block_size / 2 + 1)%nat
    /\ (forall k, (k < block_size / 2 + 1)%nat ->
          (nth k (freqs sr0) 0 < low \/ high < nth k (freqs sr0) 0 ->
           nth k Y Czero = Czero)
          /\ (low <= nth k (freqs sr0) 0 <= high ->
              nth k Y Czero = nth k X Czero))
    /\ irfft Y = Ok out
    /\ apply_bandpass sr0 data (Fin low) (Fin high) = Ok out
    /\ rfft out = Ok Z
    /\ (forall k, (k < block_size / 2 + 1)%nat ->
          nth k (freqs sr0) 0 < low \/ high < nth k (freqs sr0) 0 ->
          nth k Z Czero = Czero).
Proof.
  intros Hlen.
  exists (windowed data),
         (map (rfft_bin (windowed data)) (seq 0 (block_size / 2 + 1))),
         (masked_spectrum sr0 data (Fin low) (Fin high)),
         (map (irfft_sample (masked_spectrum sr0 data (Fin low) (Fin high)) block_size)
              (seq 0 block_size)),
         (map (rfft_bin
                 (map (irfft_sample (masked_spectrum sr0 data (Fin low) (Fin high))
                                    block_size)
                      (seq 0 block_size)))
              (seq 0 (block_size / 2 + 1))).
  assert (Hmask : forall k, (k < block_size / 2 + 1)%nat ->
            nth k (freqs sr0) 0 < low \/ high < nth k (freqs sr0) 0 ->
            nth k (masked_spectrum sr0 data (Fin low) (Fin high)) Czero = Czero).
  { intros k Hk Hout. rewrite block_size_half in Hk.
    rewrite masked_spectrum_nth, band_mask_nth by lia.
    now rewrite out_of_band_false. }
  split. { apply mul_same_length. now rewrite window_length. }
  split. { intros i Hi. now apply windowed_nth. }
  split. { rewrite rfft_nonempty; rewrite windowed_length by exact Hlen;
             [reflexivity|exact block_size_nonzero]. }
  split. { now rewrite length_map, length_seq. }
  split. { apply masked_spectrum_length. }
  split.
  { intros k Hk. split; [now apply Hmask|].
    intros Hin. rewrite block_size_half in Hk.
    rewrite masked_spectrum_nth, band_mask_nth by lia.
    rewrite in_band_true by exact Hin.
    now rewrite nth_map_seq by (rewrite block_size_half; lia). }
  split. { unfold irfft. rewrite masked_spectrum_length. reflexivity. }
  split. { now apply apply_bandpass_full. }
  split. { apply rfft_of_irfft. }
  intros k Hk Hout. rewrite nth_map_seq by exact Hk.
  rewrite block_size_half in Hk.
  rewrite rfft_of_irfft_nth by lia.
  rewrite (Hmask k) by (try rewrite block_size_half; try lia; exact Hout).
  simpl. now destruct ((k =? 0)%nat || (k =? 1024)%nat).
Qed.

Lemma apply_bandpass_masks_out_of_band_witness :
  length (repeat 0 block_size) = block_size
  /\ exists out, apply_bandpass 44100 (repeat 0 block_size) (Fin 100) (Fin 1000) = Ok out.
Proof.
  split.
  - apply repeat_length.
  - destruct (apply_bandpass_masks_out_of_band 44100 (repeat 0 block_size) 100 1000
                (repeat_length 0 block_size))
      as (xw & X & Y & out & Z & _ & _ & _ & _ & _ & _ & _ & H & _).
    exists out. exact H.
Defined.

Lemma irfft_rfft_block (x : list R) :
  length x = block_size ->
  map (irfft_sample (map (rfft_bin x) (seq 0 (block_size / 2 + 1))) block_size)
      (seq 0 block_size) = x.
Proof.
  intros Hlen.
  apply (nth_ext _ _ 0 0).
  - now rewrite length_map, length_seq.
  - intros i Hi. rewrite length_map, length_seq in Hi.
    rewrite nth_map_seq by exact Hi.
    rewrite block_size_half. rewrite block_size_double in *.
    apply (irfft_rfft_sample 1024); [lia|exact Hlen|exact Hi].
Qed.

Lemma all_pass_mask (sr0 : nat) (low high : R) (k : nat) :
  (0 < sr0)%nat -> low <= 0 -> INR sr0 / 2 <= high ->
  (k < block_size / 2 + 1)%nat ->
  nth k (band_mask sr0 (Fin low) (Fin high)) false = true.
Proof.
  intros Hsr Hlow Hhigh Hk. rewrite block_size_half in Hk.
  rewrite band_mask_nth by lia.
  apply in_band_true.
  destruct (freqs_range sr0 k Hsr) as [H0 H1]; [lia|]. lra.
Qed.

Lemma all_pass_spectrum (sr0 : nat) (data : list R) (low high : R) :
  (0 < sr0)%nat -> low <= 0 -> INR sr0 / 2 <= high ->
  masked_spectrum sr0 data (Fin low) (Fin high)
  = map (rfft_bin (windowed data)) (seq 0 (block_size / 2 + 1)).
Proof.
  intros Hsr Hlow Hhigh.
  apply (nth_ext _ _ Czero Czero).
  - now rewrite masked_spectrum_length, length_map, length_seq.
  - intros k Hk. rewrite masked_spectrum_length in Hk.
    rewrite masked_spectrum_nth by (rewrite block_size_half in Hk; lia).
    rewrite all_pass_mask by assumption.
    now rewrite nth_map_seq by exact Hk.
Qed.

(** C10.  When the band keeps every bin ([low <= 0] and
    [sr / 2 <= high], the mask is true everywhere), [apply_bandpass] on a
    block of [block_size] samples returns the elementwise product of the
    block and the window: the inverse transform undoes the forward one, and
    the window is not divided out.  The window starts at zero, so a block
    whose first sample is not zero does not come back. *)
Theorem apply_bandpass_all_pass_returns_windowed
        (sr0 : nat) (data : list R) (low high : R) :
  (0 < sr0)%nat ->
  length data = block_size ->
  low <= 0 -> INR sr0 / 2 <= high ->
  (forall k, (k < block_size / 2 + 1)%nat ->
             nth k (map (fun f => py_ge (Fin f) (Fin low) && py_le (Fin f) (Fin high))
                        (freqs sr0)) false = true)
  /\ (exists (xw : list R) (X : list C),
        mul data window = Ok xw
        /\ (forall i, (i < block_size)%nat ->
                      nth i xw 0 = nth i data 0 * nth i window 0)
        /\ rfft xw = Ok X
        /\ irfft X = Ok xw
        /\ apply_bandpass sr0 data (Fin low) (Fin high) = Ok xw)
  /\ nth 0 window 0 = 0
  /\ (nth 0 data 0 <> 0 ->
      apply_bandpass sr0 data (Fin low) (Fin high) <> Ok data).
Proof.
  intros Hsr Hlen Hlow Hhigh.
  assert (Hbp : apply_bandpass sr0 data (Fin low) (Fin high) = Ok (windowed data)).
  { rewrite apply_bandpass_full by exact Hlen.
    rewrite all_pass_spectrum by assumption.
    now rewrite irfft_rfft_block by (apply windowed_length; exact Hlen). }
  split. { intros k Hk. now apply all_pass_mask. }
  split.
  { exists (windowed data),
           (map (rfft_bin (windowed data)) (seq 0 (block_size / 2 + 1))).
    split. { apply mul_same_length. now rewrite window_length. }
    split. { intros i Hi. now apply windowed_nth. }
    split. { rewrite rfft_nonempty; rewrite windowed_length by exact Hlen;
               [reflexivity|exact block_size_nonzero]. }
    split; [|exact Hbp].
    unfold irfft. rewrite length_map, length_seq.
    replace (2 * (block_size / 2 + 1 - 1))%nat with block_size by reflexivity.
    replace (block_size =? 0)%nat with false by reflexivity.
    now rewrite irfft_rfft_block by (apply windowed_length; exact Hlen). }
  split. { exact window_first. }
  intros Hfirst Heq. rewrite Hbp in Heq. injection Heq as Heq.
  apply Hfirst.
  assert (E : nth 0 (windowed data) 0 = 0).
  { rewrite windowed_nth by (try exact Hlen; unfold block_size; lia).
    rewrite window_first. ring. }
  rewrite Heq in E. exact E.
Qed.

Lemma apply_bandpass_all_pass_returns_windowed_witness :
  (0 < 44100)%nat
  /\ length (repeat 1 block_size) = block_size
  /\ apply_bandpass 44100 (repeat 1 block_size) (Fin 0) (Fin 22050)
     <> Ok (repeat 1 block_size).
Proof.
  assert (H1 : (0 < 44100)%nat) by (apply Nat.ltb_lt; reflexivity).
  assert (H2 : 0 <= 0) by apply Rle_refl.
  assert (H3 : INR 44100 / 2 <= 22050).
  { rewrite INR_IZR_INZ.
    replace (Z.of_nat 44100) with 44100%Z by reflexivity. lra. }
  split; [exact H1|]. split; [apply repeat_length|].
  destruct (apply_bandpass_all_pass_returns_windowed
              44100 (repeat 1 block_size) 0 22050 H1 (repeat_length 1 block_size) H2 H3)
    as (_ & _ & _ & H).
  apply H. change (repeat 1 block_size) with (1 :: repeat 1 2047).
  cbn [nth]. lra.
Defined.

End BandpassTheorems.

(** ** The rolling buffers *)

Section DequeFacts.
Import Deque.
Context {A : Type}.

Lemma append_maxlen (d : deque A) (x : A) : maxlen (append d x) = maxlen d.
Proof. reflexivity. Qed.

Lemma extend_maxlen (d : deque A) (xs : list A) : maxlen (extend d xs) = maxlen d.
Proof.
  unfold extend. revert d. induction xs as [|x xs IH]; intros d; simpl; [reflexivity|].
  now rewrite IH.
Qed.

Lemma append_bounded (d : deque A) (x : A) :
  len d <= maxlen d -> len (append d x) <= maxlen (append d x).
Proof.
  unfold len, append. cbn [items maxlen]. intros H.
  rewrite length_app. cbn [length].
  destruct (maxlen d <? length (items d) + 1) eqn:E.
  - destruct (items d) as [|a l]; cbn [app tl length] in *; [lia|].
    rewrite length_app. cbn [length]. lia.
  - apply Nat.ltb_ge in E. rewrite length_app. cbn [length]. lia.
Qed.

Lemma extend_bounded (d : deque A) (xs : list A) :
  len d <= maxlen d -> len (extend d xs) <= maxlen (extend d xs).
Proof.
  unfold extend. revert d. induction xs as [|x xs IH]; intros d H; simpl; [exact H|].
  apply IH. now apply append_bounded.
Qed.

(** While there is room nothing is dropped. *)
Lemma append_room (d : deque A) (x : A) :
  len d < maxlen d -> items (append d x) = items d ++ [x].
Proof.
  unfold len, append. cbn [items]. intros H.
  rewrite length_app. cbn [length].
  replace (maxlen d <? length (items d) + 1) with false
    by (symmetry; apply Nat.ltb_ge; lia).
  reflexivity.
Qed.

Lemma extend_room (d : deque A) (xs : list A) :
  len d + length xs <= maxlen d -> items (extend d xs) = items d ++ xs.
Proof.
  unfold extend. revert d. induction xs as [|x xs IH]; intros d H; simpl.
  - now rewrite app_nil_r.
  - simpl in H. rewrite IH.
    + rewrite append_room by lia. now rewrite <- app_assoc.
    + rewrite append_maxlen. unfold len. rewrite append_room by lia.
      rewrite length_app. simpl. unfold len in H. lia.
Qed.

End DequeFacts.

Lemma every4th_length (a : list R) : length (Np.every4th a) = (length a + 3) / 4.
Proof. unfold Np.every4th. now rewrite length_map, length_seq. Qed.

(** ** The callback *)

(** Reads the fields of a state built by the setters. *)
Ltac fields :=
  cbn [snd fst y sr time_buffer spectrum_buffer lowcut highcut filter_enabled
       stream paused audio_position lowcut_box highcut_box
       set_source set_time_buffer set_spectrum_buffer set_lowcut set_highcut
       set_filter_enabled set_stream set_paused set_audio_position
       set_lowcut_box set_highcut_box] in *.

Section Callback.

Variable sr0 : nat.

(** The chunk of a call and the spectrum in decibels the call computes. *)
Lemma callback_full_block (st : State) (outdata : list R) :
  paused st = false ->
  audio_position st + block_size <= length (y st) ->
  length outdata = block_size ->
  exists fc spectrum,
    length fc = block_size
    /\ (if filter_enabled st
        then apply_bandpass sr0
               (Np.slice (y st) (audio_position st) (audio_position st + block_size))
               (lowcut st) (highcut st) = Ok fc
        else fc = Np.slice (y st) (audio_position st) (audio_position st + block_size))
    /\ audio_callback sr0 outdata block_size st
       = (Ok fc,
          set_audio_position
            (set_spectrum_buffer
               (set_time_buffer st (Deque.extend (time_buffer st) (Np.every4th fc)))
               (Deque.append (spectrum_buffer st) spectrum))
            (audio_position st + block_size)).
Proof.
  intros Hp Hpos Hout.
  assert (Hlt : audio_position st < length (y st))
    by (pose proof block_size_nonzero; lia).
  assert (Hchunk : length (Np.slice (y st) (audio_position st)
                             (audio_position st + block_size)) = block_size)
    by (rewrite slice_length; lia).
  assert (Hfc : exists fc, length fc = block_size
            /\ (if filter_enabled st
                then apply_bandpass sr0
                       (Np.slice (y st) (audio_position st)
                          (audio_position st + block_size))
                       (lowcut st) (highcut st) = Ok fc
                else fc = Np.slice (y st) (audio_position st)
                            (audio_position st + block_size))).
  { destruct (filter_enabled st).
    - eexists. split; [|apply apply_bandpass_full; exact Hchunk].
      now rewrite length_map, length_seq.
    - eexists. split; [exact Hchunk|reflexivity]. }
  destruct Hfc as [fc [Hlen Hfc]].
  exists fc. eexists. split; [exact Hlen|]. split; [exact Hfc|].
  unfold audio_callback, bind, get.
  rewrite (playing_guard st Hp Hlt).
  replace (Nat.min (audio_position st + block_size) (length (y st)))
    with (audio_position st + block_size) by lia.
  rewrite Hchunk, Nat.eqb_refl.
  assert (Hfirst :
    (if filter_enabled st
     then lift (apply_bandpass sr0
                  (Np.slice (y st) (audio_position st)
                     (audio_position st + block_size))
                  (lowcut st) (highcut st))
     else ret (Np.slice (y st) (audio_position st)
                 (audio_position st + block_size))) st = (Ok fc, st)).
  { destruct (filter_enabled st); [now rewrite Hfc|now subst fc]. }
  rewrite Hfirst.
  unfold modify, lift, ret.
  rewrite mul_same_length by (now rewrite window_length).
  rewrite rfft_nonempty
    by (rewrite zip_with_length, window_length, Hlen, Nat.min_id;
        exact block_size_nonzero).
  unfold Np.assign_column. rewrite Hlen, Hout, Nat.eqb_refl.
  reflexivity.
Qed.

(** Whatever the call does, it touches the two buffers and the position
    only, and the buffers only through [extend] and [append]. *)
Lemma callback_effects (st : State) (outdata : list R) (frames : nat) :
  let st' := snd (audio_callback sr0 outdata frames st) in
  y st' = y st /\ sr st' = sr st
  /\ lowcut st' = lowcut st /\ highcut st' = highcut st
  /\ filter_enabled st' = filter_enabled st
  /\ stream st' = stream st /\ paused st' = paused st
  /\ (exists xs, time_buffer st' = Deque.extend (time_buffer st) xs)
  /\ (spectrum_buffer st' = spectrum_buffer st
      \/ exists s, spectrum_buffer st' = Deque.append (spectrum_buffer st) s).
Proof.
  assert (Hnil : time_buffer st = Deque.extend (time_buffer st) []) by reflexivity.
  unfold audio_callback, bind, get, modify, lift, ret.
  destruct (paused st || (length (y st) <=? audio_position st));
    [fields; repeat split; eauto|].
  destruct (length _ =? block_size); [|fields; repeat split; eauto].
  destruct (filter_enabled st) eqn:Hf.
  - destruct (apply_bandpass sr0 _ (lowcut st) (highcut st)) as [fc|e];
      [|fields; repeat split; eauto].
    destruct (Np.mul fc window) as [xw|e]; [|fields; repeat split; eauto].
    destruct (Np.rfft xw) as [X|e]; [|fields; repeat split; eauto].
    destruct (Np.assign_column outdata fc) as [out|e];
      fields; repeat split; eauto.
  - destruct (Np.mul _ window) as [xw|e]; [|fields; repeat split; eauto].
    destruct (Np.rfft xw) as [X|e]; [|fields; repeat split; eauto].
    destruct (Np.assign_column outdata _) as [out|e];
      fields; repeat split; eauto.
Qed.

(** Nothing to play: the buffer is zeroed and nothing else happens. *)
Lemma callback_idle (st : State) (outdata : list R) (frames : nat) :
  paused st = true \/ length (y st) <= audio_position st ->
  length outdata = frames ->
  audio_callback sr0 outdata frames st = (Ok (repeat 0%R frames), st).
Proof.
  intros Hidle Hout. unfold audio_callback, bind, get.
  replace (paused st || (length (y st) <=? audio_position st)) with true.
  - unfold ret. now rewrite fill_repeat, Hout.
  - symmetry. apply orb_true_iff.
    destruct Hidle as [H|H]; [left; exact H|right; apply Nat.leb_le; exact H].
Qed.

(** C7.  When the engine is paused, or the position is at or past the end
    of the samples (as it is for an empty source), the callback writes as
    many zeros as frames were requested, does not raise, and leaves the
    position and both buffers (the whole state) as they were. *)
Theorem callback_silence (st : State) (outdata : list R) (frames : nat) :
  paused st = true \/ length (y st) <= audio_position st ->
  length outdata = frames ->
  audio_callback sr0 outdata frames st = (Ok (repeat 0%R frames), st).
Proof. exact (callback_idle st outdata frames). Qed.

(** C1 (the code does otherwise).  While playing, a chunk of fewer than
    [block_size] samples makes the callback raise [UnboundLocalError]:
    nothing is written to [outdata], the buffers and the position keep their
    values, whether the filter is enabled or not. *)
Theorem callback_short_chunk_raises (st : State) (outdata : list R) (frames : nat) :
  paused st = false ->
  audio_position st < length (y st) ->
  0 < length (Np.slice (y st) (audio_position st)
                (Nat.min (audio_position st + frames) (length (y st))))
    < block_size ->
  audio_callback sr0 outdata frames st = (Raise UnboundLocalError, st).
Proof.
  intros Hp Hpos Hlen. rewrite (chunk_length st frames Hpos) in Hlen.
  apply callback_unbound; [exact Hp|exact Hpos|lia].
Qed.

End Callback.

Section Playback.

Variable sr0 : nat.

Lemma callback_silence_witness :
  length (y (start_stream (initial_state 44100 []))) <= 0
  /\ audio_callback 44100 [1; 1; 1]%R 3 (start_stream (initial_state 44100 []))
     = (Ok [0; 0; 0]%R, start_stream (initial_state 44100 [])).
Proof.
  split.
  - apply le_n.
  - apply (callback_silence 44100 (start_stream (initial_state 44100 []))
             [1; 1; 1]%R 3).
    + right. apply le_n.
    + reflexivity.
Defined.

Lemma callback_short_chunk_raises_witness :
  paused (start_stream (initial_state 44100 (repeat 0%R 1000))) = false
  /\ audio_callback 44100 (repeat 0%R 2048) 2048
       (start_stream (initial_state 44100 (repeat 0%R 1000)))
     = (Raise UnboundLocalError,
        start_stream (initial_state 44100 (repeat 0%R 1000))).
Proof.
  split.
  - reflexivity.
  - apply (callback_short_chunk_raises 44100).
    + reflexivity.
    + apply Nat.ltb_lt. vm_compute. reflexivity.
    + split; apply Nat.ltb_lt; vm_compute; reflexivity.
Defined.

(** A call that changes nothing changes nothing when it is repeated. *)
Lemma callbacks_stuck (outdata : list R) (frames N : nat) (st : State) :
  snd (audio_callback sr0 outdata frames st) = st ->
  callbacks sr0 outdata frames N st = st.
Proof.
  intros H. induction N as [|N IH]; [reflexivity|].
  cbn [callbacks]. rewrite H. exact IH.
Qed.

Lemma callbacks_position_from (outdata : list R) (N k : nat) (st : State) :
  paused st = false ->
  length outdata = block_size ->
  audio_position st = k * block_size ->
  k <= length (y st) / block_size ->
  audio_position (callbacks sr0 outdata block_size N st)
  = Nat.min (k + N) (length (y st) / block_size) * block_size.
Proof.
  revert k st. induction N as [|N IH]; intros k st Hp Hout Hpos Hk.
  - cbn [callbacks]. rewrite Hpos, Nat.add_0_r. f_equal.
    symmetry. apply Nat.min_l. exact Hk.
  - cbn [callbacks].
    pose proof (Nat.div_mod_eq (length (y st)) block_size) as Hdm.
    pose proof (Nat.mod_upper_bound (length (y st)) block_size block_size_nonzero)
      as Hr.
    destruct (Nat.eq_dec k (length (y st) / block_size)) as [Hend|Hmore].
    + (* the last whole block is behind *)
      assert (Hstuck : snd (audio_callback sr0 outdata block_size st) = st).
      { destruct (Nat.eq_dec (length (y st) mod block_size) 0) as [H0|H0].
        - rewrite (callback_idle sr0 st outdata block_size); [reflexivity| |exact Hout].
          right. rewrite Hpos, Hend. unfold block_size in *. lia.
        - rewrite callback_unbound; [reflexivity|exact Hp| |].
          + rewrite Hpos, Hend. unfold block_size in *. lia.
          + rewrite Hpos, Hend. unfold block_size in *. lia. }
      rewrite Hstuck.
      rewrite (callbacks_stuck outdata block_size N st Hstuck).
      rewrite Hpos, Hend. f_equal. symmetry. apply Nat.min_r. lia.
    + destruct (callback_full_block sr0 st outdata) as (fc & sp & _ & _ & Hcb);
        [exact Hp| |exact Hout|].
      { rewrite Hpos. unfold block_size in *. lia. }
      rewrite Hcb. cbn [snd].
      rewrite (IH (S k)); fields; try assumption.
      * now replace (S k + N) with (k + S N) by lia.
      * rewrite Hpos. lia.
      * lia.
Qed.

(** C3 (the code does otherwise).  From position [0], while playing, [N]
    calls that each request [block_size] frames leave the position at
    [min(N, L / block_size) * block_size] for a source of [L] samples: the
    position advances by whole blocks only, and stays before a trailing
    chunk shorter than a block, where the call raises. *)
Theorem callbacks_position (outdata : list R) (N : nat) (st : State) :
  paused st = false ->
  length outdata = block_size ->
  audio_position st = 0 ->
  audio_position (callbacks sr0 outdata block_size N st)
  = Nat.min N (length (y st) / block_size) * block_size.
Proof.
  intros Hp Hout Hpos.
  apply (callbacks_position_from outdata N 0 st Hp Hout); [exact Hpos|lia].
Qed.

End Playback.

Lemma callbacks_position_witness :
  length (repeat 0%R block_size) = block_size
  /\ audio_position
       (callbacks 44100 (repeat 0%R block_size) block_size 2
          (start_stream (initial_state 44100 (repeat 0%R 3000)))) = 2048
  /\ Nat.min (2 * block_size) 3000 = 3000.
Proof.
  split; [apply repeat_length|]. split; [|reflexivity].
  exact (callbacks_position 44100 (repeat 0%R block_size) 2
           (start_stream (initial_state 44100 (repeat 0%R 3000)))
           eq_refl (repeat_length 0%R block_size) eq_refl).
Defined.

(** ** The cutoffs *)

Section Cutoffs.
Local Open Scope R_scope.

(** Splits on the comparisons of the goal, innermost first. *)
Ltac split_comparisons :=
  repeat match goal with
         | |- context [Rlt_dec ?a ?b] =>
             lazymatch a with
             | context [Rle_dec] => fail
             | context [Rlt_dec] => fail
             | _ => lazymatch b with
                    | context [Rle_dec] => fail
                    | context [Rlt_dec] => fail
                    | _ => destruct (Rlt_dec a b)
                    end
             end
         | |- context [Rle_dec ?a ?b] =>
             lazymatch a with
             | context [Rle_dec] => fail
             | context [Rlt_dec] => fail
             | _ => lazymatch b with
                    | context [Rle_dec] => fail
                    | context [Rlt_dec] => fail
                    | _ => destruct (Rle_dec a b)
                    end
             end
         end.

Lemma clamp_eq (s : R) (v : pyfloat) :
  py_max (Fin 20) (py_min (Fin s) v) = Fin (clamp_value s v).
Proof.
  destruct v as [r| | |]; unfold py_max, py_min, clamp_value, Rmax, Rmin;
    cbn [py_lt]; split_comparisons; cbn [py_lt]; split_comparisons;
    try reflexivity; f_equal; lra.
Qed.

Lemma clamp_value_range (s : R) (v : pyfloat) :
  20 <= clamp_value s v /\ (20 <= s -> clamp_value s v <= s).
Proof.
  destruct v as [r| | |]; unfold clamp_value, Rmax, Rmin;
    split_comparisons; lra.
Qed.

Lemma clamp_value_idem (s : R) (v : pyfloat) :
  clamp_value s (Fin (clamp_value s v)) = clamp_value s v.
Proof.
  destruct v as [r| | |]; unfold clamp_value, Rmax, Rmin;
    split_comparisons; lra.
Qed.

Lemma py_lt_irrefl (c : R) : py_lt (Fin c) (Fin c) = false.
Proof. cbn. destruct (Rlt_dec c c); [lra|reflexivity]. Qed.

End Cutoffs.

Lemma INR_44100 : INR 44100 = 44100%R.
Proof. rewrite INR_IZR_INZ. reflexivity. Qed.

Section CutoffEdits.
Local Open Scope R_scope.

Variable float_ : string -> option pyfloat.
Variable str_ : pyfloat -> string.

Lemma edited_refl (st : State) : edited st st.
Proof.
  exists (lowcut st), (highcut st), (lowcut_box st), (highcut_box st).
  split; [now destruct st|]. split; now left.
Qed.

Lemma edited_trans (st st1 st2 : State) :
  edited st st1 -> edited st1 st2 -> edited st st2.
Proof.
  intros (lc & hc & lb & hb & -> & Hl & Hh) (lc' & hc' & lb' & hb' & -> & Hl' & Hh').
  fields. exists lc', hc', lb', hb'. split; [reflexivity|]. split.
  - destruct Hl' as [-> | Hl']; [exact Hl|now right].
  - destruct Hh' as [-> | Hh']; [exact Hh|now right].
Qed.

Lemma edited_lowcut (st : State) (v : pyfloat) :
  edited st (set_lowcut st (Fin (clamp_value (INR (sr st) / 2) v))).
Proof.
  exists (Fin (clamp_value (INR (sr st) / 2) v)), (highcut st),
         (lowcut_box st), (highcut_box st).
  split; [reflexivity|]. split; [right; now exists v|now left].
Qed.

Lemma edited_highcut (st : State) (v : pyfloat) :
  edited st (set_highcut st (Fin (clamp_value (INR (sr st) / 2) v))).
Proof.
  exists (lowcut st), (Fin (clamp_value (INR (sr st) / 2) v)),
         (lowcut_box st), (highcut_box st).
  split; [reflexivity|]. split; [now left|right; now exists v].
Qed.

Lemma edited_lowcut_box (st : State) (text : string) :
  edited st (set_lowcut_box st text).
Proof.
  exists (lowcut st), (highcut st), text, (highcut_box st).
  split; [reflexivity|]. split; now left.
Qed.

Lemma edited_highcut_box (st : State) (text : string) :
  edited st (set_highcut_box st text).
Proof.
  exists (lowcut st), (highcut st), (lowcut_box st), text.
  split; [reflexivity|]. split; now left.
Qed.

(** Whatever the fuel and whatever [float] and [str] do, a handler that
    returns has changed the cutoffs and the texts of the boxes only, and has
    set a cutoff to clamped values only. *)
Lemma handlers_edited (fuel : nat) :
  (forall st st' text,
      update_lowcut float_ str_ fuel st text = Some st' -> edited st st')
  /\ (forall st st' text,
         update_highcut float_ str_ fuel st text = Some st' -> edited st st').
Proof.
  induction fuel as [|fuel [IHl IHh]]; [split; discriminate|].
  split; intros st st' text; cbn [update_lowcut update_highcut];
    (destruct (float_ text) as [v|]; [|intros [= <-]; apply edited_refl]);
    rewrite clamp_eq; fields.
  - destruct (py_lt (highcut st) _);
      [|intros [= <-]; apply edited_lowcut].
    destruct (String.eqb _ _); [intros [= <-]; apply edited_lowcut|].
    intros H. apply IHh in H.
    eapply edited_trans; [apply edited_lowcut|].
    eapply edited_trans; [apply edited_highcut_box|exact H].
  - destruct (py_lt _ (lowcut st));
      [|intros [= <-]; apply edited_highcut].
    destruct (String.eqb _ _); [intros [= <-]; apply edited_highcut|].
    intros H. apply IHl in H.
    eapply edited_trans; [apply edited_highcut|].
    eapply edited_trans; [apply edited_lowcut_box|exact H].
Qed.

(** The same for a text typed into a box and submitted. *)
Lemma lowcut_edit_edited (fuel : nat) (st st' : State) (text : string) :
  update_lowcut float_ str_ fuel (set_lowcut_box st text) text = Some st' ->
  edited st st'.
Proof.
  intros H. eapply edited_trans; [apply edited_lowcut_box|].
  exact (proj1 (handlers_edited fuel) _ _ _ H).
Qed.

Lemma highcut_edit_edited (fuel : nat) (st st' : State) (text : string) :
  update_highcut float_ str_ fuel (set_highcut_box st text) text = Some st' ->
  edited st st'.
Proof.
  intros H. eapply edited_trans; [apply edited_highcut_box|].
  exact (proj2 (handlers_edited fuel) _ _ _ H).
Qed.

(** What a handler does when [float] reads back what [str] writes for the
    clamped value: one nested submission at most. *)
Lemma update_lowcut_spec (fuel : nat) (st : State) (text : string) (v : pyfloat) :
  float_ text = Some v ->
  float_ (str_ (Fin (clamp_value (INR (sr st) / 2) v)))
  = Some (Fin (clamp_value (INR (sr st) / 2) v)) ->
  update_lowcut float_ str_ (S (S fuel)) st text
  = Some (if py_lt (highcut st) (Fin (clamp_value (INR (sr st) / 2) v))
          then if String.eqb (highcut_box st)
                    (str_ (Fin (clamp_value (INR (sr st) / 2) v)))
               then set_lowcut st (Fin (clamp_value (INR (sr st) / 2) v))
               else set_highcut
                      (set_highcut_box
                         (set_lowcut st (Fin (clamp_value (INR (sr st) / 2) v)))
                         (str_ (Fin (clamp_value (INR (sr st) / 2) v))))
                      (Fin (clamp_value (INR (sr st) / 2) v))
          else set_lowcut st (Fin (clamp_value (INR (sr st) / 2) v))).
Proof.
  intros Hv Hrt. cbn [update_lowcut]. rewrite Hv, clamp_eq. fields.
  destruct (py_lt (highcut st) _); [|reflexivity].
  destruct (String.eqb _ _); [reflexivity|].
  cbn [update_highcut]. rewrite Hrt, clamp_eq. fields.
  now rewrite clamp_value_idem, py_lt_irrefl.
Qed.

Lemma update_highcut_spec (fuel : nat) (st : State) (text : string) (v : pyfloat) :
  float_ text = Some v ->
  float_ (str_ (Fin (clamp_value (INR (sr st) / 2) v)))
  = Some (Fin (clamp_value (INR (sr st) / 2) v)) ->
  update_highcut float_ str_ (S (S fuel)) st text
  = Some (if py_lt (Fin (clamp_value (INR (sr st) / 2) v)) (lowcut st)
          then if String.eqb (lowcut_box st)
                    (str_ (Fin (clamp_value (INR (sr st) / 2) v)))
               then set_highcut st (Fin (clamp_value (INR (sr st) / 2) v))
               else set_lowcut
                      (set_lowcut_box
                         (set_highcut st (Fin (clamp_value (INR (sr st) / 2) v)))
                         (str_ (Fin (clamp_value (INR (sr st) / 2) v))))
                      (Fin (clamp_value (INR (sr st) / 2) v))
          else set_highcut st (Fin (clamp_value (INR (sr st) / 2) v))).
Proof.
  intros Hv Hrt. cbn [update_highcut]. rewrite Hv, clamp_eq. fields.
  destruct (py_lt _ (lowcut st)); [|reflexivity].
  destruct (String.eqb _ _); [reflexivity|].
  cbn [update_lowcut]. rewrite Hrt, clamp_eq. fields.
  now rewrite clamp_value_idem, py_lt_irrefl.
Qed.

(** An edit that needs no nested submission returns whatever the fuel. *)
Lemma update_lowcut_plain (fuel : nat) (st : State) (text : string) (v : pyfloat) :
  float_ text = Some v ->
  py_lt (highcut st) (Fin (clamp_value (INR (sr st) / 2) v)) = false
  \/ highcut_box st = str_ (Fin (clamp_value (INR (sr st) / 2) v)) ->
  update_lowcut float_ str_ (S fuel) st text
  = Some (set_lowcut st (Fin (clamp_value (INR (sr st) / 2) v))).
Proof.
  intros Hv H. cbn [update_lowcut]. rewrite Hv, clamp_eq. fields.
  destruct (py_lt (highcut st) _); [|reflexivity].
  destruct H as [H|H]; [discriminate|].
  now rewrite H, String.eqb_refl.
Qed.

Lemma update_highcut_plain (fuel : nat) (st : State) (text : string) (v : pyfloat) :
  float_ text = Some v ->
  py_lt (Fin (clamp_value (INR (sr st) / 2) v)) (lowcut st) = false
  \/ lowcut_box st = str_ (Fin (clamp_value (INR (sr st) / 2) v)) ->
  update_highcut float_ str_ (S fuel) st text
  = Some (set_highcut st (Fin (clamp_value (INR (sr st) / 2) v))).
Proof.
  intros Hv H. cbn [update_highcut]. rewrite Hv, clamp_eq. fields.
  destruct (py_lt _ (lowcut st)); [|reflexivity].
  destruct H as [H|H]; [discriminate|].
  now rewrite H, String.eqb_refl.
Qed.

End CutoffEdits.

(** The clamped values of the examples. *)
Lemma clamp_inside (s r : R) :
  (20 <= r <= s)%R -> clamp_value s (Fin r) = r.
Proof.
  intros H. unfold clamp_value. rewrite Rmin_right by lra. apply Rmax_right. lra.
Qed.

Lemma clamp_above (s r : R) :
  (20 <= s <= r)%R -> clamp_value s (Fin r) = s.
Proof.
  intros H. unfold clamp_value. rewrite Rmin_left by lra. apply Rmax_right. lra.
Qed.

Lemma INR_8000 : INR 8000 = 8000%R.
Proof. rewrite INR_IZR_INZ. reflexivity. Qed.

(** [str_decimal] on a whole number. *)
Lemma str_decimal_whole (n : Z) :
  str_decimal (Fin (IZR n))
  = (NilZero.string_of_int (Z.to_int n) ++ ".0")%string.
Proof.
  unfold str_decimal.
  replace (up (IZR n)) with (n + 1)%Z; [now replace (n + 1 - 1)%Z with n by lia|].
  apply tech_up; rewrite plus_IZR; lra.
Qed.

Lemma float_str_5000 : float_decimal (str_decimal (Fin 5000)) = Some (Fin 5000).
Proof. rewrite (str_decimal_whole 5000). reflexivity. Qed.

(** ** What the events preserve *)

Section Invariants.
Local Open Scope R_scope.

Variable float_ : string -> option pyfloat.
Variable str_ : pyfloat -> string.
Variable sr0 : nat.

Lemma steps_app (st st' st'' : State) (evs evs' : list event) :
  steps sr0 float_ str_ st evs st' -> steps sr0 float_ str_ st' evs' st'' ->
  steps sr0 float_ str_ st (evs ++ evs') st''.
Proof.
  intros H H'. induction H as [st|st ev st1 evs st2 Hstep Hsteps IH]; [exact H'|].
  simpl. eapply steps_cons; [exact Hstep|]. apply IH. exact H'.
Qed.

Lemma callbacks_steps (outdata : list R) (frames N : nat) (st : State) :
  steps sr0 float_ str_ st (repeat (EvCallback outdata frames) N)
        (callbacks sr0 outdata frames N st).
Proof.
  revert st. induction N as [|N IH]; intros st; [apply steps_nil|].
  simpl. eapply steps_cons; [|apply IH].
  eapply step_callback. apply surjective_pairing.
Qed.

(** *** The buffers *)

Lemma step_buffers_bounded (st st' : State) (ev : event) :
  step sr0 float_ str_ st ev st' ->
  buffers_bounded sr0 st -> buffers_bounded sr0 st'.
Proof.
  unfold buffers_bounded.
  intros Hstep (Hm & Hl & Hsm & Hsl).
  destruct Hstep as [st outdata frames r st' Hcb | st | st text fuel st' Hup
                    | st text fuel st' Hup | st | st | st o | st].
  - pose proof (callback_effects sr0 st outdata frames) as Heff.
    rewrite Hcb in Heff. cbn [snd] in Heff.
    destruct Heff as (_ & _ & _ & _ & _ & _ & _ & [xs Ht] & Hs).
    rewrite Ht, extend_maxlen.
    split; [exact Hm|]. split.
    { rewrite <- Hm, <- (extend_maxlen (time_buffer st) xs).
      apply extend_bounded. now rewrite Hm. }
    destruct Hs as [-> | [s ->]]; [now split|].
    rewrite append_maxlen. split; [exact Hsm|].
    rewrite <- Hsm, <- (append_maxlen (spectrum_buffer st) s).
    apply append_bounded. now rewrite Hsm.
  - now fields.
  - destruct (lowcut_edit_edited float_ str_ fuel st st' text Hup)
      as (lc & hc & lb & hb & -> & _ & _).
    fields. now repeat split.
  - destruct (highcut_edit_edited float_ str_ fuel st st' text Hup)
      as (lc & hc & lb & hb & -> & _ & _).
    fields. now repeat split.
  - unfold toggle_play, start_stream, stop_stream.
    destruct (paused st); [|destruct (stream st)]; fields; now repeat split.
  - unfold reset, Deque.clear, Deque.len. fields. cbn [Deque.items Deque.maxlen length].
    repeat split; try assumption; lia.
  - unfold change_file, stop_stream, reset, Deque.clear, Deque.len.
    destruct o; destruct (stream st); fields;
      cbn [Deque.items Deque.maxlen length]; repeat split; try assumption; lia.
  - unfold stop_stream. destruct (stream st); fields; now repeat split.
Qed.

Lemma steps_buffers_bounded (st st' : State) (evs : list event) :
  steps sr0 float_ str_ st evs st' ->
  buffers_bounded sr0 st -> buffers_bounded sr0 st'.
Proof.
  intros H. induction H as [st|st ev st1 evs st2 Hstep Hsteps IH]; [auto|].
  intros Hb. apply IH. exact (step_buffers_bounded st st1 ev Hstep Hb).
Qed.

Lemma initial_buffers_bounded (y0 : list R) :
  buffers_bounded sr0 (initial_state sr0 y0).
Proof.
  unfold buffers_bounded, initial_state, Deque.len, Deque.empty, display_samples.
  cbn. repeat split; lia.
Qed.

(** The buffers never hold more than the capacities chosen at start-up,
    from the rate [sr0] of the first file. *)
Lemma reachable_buffers_bounded (y0 : list R) (st : State) :
  reachable sr0 float_ str_ y0 st ->
  (Deque.len (time_buffer st) <= sr0 / 10)%nat
  /\ (Deque.len (spectrum_buffer st) <= 10)%nat.
Proof.
  intros (st0 & evs & Hrun & Hsteps).
  unfold run_visualizer in Hrun. destruct (sr0 =? 0)%nat; [discriminate|].
  injection Hrun as <-.
  destruct (steps_buffers_bounded _ _ _ Hsteps (initial_buffers_bounded y0))
    as (_ & H1 & _ & H2).
  now split.
Qed.

(** *** The cutoffs *)

Lemma edited_cutoffs_floor (st st' : State) :
  edited st st' -> cutoffs_floor st -> cutoffs_floor st'.
Proof.
  unfold cutoffs_floor.
  intros (lc & hc & lb & hb & -> & Hlc & Hhc) (l & h & Hl & Hh & Hl20 & Hh20).
  fields.
  assert (Hlc' : exists l', lc = Fin l' /\ 20 <= l').
  { destruct Hlc as [-> | [v ->]]; [now exists l|].
    eexists. split; [reflexivity|]. apply clamp_value_range. }
  assert (Hhc' : exists h', hc = Fin h' /\ 20 <= h').
  { destruct Hhc as [-> | [v ->]]; [now exists h|].
    eexists. split; [reflexivity|]. apply clamp_value_range. }
  destruct Hlc' as (l' & -> & Hl'), Hhc' as (h' & -> & Hh').
  now exists l', h'.
Qed.

Lemma edited_below_nyquist (st st' : State) :
  edited st st' -> cutoffs_floor st -> below_nyquist st -> below_nyquist st'.
Proof.
  unfold cutoffs_floor, below_nyquist.
  intros (lc & hc & lb & hb & -> & Hlc & Hhc) (l & h & Hl & Hh & Hl20 & Hh20)
         (l1 & h1 & Hl1 & Hh1 & Hln & Hhn).
  rewrite Hl in Hl1. rewrite Hh in Hh1. injection Hl1 as <-. injection Hh1 as <-.
  fields.
  assert (Hlc' : exists l', lc = Fin l' /\ l' <= INR (sr st) / 2).
  { destruct Hlc as [-> | [v ->]]; [now exists l|].
    eexists. split; [reflexivity|]. apply clamp_value_range. lra. }
  assert (Hhc' : exists h', hc = Fin h' /\ h' <= INR (sr st) / 2).
  { destruct Hhc as [-> | [v ->]]; [now exists h|].
    eexists. split; [reflexivity|]. apply clamp_value_range. lra. }
  destruct Hlc' as (l' & -> & Hl'), Hhc' as (h' & -> & Hh').
  now exists l', h'.
Qed.

Lemma step_cutoffs_floor (st st' : State) (ev : event) :
  step sr0 float_ str_ st ev st' -> cutoffs_floor st -> cutoffs_floor st'.
Proof.
  intros Hstep Hf.
  destruct Hstep as [st outdata frames r st' Hcb | st | st text fuel st' Hup
                    | st text fuel st' Hup | st | st | st o | st].
  - pose proof (callback_effects sr0 st outdata frames) as Heff.
    rewrite Hcb in Heff. cbn [snd] in Heff.
    destruct Heff as (_ & _ & Hl & Hh & _).
    unfold cutoffs_floor. now rewrite Hl, Hh.
  - exact Hf.
  - exact (edited_cutoffs_floor _ _ (lowcut_edit_edited float_ str_ _ _ _ _ Hup) Hf).
  - exact (edited_cutoffs_floor _ _ (highcut_edit_edited float_ str_ _ _ _ _ Hup) Hf).
  - unfold toggle_play, start_stream, stop_stream.
    destruct (paused st); [|destruct (stream st)]; exact Hf.
  - exact Hf.
  - unfold change_file, stop_stream, reset.
    destruct o; destruct (stream st); exact Hf.
  - unfold stop_stream. destruct (stream st); exact Hf.
Qed.

Lemma step_rate (st st' : State) (ev : event) :
  step sr0 float_ str_ st ev st' -> sr st' = rate_after st ev.
Proof.
  intros Hstep.
  destruct Hstep as [st outdata frames r st' Hcb | st | st text fuel st' Hup
                    | st text fuel st' Hup | st | st | st o | st];
    unfold rate_after.
  - pose proof (callback_effects sr0 st outdata frames) as Heff.
    rewrite Hcb in Heff. cbn [snd] in Heff. tauto.
  - reflexivity.
  - now destruct (lowcut_edit_edited float_ str_ fuel st st' text Hup)
      as (lc & hc & lb & hb & -> & _ & _).
  - now destruct (highcut_edit_edited float_ str_ fuel st st' text Hup)
      as (lc & hc & lb & hb & -> & _ & _).
  - unfold toggle_play, start_stream, stop_stream.
    destruct (paused st); [|destruct (stream st)]; reflexivity.
  - reflexivity.
  - unfold change_file, stop_stream, reset.
    destruct o; destruct (stream st); reflexivity.
  - unfold stop_stream. destruct (stream st); reflexivity.
Qed.

Lemma step_below_nyquist (st st' : State) (ev : event) :
  step sr0 float_ str_ st ev st' ->
  cutoffs_floor st -> below_nyquist st ->
  (sr st <= rate_after st ev)%nat ->
  below_nyquist st'.
Proof.
  intros Hstep Hf Hb Hrate.
  destruct Hstep as [st outdata frames r st' Hcb | st | st text fuel st' Hup
                    | st text fuel st' Hup | st | st | st o | st].
  - pose proof (callback_effects sr0 st outdata frames) as Heff.
    rewrite Hcb in Heff. cbn [snd] in Heff.
    destruct Heff as (_ & Hsr & Hl & Hh & _).
    unfold below_nyquist. now rewrite Hsr, Hl, Hh.
  - exact Hb.
  - exact (edited_below_nyquist _ _ (lowcut_edit_edited float_ str_ _ _ _ _ Hup) Hf Hb).
  - exact (edited_below_nyquist _ _ (highcut_edit_edited float_ str_ _ _ _ _ Hup) Hf Hb).
  - unfold toggle_play, start_stream, stop_stream.
    destruct (paused st); [|destruct (stream st)]; exact Hb.
  - exact Hb.
  - destruct Hb as (l & h & Hl & Hh & Hln & Hhn).
    unfold change_file, stop_stream, reset, below_nyquist.
    unfold rate_after in Hrate.
    destruct o as [| |y' sr']; destruct (stream st); fields;
      exists l, h; (split; [assumption|]); (split; [assumption|]);
      try (split; assumption);
      apply le_INR in Hrate; split; lra.
  - unfold stop_stream. destruct (stream st); exact Hb.
Qed.

Lemma steps_cutoffs_floor (st st' : State) (evs : list event) :
  steps sr0 float_ str_ st evs st' -> cutoffs_floor st -> cutoffs_floor st'.
Proof.
  intros H. induction H as [st|st ev st1 evs st2 Hstep Hsteps IH]; [auto|].
  intros Ho. apply IH. exact (step_cutoffs_floor st st1 ev Hstep Ho).
Qed.

Lemma steps_below_nyquist (st st' : State) (evs : list event) :
  steps sr0 float_ str_ st evs st' ->
  cutoffs_floor st -> below_nyquist st -> no_rate_drop (sr st) evs ->
  below_nyquist st'.
Proof.
  intros H. induction H as [st|st ev st1 evs st2 Hstep Hsteps IH]; [auto|].
  intros Ho Hb Hr.
  assert (Hrate : (sr st <= rate_after st ev)%nat
                  /\ no_rate_drop (rate_after st ev) evs).
  { destruct ev as [| | | | | |[| |y' sr']|]; cbn [no_rate_drop rate_after] in *;
      try (split; [apply le_n|exact Hr]). exact Hr. }
  destruct Hrate as [Hrate Hrest].
  apply IH.
  - exact (step_cutoffs_floor st st1 ev Hstep Ho).
  - exact (step_below_nyquist st st1 ev Hstep Ho Hb Hrate).
  - rewrite (step_rate st st1 ev Hstep). exact Hrest.
Qed.

(** C5 (amended).  At every reachable state the cutoffs are numbers of 20 Hz
    or more, and a source change leaves the filter configuration as it is.
    The bound [sr/2] for the rate of the current source is what an edit
    enforces on the cutoffs it sets, against the rate at the time of the
    edit: [low <= sr/2] and [high <= sr/2] hold at every reachable state
    when the first file has a rate of at least 2000 Hz and no file is loaded
    at a lower rate than the one it replaces.  This holds whatever [float]
    and [str] do. *)
Theorem cutoffs_invariant (y0 : list R) (st0 st : State) (evs : list event) :
  run_visualizer sr0 y0 = Ok st0 ->
  steps sr0 float_ str_ st0 evs st ->
  (exists l h : R,
      lowcut st = Fin l /\ highcut st = Fin h /\ 20 <= l /\ 20 <= h
      /\ ((2000 <= sr0)%nat -> no_rate_drop sr0 evs ->
          l <= INR (sr st) / 2 /\ h <= INR (sr st) / 2))
  /\ (forall o, lowcut (change_file st o) = lowcut st
                /\ highcut (change_file st o) = highcut st
                /\ filter_enabled (change_file st o) = filter_enabled st).
Proof.
  intros Hrun Hsteps.
  unfold run_visualizer in Hrun. destruct (sr0 =? 0)%nat; [discriminate|].
  injection Hrun as <-.
  assert (Ho : cutoffs_floor (initial_state sr0 y0)).
  { exists 100, 1000. cbn. repeat split; lra. }
  split.
  - destruct (steps_cutoffs_floor _ _ _ Hsteps Ho) as (l & h & Hl & Hh & Hl20 & Hh20).
    exists l, h. split; [exact Hl|]. split; [exact Hh|].
    split; [exact Hl20|]. split; [exact Hh20|].
    intros Hsr Hdrop.
    assert (Hb : below_nyquist (initial_state sr0 y0)).
    { exists 100, 1000. split; [reflexivity|]. split; [reflexivity|].
      cbn [sr initial_state].
      apply le_INR in Hsr.
      replace (INR 2000) with 2000 in Hsr by (rewrite INR_IZR_INZ; reflexivity).
      split; lra. }
    destruct (steps_below_nyquist _ _ _ Hsteps Ho Hb Hdrop)
      as (l' & h' & Hl' & Hh' & Hln & Hhn).
    rewrite Hl in Hl'. rewrite Hh in Hh'.
    injection Hl' as <-. injection Hh' as <-. now split.
  - intros o. unfold change_file, stop_stream, reset.
    destruct o; destruct (stream st); fields; now repeat split.
Qed.

End Invariants.

(** ** Source changes *)

Lemma highcut_edit_initial (y0 : list R) :
  update_highcut float_digits str_decimal 2
    (set_highcut_box (initial_state 44100 y0) "20000") "20000"
  = Some (set_highcut (set_highcut_box (initial_state 44100 y0) "20000")
            (Fin 20000)).
Proof.
  assert (Hc : clamp_value
                 (INR (sr (set_highcut_box (initial_state 44100 y0) "20000")) / 2)
                 (Fin 20000) = 20000%R).
  { cbn [sr initial_state set_highcut_box]. rewrite INR_44100.
    apply clamp_inside. lra. }
  rewrite (update_highcut_plain float_digits str_decimal 1 _ "20000" (Fin 20000)).
  - now rewrite Hc.
  - reflexivity.
  - left. rewrite Hc. cbn [lowcut initial_state set_highcut_box].
    apply not_true_iff_false. rewrite py_lt_fin. lra.
Qed.

Lemma run_visualizer_44100 (y0 : list R) :
  run_visualizer 44100 y0 = Ok (initial_state 44100 y0).
Proof. reflexivity. Qed.

Lemma cutoffs_invariant_witness :
  run_visualizer 44100 [] = Ok (initial_state 44100 [])
  /\ exists l h : R,
       lowcut (change_file
                 (set_highcut (set_highcut_box (initial_state 44100 []) "20000")
                    (Fin 20000))
                 (Loaded [] 48000)) = Fin l
       /\ highcut (change_file
                     (set_highcut (set_highcut_box (initial_state 44100 []) "20000")
                        (Fin 20000))
                     (Loaded [] 48000)) = Fin h
       /\ (20 <= l)%R /\ (20 <= h)%R
       /\ (l <= INR 48000 / 2)%R /\ (h <= INR 48000 / 2)%R.
Proof.
  split; [reflexivity|].
  assert (Hsteps : steps 44100 float_digits str_decimal (initial_state 44100 [])
                     [EvHighcut "20000"; EvChangeFile (Loaded [] 48000)]
                     (change_file
                        (set_highcut
                           (set_highcut_box (initial_state 44100 []) "20000")
                           (Fin 20000))
                        (Loaded [] 48000))).
  { eapply steps_cons.
    - eapply (step_highcut 44100 float_digits str_decimal _ "20000" 2).
      apply highcut_edit_initial.
    - eapply steps_cons; [apply step_change_file|apply steps_nil]. }
  destruct (cutoffs_invariant float_digits str_decimal 44100 [] _ _ _
              (run_visualizer_44100 []) Hsteps)
    as [(l & h & Hl & Hh & Hl20 & Hh20 & Hny) _].
  exists l, h. split; [exact Hl|]. split; [exact Hh|].
  split; [exact Hl20|]. split; [exact Hh20|].
  apply Hny.
  - apply Nat.leb_le. reflexivity.
  - cbn [no_rate_drop]. split; [apply Nat.leb_le; reflexivity|exact I].
Defined.

(** C5 as stated fails: after the upper cutoff has been set to 20000 Hz on a
    44100 Hz file, loading an 8000 Hz file leaves it at 20000 Hz, above the
    new Nyquist frequency of 4000 Hz.  (No text is shown by [str] in this
    run.) *)
Lemma cutoffs_above_nyquist_after_source_change :
  exists st,
    reachable 44100 float_digits str_decimal [] st
    /\ lowcut st = Fin 100
    /\ highcut st = Fin 20000
    /\ sr st = 8000
    /\ ~ (20000 <= INR (sr st) / 2)%R.
Proof.
  exists (change_file
            (set_highcut (set_highcut_box (initial_state 44100 []) "20000")
               (Fin 20000))
            (Loaded [] 8000)).
  split.
  { exists (initial_state 44100 []),
           [EvHighcut "20000"; EvChangeFile (Loaded [] 8000)].
    split; [reflexivity|].
    eapply steps_cons.
    - eapply (step_highcut 44100 float_digits str_decimal _ "20000" 2).
      apply highcut_edit_initial.
    - eapply steps_cons; [apply step_change_file|apply steps_nil]. }
  split; [reflexivity|]. split; [reflexivity|]. split; [reflexivity|].
  change (sr (change_file
                (set_highcut (set_highcut_box (initial_state 44100 []) "20000")
                   (Fin 20000))
                (Loaded [] 8000))) with 8000.
  rewrite INR_8000. lra.
Qed.

(** ** An edit after the rate has gone up *)

Section StaleText.
Local Open Scope R_scope.

Variable float_ : string -> option pyfloat.
Variable str_ : pyfloat -> string.

(** C6 (the code does otherwise).  On an 8000 Hz file the text that [str]
    writes for 5000.0 is submitted to the High Cut box: [high] becomes 4000,
    the box goes on showing the text.  A 44100 Hz file is loaded.  A text
    that [float] reads as 5000 is then submitted to the Low Cut box: [low]
    becomes 5000, above [high], and [highcut_box.set_val(str(lowcut))]
    returns at once because the box already shows that text.  The edit
    returns, whatever the fuel, with [low = 5000] and [high = 4000]. *)
Theorem lowcut_edit_leaves_highcut_below (y0 y1 : list R) (text : string) :
  float_ (str_ (Fin 5000)) = Some (Fin 5000) ->
  float_ text = Some (Fin 5000) ->
  exists st1 st2,
    steps 8000 float_ str_ (initial_state 8000 y0)
          [EvHighcut (str_ (Fin 5000)); EvChangeFile (Loaded y1 44100)] st1
    /\ sr st1 = 44100%nat /\ lowcut st1 = Fin 100 /\ highcut st1 = Fin 4000
    /\ (forall fuel,
           update_lowcut float_ str_ (S fuel) (set_lowcut_box st1 text) text
           = Some st2)
    /\ steps 8000 float_ str_ (initial_state 8000 y0)
             [EvHighcut (str_ (Fin 5000)); EvChangeFile (Loaded y1 44100);
              EvLowcut text] st2
    /\ sr st2 = 44100%nat /\ lowcut st2 = Fin 5000 /\ highcut st2 = Fin 4000.
Proof.
  intros Hrt Htext.
  set (st0 := set_highcut_box (initial_state 8000 y0) (str_ (Fin 5000))).
  assert (Hhigh : update_highcut float_ str_ 1 st0 (str_ (Fin 5000))
                  = Some (set_highcut st0 (Fin 4000))).
  { assert (Hc : clamp_value (INR (sr st0) / 2) (Fin 5000) = 4000).
    { unfold st0. cbn [sr initial_state set_highcut_box]. rewrite INR_8000.
      replace (8000 / 2) with 4000 by lra. apply clamp_above. lra. }
    rewrite (update_highcut_plain float_ str_ 0 st0 _ (Fin 5000) Hrt).
    - now rewrite Hc.
    - left. rewrite Hc. unfold st0. cbn [lowcut initial_state set_highcut_box].
      apply not_true_iff_false. rewrite py_lt_fin. lra. }
  set (st1 := change_file (set_highcut st0 (Fin 4000)) (Loaded y1 44100)).
  assert (Hlow : forall fuel,
             update_lowcut float_ str_ (S fuel) (set_lowcut_box st1 text) text
             = Some (set_lowcut (set_lowcut_box st1 text) (Fin 5000))).
  { intros fuel.
    assert (Hc : clamp_value (INR (sr (set_lowcut_box st1 text)) / 2) (Fin 5000)
                 = 5000).
    { change (sr (set_lowcut_box st1 text)) with 44100%nat. rewrite INR_44100.
      apply clamp_inside. lra. }
    rewrite (update_lowcut_plain float_ str_ fuel _ text (Fin 5000) Htext).
    - now rewrite Hc.
    - right. now rewrite Hc. }
  assert (Hsteps : steps 8000 float_ str_ (initial_state 8000 y0)
                     [EvHighcut (str_ (Fin 5000)); EvChangeFile (Loaded y1 44100)]
                     st1).
  { eapply steps_cons; [exact (step_highcut 8000 float_ str_ _ _ 1 _ Hhigh)|].
    eapply steps_cons; [apply step_change_file|apply steps_nil]. }
  exists st1, (set_lowcut (set_lowcut_box st1 text) (Fin 5000)).
  split; [exact Hsteps|]. split; [reflexivity|]. split; [reflexivity|].
  split; [reflexivity|]. split; [exact Hlow|].
  split; [|now repeat split].
  change [EvHighcut (str_ (Fin 5000)); EvChangeFile (Loaded y1 44100); EvLowcut text]
    with ([EvHighcut (str_ (Fin 5000)); EvChangeFile (Loaded y1 44100)]
            ++ [EvLowcut text]).
  apply (steps_app float_ str_ 8000 _ st1); [exact Hsteps|].
  eapply steps_cons; [exact (step_lowcut 8000 float_ str_ _ _ 1 _ (Hlow 0%nat))|].
  apply steps_nil.
Qed.

End StaleText.

Lemma lowcut_edit_leaves_highcut_below_witness :
  float_decimal (str_decimal (Fin 5000)) = Some (Fin 5000)
  /\ float_decimal "5000" = Some (Fin 5000)
  /\ exists st2,
       steps 8000 float_decimal str_decimal (initial_state 8000 [])
             [EvHighcut (str_decimal (Fin 5000)); EvChangeFile (Loaded [] 44100);
              EvLowcut "5000"] st2
       /\ lowcut st2 = Fin 5000 /\ highcut st2 = Fin 4000.
Proof.
  split; [exact float_str_5000|]. split; [reflexivity|].
  destruct (lowcut_edit_leaves_highcut_below float_decimal str_decimal [] [] "5000"
              float_str_5000 eq_refl)
    as (st1 & st2 & _ & _ & _ & _ & _ & Hsteps & _ & Hl & Hh).
  exists st2. now split.
Defined.

(** ** Stopping for a source change *)

(** C8.  While playing, [change_file] ends with the controller stopped (the
    stream closed, [paused] set) whatever the outcome of the load; the filter
    configuration is the one from before; when the load fails the source, the
    position and both buffers are kept, when it succeeds the new source is in
    place, the position is 0 and both buffers are empty. *)
Theorem change_file_while_playing (st : State) (o : load_outcome) :
  paused st = false ->
  stream st = Some Active ->
  paused (change_file st o) = true
  /\ stream (change_file st o) = Some Closed
  /\ lowcut (change_file st o) = lowcut st
  /\ highcut (change_file st o) = highcut st
  /\ filter_enabled (change_file st o) = filter_enabled st
  /\ match o with
     | Loaded y' sr' =>
         y (change_file st o) = y' /\ sr (change_file st o) = sr'
         /\ audio_position (change_file st o) = 0
         /\ Deque.len (time_buffer (change_file st o)) = 0
         /\ Deque.len (spectrum_buffer (change_file st o)) = 0
     | NoFile | LoadError =>
         y (change_file st o) = y st /\ sr (change_file st o) = sr st
         /\ audio_position (change_file st o) = audio_position st
         /\ time_buffer (change_file st o) = time_buffer st
         /\ spectrum_buffer (change_file st o) = spectrum_buffer st
     end.
Proof.
  intros Hp Hs. unfold change_file, stop_stream, reset. rewrite Hs.
  destruct o; fields; repeat split; reflexivity.
Qed.

Lemma change_file_while_playing_witness :
  paused (start_stream (initial_state 44100 [1; 1]%R)) = false
  /\ paused (change_file (start_stream (initial_state 44100 [1; 1]%R))
               (Loaded [0]%R 8000)) = true
  /\ y (change_file (start_stream (initial_state 44100 [1; 1]%R)) LoadError)
     = [1; 1]%R.
Proof.
  split; [reflexivity|].
  split.
  - apply (change_file_while_playing
             (start_stream (initial_state 44100 [1; 1]%R)) (Loaded [0]%R 8000)
             eq_refl eq_refl).
  - apply (change_file_while_playing
             (start_stream (initial_state 44100 [1; 1]%R)) LoadError
             eq_refl eq_refl).
Defined.

(** ** The capacity of the time buffer after a source change *)

(** A whole block, with room left in the time buffer, adds its 512 decimated
    samples. *)
Lemma full_block_grows (sr0 : nat) (st : State) (outdata : list R) :
  paused st = false ->
  audio_position st + block_size <= length (y st) ->
  length outdata = block_size ->
  Deque.len (time_buffer st) + 512 <= Deque.maxlen (time_buffer st) ->
  Deque.len (time_buffer (snd (audio_callback sr0 outdata block_size st)))
  = Deque.len (time_buffer st) + 512
  /\ Deque.maxlen (time_buffer (snd (audio_callback sr0 outdata block_size st)))
     = Deque.maxlen (time_buffer st)
  /\ audio_position (snd (audio_callback sr0 outdata block_size st))
     = audio_position st + block_size
  /\ paused (snd (audio_callback sr0 outdata block_size st)) = false
  /\ y (snd (audio_callback sr0 outdata block_size st)) = y st
  /\ sr (snd (audio_callback sr0 outdata block_size st)) = sr st.
Proof.
  intros Hp Hpos Hout Hroom.
  destruct (callback_full_block sr0 st outdata Hp Hpos Hout)
    as (fc & sp & Hlen & _ & Hcb).
  rewrite Hcb. fields.
  assert (H512 : length (Np.every4th fc) = 512)
    by (rewrite every4th_length, Hlen; reflexivity).
  split.
  - unfold Deque.len in *. rewrite extend_room by (unfold Deque.len; lia).
    rewrite length_app. lia.
  - split; [apply extend_maxlen|]. now repeat split.
Qed.

Lemma callbacks_succ (sr0 : nat) (outdata : list R) (frames N : nat) (st : State) :
  callbacks sr0 outdata frames (S N) st
  = callbacks sr0 outdata frames N (snd (audio_callback sr0 outdata frames st)).
Proof. reflexivity. Qed.

Lemma callbacks_zero (sr0 : nat) (outdata : list R) (frames : nat) (st : State) :
  callbacks sr0 outdata frames 0 st = st.
Proof. reflexivity. Qed.

(** Two whole blocks from the start of a source, into an empty time buffer
    of capacity 1024 or more. *)
Lemma two_blocks_fill (sr0 : nat) (st : State) (outdata : list R) :
  paused st = false ->
  audio_position st = 0 ->
  block_size + block_size <= length (y st) ->
  length outdata = block_size ->
  Deque.len (time_buffer st) = 0 ->
  1024 <= Deque.maxlen (time_buffer st) ->
  Deque.len (time_buffer (callbacks sr0 outdata block_size 2 st)) = 1024
  /\ sr (callbacks sr0 outdata block_size 2 st) = sr st.
Proof.
  intros Hp Hpos Hy Hout Hlen Hmax.
  rewrite !callbacks_succ, callbacks_zero.
  destruct (full_block_grows sr0 st outdata) as (L1 & M1 & P1 & Q1 & Y1 & S1);
    [exact Hp|lia|exact Hout|lia|].
  destruct (full_block_grows sr0 (snd (audio_callback sr0 outdata block_size st))
              outdata) as (L2 & M2 & P2 & Q2 & Y2 & S2);
    [exact Q1|rewrite Y1, P1; lia|exact Hout|rewrite M1, L1; lia|].
  rewrite L2, L1, S2, S1, Hlen. split; reflexivity.
Qed.

Lemma after_source_change_eq :
  after_source_change
  = mkState (repeat 0%R 4096) 8000 (Deque.mkDeque [] (44100 / 10))
            (Deque.mkDeque [] 10) (Fin 100) (Fin 1000) false
            (Some Active) false 0 "100" "1000".
Proof. reflexivity. Qed.

Lemma after_source_change_steps
      (float_ : string -> option pyfloat) (str_ : pyfloat -> string) :
  steps 44100 float_ str_ (initial_state 44100 [])
        [EvChangeFile (Loaded (repeat 0%R 4096) 8000); EvTogglePlay]
        after_source_change.
Proof.
  unfold after_source_change.
  apply (steps_cons 44100 float_ str_ _ _
           (change_file (initial_state 44100 []) (Loaded (repeat 0%R 4096) 8000)));
    [apply step_change_file|].
  apply (steps_cons 44100 float_ str_ _ _
           (toggle_play
              (change_file (initial_state 44100 []) (Loaded (repeat 0%R 4096) 8000))));
    [apply step_toggle_play|apply steps_nil].
Qed.

(** C4 (the code does otherwise).  The time buffer keeps the capacity it got
    from the first file: after a 44100 Hz file has been replaced by an 8000 Hz
    one, two blocks of playback put 1024 samples into it, more than a tenth
    of the rate of the current source. *)
Theorem time_buffer_exceeds_tenth_of_rate :
  reachable 44100 float_digits str_decimal [] after_two_blocks
  /\ sr after_two_blocks = 8000
  /\ Deque.len (time_buffer after_two_blocks) = 1024
  /\ 8000 / 10 = 800.
Proof.
  split.
  { exists (initial_state 44100 []),
           ([EvChangeFile (Loaded (repeat 0%R 4096) 8000); EvTogglePlay]
              ++ repeat (EvCallback (repeat 0%R block_size) block_size) 2).
    split; [reflexivity|].
    apply (steps_app float_digits str_decimal 44100 _ after_source_change).
    - apply after_source_change_steps.
    - exact (callbacks_steps float_digits str_decimal 44100 (repeat 0%R block_size)
               block_size 2 after_source_change). }
  destruct (two_blocks_fill 44100 after_source_change (repeat 0%R block_size))
    as [Hlen Hsr].
  - rewrite after_source_change_eq. reflexivity.
  - rewrite after_source_change_eq. reflexivity.
  - rewrite after_source_change_eq. cbn [y]. rewrite repeat_length.
    apply Nat.leb_le. reflexivity.
  - apply repeat_length.
  - rewrite after_source_change_eq. reflexivity.
  - rewrite after_source_change_eq. cbn [time_buffer Deque.maxlen].
    apply Nat.leb_le. reflexivity.
  - unfold after_two_blocks. rewrite Hlen, Hsr, after_source_change_eq.
    repeat split; reflexivity.
Qed.


(** ** The outcomes of a call *)

Section CallbackOutcomes.

Variable sr0 : nat.

(** What the [if] block of the callback computes on a whole block. *)
Lemma block_filtered (st : State) (chunk : list R) :
  length chunk = block_size ->
  exists fc, length fc = block_size
    /\ (if filter_enabled st
        then lift (apply_bandpass sr0 chunk (lowcut st) (highcut st))
        else ret chunk) st = (Ok fc, st)
    /\ (filter_enabled st = false -> fc = chunk)
    /\ (filter_enabled st = true ->
        apply_bandpass sr0 chunk (lowcut st) (highcut st) = Ok fc).
Proof.
  intros Hlen. destruct (filter_enabled st).
  - eexists. split; [|split; [unfold lift; rewrite apply_bandpass_full by exact Hlen;
                               reflexivity|split; [discriminate|]]].
    + now rewrite length_map, length_seq.
    + intros _. now apply apply_bandpass_full.
  - exists chunk. repeat split; auto. discriminate.
Qed.

Lemma spectrum_length (fc : list R) :
  length fc = block_size ->
  exists X, Np.rfft (Np.zip_with Rmult fc window) = Ok X
            /\ length X = block_size / 2 + 1.
Proof.
  intros Hlen. eexists. split.
  - apply rfft_nonempty.
    rewrite zip_with_length, window_length, Hlen, Nat.min_id.
    exact block_size_nonzero.
  - rewrite length_map, length_seq, zip_with_length, window_length, Hlen, Nat.min_id.
    reflexivity.
Qed.

(** A call of the callback has one of four outcomes; on a whole block the
    spectrum stored is that of the bins [X] of the windowed block written. *)
Lemma callback_cases_bins (st : State) (outdata : list R) (frames : nat) :
  (* nothing to play: silence *)
  ((paused st = true \/ length (y st) <= audio_position st)
   /\ audio_callback sr0 outdata frames st = (Ok (Np.fill outdata 0%R), st))
  \/
  (* a chunk that is not a whole block *)
  (paused st = false /\ audio_position st < length (y st)
   /\ Nat.min frames (length (y st) - audio_position st) <> block_size
   /\ audio_callback sr0 outdata frames st = (Raise UnboundLocalError, st))
  \/
  (* a whole block *)
  (paused st = false
   /\ audio_position st + block_size <= length (y st)
   /\ block_size <= frames
   /\ exists fc X,
        length fc = block_size
        /\ Np.rfft (Np.zip_with Rmult fc window) = Ok X
        /\ length X = block_size / 2 + 1
        /\ (filter_enabled st = false ->
            fc = Np.slice (y st) (audio_position st) (audio_position st + block_size))
        /\ (filter_enabled st = true ->
            apply_bandpass sr0
              (Np.slice (y st) (audio_position st) (audio_position st + block_size))
              (lowcut st) (highcut st) = Ok fc)
        /\ ((length outdata = block_size
             /\ audio_callback sr0 outdata frames st
                = (Ok fc,
                   set_audio_position
                     (set_spectrum_buffer
                        (set_time_buffer st
                           (Deque.extend (time_buffer st) (Np.every4th fc)))
                        (Deque.append (spectrum_buffer st)
                           (map (fun z => (20 * Np.log10 (Np.Cabs z + 1e-9))%R) X)))
                     (audio_position st + block_size)))
            \/ (length outdata <> block_size
                /\ audio_callback sr0 outdata frames st
                   = (Raise ValueError,
                      set_spectrum_buffer
                        (set_time_buffer st
                           (Deque.extend (time_buffer st) (Np.every4th fc)))
                        (Deque.append (spectrum_buffer st)
                           (map (fun z => (20 * Np.log10 (Np.Cabs z + 1e-9))%R) X)))))).
Proof.
  destruct (paused st) eqn:Hp.
  { left. split; [now left|]. unfold audio_callback, bind, get.
    replace (paused st || (length (y st) <=? audio_position st)) with true
      by (now rewrite Hp).
    reflexivity. }
  destruct (Nat.le_gt_cases (length (y st)) (audio_position st)) as [Hend|Hpos].
  { left. split; [now right|]. unfold audio_callback, bind, get.
    apply Nat.leb_le in Hend.
    replace (paused st || (length (y st) <=? audio_position st)) with true
      by (now rewrite Hend, orb_true_r).
    reflexivity. }
  right.
  destruct (Nat.eq_dec (Nat.min frames (length (y st) - audio_position st)) block_size)
    as [Hfull|Hshort].
  2:{ left. repeat split; try assumption. now apply callback_unbound. }
  right.
  assert (Hend : Nat.min (audio_position st + frames) (length (y st))
                 = audio_position st + block_size) by lia.
  split; [reflexivity|]. split; [lia|]. split; [lia|].
  assert (Hchunk : length (Np.slice (y st) (audio_position st)
                             (audio_position st + block_size)) = block_size)
    by (rewrite slice_length; lia).
  destruct (block_filtered st _ Hchunk) as (fc & Hlen & Hrun & Hoff & Hon).
  destruct (spectrum_length fc Hlen) as (X & HX & HXlen).
  exists fc, X.
  split; [exact Hlen|]. split; [exact HX|]. split; [exact HXlen|].
  split; [exact Hoff|]. split; [exact Hon|].
  unfold audio_callback, bind, get.
  rewrite (playing_guard st Hp Hpos), Hend, Hchunk, Nat.eqb_refl, Hrun.
  unfold modify, lift, ret.
  rewrite mul_same_length by (now rewrite window_length).
  rewrite HX. unfold Np.assign_column. rewrite Hlen.
  destruct (Nat.eq_dec (length outdata) block_size) as [Hout|Hout].
  - left. split; [exact Hout|]. now rewrite Hout, Nat.eqb_refl.
  - right. split; [exact Hout|].
    replace (block_size =? length outdata) with false
      by (symmetry; apply Nat.eqb_neq; auto).
    reflexivity.
Qed.

(** A call of the callback has one of four outcomes. *)
Lemma callback_cases (st : State) (outdata : list R) (frames : nat) :
  (* nothing to play: silence *)
  ((paused st = true \/ length (y st) <= audio_position st)
   /\ audio_callback sr0 outdata frames st = (Ok (Np.fill outdata 0%R), st))
  \/
  (* a chunk that is not a whole block *)
  (paused st = false /\ audio_position st < length (y st)
   /\ Nat.min frames (length (y st) - audio_position st) <> block_size
   /\ audio_callback sr0 outdata frames st = (Raise UnboundLocalError, st))
  \/
  (* a whole block *)
  (paused st = false
   /\ audio_position st + block_size <= length (y st)
   /\ block_size <= frames
   /\ exists fc spectrum,
        length fc = block_size
        /\ length spectrum = block_size / 2 + 1
        /\ (filter_enabled st = false ->
            fc = Np.slice (y st) (audio_position st) (audio_position st + block_size))
        /\ (filter_enabled st = true ->
            apply_bandpass sr0
              (Np.slice (y st) (audio_position st) (audio_position st + block_size))
              (lowcut st) (highcut st) = Ok fc)
        /\ ((length outdata = block_size
             /\ audio_callback sr0 outdata frames st
                = (Ok fc,
                   set_audio_position
                     (set_spectrum_buffer
                        (set_time_buffer st
                           (Deque.extend (time_buffer st) (Np.every4th fc)))
                        (Deque.append (spectrum_buffer st) spectrum))
                     (audio_position st + block_size)))
            \/ (length outdata <> block_size
                /\ audio_callback sr0 outdata frames st
                   = (Raise ValueError,
                      set_spectrum_buffer
                        (set_time_buffer st
                           (Deque.extend (time_buffer st) (Np.every4th fc)))
                        (Deque.append (spectrum_buffer st) spectrum))))).
Proof.
  destruct (callback_cases_bins st outdata frames)
    as [H|[H|(Hp & Hpos & Hfr & fc & X & Hfc & _ & HX & Hoff & Hon & H)]];
    [now left|now right; left|].
  right. right. split; [exact Hp|]. split; [exact Hpos|]. split; [exact Hfr|].
  exists fc, (map (fun z => (20 * Np.log10 (Np.Cabs z + 1e-9))%R) X).
  split; [exact Hfc|]. split; [now rewrite length_map|].
  split; [exact Hoff|]. split; [exact Hon|]. exact H.
Qed.

End CallbackOutcomes.


(** ** Invariants of the reachable states *)

Lemma append_Forall {A : Type} (P : A -> Prop) (d : Deque.deque A) (x : A) :
  Forall P (Deque.items d) -> P x -> Forall P (Deque.items (Deque.append d x)).
Proof.
  intros Hd Hx. unfold Deque.append. cbn [Deque.items].
  assert (H : Forall P (Deque.items d ++ [x]))
    by (apply Forall_app; split; [exact Hd|now constructor]).
  destruct (Deque.maxlen d <? length (Deque.items d ++ [x])); [|exact H].
  destruct (Deque.items d ++ [x]) as [|a l]; [constructor|].
  cbn [tl]. now inversion H.
Qed.

Section WellFormed.

Variable sr0 : nat.
Variable float_ : string -> option pyfloat.
Variable str_ : pyfloat -> string.

Lemma initial_well_formed (y0 : list R) : well_formed (initial_state sr0 y0).
Proof.
  unfold well_formed, initial_state. cbn.
  split; [exists 0; reflexivity|]. split; [lia|]. split; [constructor|].
  split; discriminate.
Qed.

Lemma step_well_formed (st st' : State) (ev : event) :
  step sr0 float_ str_ st ev st' -> well_formed st -> well_formed st'.
Proof.
  unfold well_formed.
  intros Hstep ([k Hk] & Hle & Hsp & Hps).
  destruct Hstep as [st outdata frames r st' Hcb | st | st text fuel st' Hup
                    | st text fuel st' Hup | st | st | st o | st].
  - destruct (callback_cases sr0 st outdata frames)
      as [[_ H]|[(_ & _ & _ & H)|(Hp & Hpos & _ & fc & sp & Hfc & Hspl & _ & _ & H)]].
    + rewrite Hcb in H. injection H as _ <-. eauto.
    + rewrite Hcb in H. injection H as _ <-. eauto.
    + assert (Hsp' : Forall (fun s => length s = block_size / 2 + 1)
                       (Deque.items (Deque.append (spectrum_buffer st) sp)))
        by (now apply append_Forall).
      destruct H as [[_ H]|[_ H]]; rewrite Hcb in H; injection H as _ ->; fields.
      * split; [exists (S k); rewrite Hk; lia|].
        split; [exact Hpos|]. now split.
      * split; [now exists k|]. split; [exact Hle|]. now split.
  - fields. eauto.
  - destruct (lowcut_edit_edited float_ str_ fuel st st' text Hup)
      as (lc & hc & lb & hb & -> & _ & _).
    fields. eauto.
  - destruct (highcut_edit_edited float_ str_ fuel st st' text Hup)
      as (lc & hc & lb & hb & -> & _ & _).
    fields. eauto.
  - unfold toggle_play, start_stream, stop_stream.
    destruct (paused st) eqn:Hp; [|destruct (stream st) eqn:Hs]; fields.
    + repeat split; eauto.
    + repeat split; eauto; discriminate.
    + destruct Hps as [Hps _]. specialize (Hps eq_refl). discriminate.
  - unfold reset, Deque.clear. fields. cbn [Deque.items].
    split; [exists 0; reflexivity|]. split; [lia|]. split; [constructor|exact Hps].
  - unfold change_file, stop_stream, reset, Deque.clear.
    destruct o; destruct (stream st) eqn:Hs; fields; cbn [Deque.items];
      repeat split; eauto; try discriminate; try lia; try constructor;
      try (exists 0; reflexivity);
      try (intros H'; rewrite Hs in H'; discriminate).
  - unfold stop_stream. destruct (stream st) eqn:Hs; fields;
      repeat split; eauto; try discriminate;
      intros H'; rewrite Hs in H'; discriminate.
Qed.

Lemma steps_well_formed (st st' : State) (evs : list event) :
  steps sr0 float_ str_ st evs st' -> well_formed st -> well_formed st'.
Proof.
  intros H. induction H as [st|st ev st1 evs st2 Hstep Hsteps IH]; [auto|].
  intros Hw. apply IH. exact (step_well_formed st st1 ev Hstep Hw).
Qed.

Lemma reachable_well_formed (y0 : list R) (st : State) :
  reachable sr0 float_ str_ y0 st -> well_formed st.
Proof.
  intros (st0 & evs & Hrun & Hsteps).
  unfold run_visualizer in Hrun. destruct (sr0 =? 0); [discriminate|].
  injection Hrun as <-.
  exact (steps_well_formed _ _ _ Hsteps (initial_well_formed y0)).
Qed.

End WellFormed.


(** ** Runs of calls *)

Lemma slice_app {A : Type} (a : list A) (lo mid hi : nat) :
  lo <= mid -> mid <= hi ->
  Np.slice a lo mid ++ Np.slice a mid hi = Np.slice a lo hi.
Proof.
  intros H1 H2. unfold Np.slice.
  replace (hi - lo) with ((mid - lo) + (hi - mid)) by lia.
  replace (skipn mid a) with (skipn (mid - lo) (skipn lo a))
    by (rewrite skipn_skipn; f_equal; lia).
  generalize (skipn lo a) as l. generalize (mid - lo) as n. generalize (hi - mid) as m.
  intros m n. induction n as [|n IH]; intros l; [reflexivity|].
  destruct l as [|x l]; cbn [Nat.add firstn skipn app].
  - now rewrite firstn_nil.
  - now rewrite IH.
Qed.

Section Runs.

Variable sr0 : nat.

Lemma callback_log_length (outdata : list R) (frames N : nat) (st : State) :
  length (callback_log sr0 outdata frames N st) = N.
Proof.
  revert st. induction N as [|N IH]; intros st; cbn [callback_log length]; auto.
Qed.

(** A whole block with the filter off: the device gets the samples of the
    source. *)
Lemma callback_plain_block (st : State) (outdata : list R) :
  paused st = false ->
  filter_enabled st = false ->
  audio_position st + block_size <= length (y st) ->
  length outdata = block_size ->
  fst (audio_callback sr0 outdata block_size st)
  = Ok (Np.slice (y st) (audio_position st) (audio_position st + block_size))
  /\ paused (snd (audio_callback sr0 outdata block_size st)) = false
  /\ filter_enabled (snd (audio_callback sr0 outdata block_size st)) = false
  /\ y (snd (audio_callback sr0 outdata block_size st)) = y st
  /\ audio_position (snd (audio_callback sr0 outdata block_size st))
     = audio_position st + block_size.
Proof.
  intros Hp Hf Hpos Hout.
  destruct (callback_full_block sr0 st outdata Hp Hpos Hout)
    as (fc & sp & _ & Hfc & Hcb).
  rewrite Hf in Hfc. subst fc. rewrite Hcb. fields. now repeat split.
Qed.

Lemma playback_from (outdata : list R) (N : nat) (st : State) :
  paused st = false ->
  filter_enabled st = false ->
  length outdata = block_size ->
  audio_position st + N * block_size <= length (y st) ->
  concat (map written (callback_log sr0 outdata block_size N st))
  = Np.slice (y st) (audio_position st) (audio_position st + N * block_size).
Proof.
  revert st. induction N as [|N IH]; intros st Hp Hf Hout Hlen.
  - cbn [callback_log map concat]. unfold Np.slice.
    replace (audio_position st + 0 * block_size - audio_position st) with 0 by lia.
    reflexivity.
  - cbn [callback_log map concat].
    destruct (callback_plain_block st outdata Hp Hf) as (Hr & Hp' & Hf' & Hy & Hpos');
      [lia|exact Hout|].
    rewrite Hr. cbn [written].
    rewrite IH; [|exact Hp'|exact Hf'|exact Hout|rewrite Hy, Hpos'; lia].
    rewrite Hy, Hpos'.
    replace (audio_position st + block_size + N * block_size)
      with (audio_position st + S N * block_size) by lia.
    apply slice_app; lia.
Qed.

(** After the last whole block: silence for ever when the source ends there,
    [UnboundLocalError] for ever when a shorter chunk is left. *)
Lemma log_at_end (outdata : list R) (N : nat) (st : State) :
  paused st = false ->
  length outdata = block_size ->
  audio_position st = length (y st) / block_size * block_size ->
  callback_log sr0 outdata block_size N st
  = repeat (if length (y st) mod block_size =? 0
            then Ok (repeat 0%R block_size)
            else Raise UnboundLocalError) N.
Proof.
  intros Hp Hout Hpos.
  pose proof (Nat.div_mod_eq (length (y st)) block_size) as Hdm.
  pose proof (Nat.mod_upper_bound (length (y st)) block_size block_size_nonzero) as Hr.
  assert (Hcb : audio_callback sr0 outdata block_size st
                = (if length (y st) mod block_size =? 0
                   then Ok (repeat 0%R block_size)
                   else Raise UnboundLocalError, st)).
  { destruct (length (y st) mod block_size =? 0) eqn:E.
    - apply Nat.eqb_eq in E.
      apply callback_idle; [right; lia|exact Hout].
    - apply Nat.eqb_neq in E.
      apply callback_unbound; [exact Hp|lia|lia]. }
  induction N as [|N IH]; [reflexivity|].
  cbn [callback_log repeat]. rewrite Hcb. cbn [fst snd]. now rewrite IH.
Qed.

Lemma log_blocks (outdata : list R) (N k : nat) (st : State) :
  paused st = false ->
  length outdata = block_size ->
  audio_position st = k * block_size ->
  k <= length (y st) / block_size ->
  Forall (fun r => exists out, r = Ok out /\ length out = block_size)
         (firstn (length (y st) / block_size - k)
                 (callback_log sr0 outdata block_size N st))
  /\ skipn (length (y st) / block_size - k)
           (callback_log sr0 outdata block_size N st)
     = repeat (if length (y st) mod block_size =? 0
               then Ok (repeat 0%R block_size)
               else Raise UnboundLocalError)
              (N - (length (y st) / block_size - k)).
Proof.
  revert k st. induction N as [|N IH]; intros k st Hp Hout Hpos Hk.
  - cbn [callback_log]. rewrite firstn_nil, skipn_nil. split; [constructor|reflexivity].
  - pose proof (Nat.div_mod_eq (length (y st)) block_size) as Hdm.
    destruct (Nat.eq_dec k (length (y st) / block_size)) as [Hend|Hmore].
    + rewrite Hend, Nat.sub_diag, Nat.sub_0_r. cbn [firstn skipn].
      split; [constructor|].
      apply log_at_end; [exact Hp|exact Hout|now rewrite Hpos, Hend].
    + assert (Hroom : audio_position st + block_size <= length (y st)).
      { rewrite Hpos.
        assert (H : S k * block_size <= length (y st) / block_size * block_size)
          by (apply Nat.mul_le_mono_r; lia).
        lia. }
      destruct (callback_full_block sr0 st outdata Hp Hroom Hout)
        as (fc & sp & Hfc & _ & Hcb).
      cbn [callback_log]. rewrite Hcb. cbn [fst snd].
      replace (length (y st) / block_size - k)
        with (S (length (y st) / block_size - S k)) by lia.
      cbn [firstn skipn].
      replace (S N - S (length (y st) / block_size - S k))
        with (N - (length (y st) / block_size - S k)) by lia.
      destruct (IH (S k)
                  (set_audio_position
                     (set_spectrum_buffer
                        (set_time_buffer st
                           (Deque.extend (time_buffer st) (Np.every4th fc)))
                        (Deque.append (spectrum_buffer st) sp))
                     (audio_position st + block_size)))
        as [IH1 IH2]; fields; try assumption; try lia.
      split; [|exact IH2].
      constructor; [|exact IH1]. exists fc. now split.
Qed.

End Runs.


Section Pause.

Variable sr0 : nat.

Lemma paused_run (outdata : list R) (frames N : nat) (st : State) :
  paused st = true ->
  callback_log sr0 outdata frames N st = repeat (Ok (Np.fill outdata 0%R)) N
  /\ callbacks sr0 outdata frames N st = st.
Proof.
  intros Hp.
  assert (Hcb : audio_callback sr0 outdata frames st = (Ok (Np.fill outdata 0%R), st)).
  { unfold audio_callback, bind, get.
    replace (paused st || (length (y st) <=? audio_position st)) with true
      by (now rewrite Hp).
    reflexivity. }
  induction N as [|N [IH1 IH2]]; [now split|].
  cbn [callback_log callbacks repeat]. rewrite Hcb. cbn [fst snd].
  now rewrite IH1, IH2.
Qed.

Lemma stop_stream_paused (st : State) : paused (stop_stream st) = true.
Proof. unfold stop_stream. now destruct (stream st). Qed.

Lemma change_file_paused (st : State) (o : load_outcome) :
  paused (change_file st o) = true.
Proof. unfold change_file, stop_stream, reset. now destruct o; destruct (stream st). Qed.

End Pause.

(** ** The ring buffers keep what came last *)

Section Ring.

Context {A : Type}.

Lemma lastn_all (n : nat) (l : list A) : length l <= n -> lastn n l = l.
Proof.
  intros H. unfold lastn. now replace (length l - n) with 0 by lia.
Qed.

Lemma lastn_length (n : nat) (l : list A) : length (lastn n l) = Nat.min n (length l).
Proof. unfold lastn. rewrite length_skipn. lia. Qed.

Lemma lastn_snoc (n : nat) (l : list A) (x : A) :
  lastn n (lastn n l ++ [x]) = lastn n (l ++ [x]).
Proof.
  unfold lastn. rewrite !length_app, length_skipn. cbn [length].
  destruct (Nat.eq_dec n 0) as [->|Hn].
  { rewrite !skipn_all2; [reflexivity| |]; rewrite length_app; cbn [length];
      rewrite ?length_skipn; lia. }
  destruct (Nat.le_gt_cases (length l) n) as [H|H].
  - replace (length l - n) with 0 by lia. cbn [skipn].
    now replace (length l - 0 + 1 - n) with (length l + 1 - n) by lia.
  - replace (length l - (length l - n) + 1 - n) with 1 by lia.
    replace (length l + 1 - n) with (S (length l - n)) by lia.
    rewrite !skipn_app, length_skipn, skipn_skipn.
    replace (1 - (length l - (length l - n))) with 0 by lia.
    replace (S (length l - n) - length l) with 0 by lia.
    reflexivity.
Qed.

Lemma append_lastn (d : Deque.deque A) (x : A) :
  Deque.len d <= Deque.maxlen d ->
  Deque.items (Deque.append d x) = lastn (Deque.maxlen d) (Deque.items d ++ [x]).
Proof.
  unfold Deque.len, Deque.append, lastn. cbn [Deque.items]. intros H.
  rewrite length_app. cbn [length].
  destruct (Deque.maxlen d <? length (Deque.items d) + 1) eqn:E.
  - apply Nat.ltb_lt in E.
    replace (length (Deque.items d) + 1 - Deque.maxlen d) with 1 by lia.
    now destruct (Deque.items d ++ [x]).
  - apply Nat.ltb_ge in E.
    now replace (length (Deque.items d) + 1 - Deque.maxlen d) with 0 by lia.
Qed.

Lemma extend_lastn (d : Deque.deque A) (xs : list A) :
  Deque.len d <= Deque.maxlen d ->
  Deque.items (Deque.extend d xs) = lastn (Deque.maxlen d) (Deque.items d ++ xs).
Proof.
  unfold Deque.extend. revert d. induction xs as [|x xs IH]; intros d H.
  - cbn [fold_left]. rewrite app_nil_r. symmetry. apply lastn_all. exact H.
  - cbn [fold_left]. rewrite IH by (now apply append_bounded).
    rewrite append_maxlen, append_lastn by exact H.
    replace (Deque.items d ++ x :: xs) with ((Deque.items d ++ [x]) ++ xs)
      by (now rewrite <- app_assoc).
    generalize (Deque.items d ++ [x]) as l. generalize (Deque.maxlen d) as n.
    clear. intros n l. revert l.
    induction xs as [|z xs IH] using rev_ind; intros l.
    + rewrite !app_nil_r. unfold lastn at 1. rewrite lastn_length.
      replace (Nat.min n (length l) - n) with 0 by lia. reflexivity.
    + rewrite !app_assoc, <- lastn_snoc, IH, lastn_snoc. reflexivity.
Qed.

End Ring.


(** ** More on [apply_bandpass] *)

Section BandpassMore.
Local Open Scope R_scope.
Import Np.

Variable sr0 : nat.

(** *** A band that holds no frequency *)

Lemma empty_band_mask (low high : pyfloat) (f : R) :
  py_lt high low = true \/ low = NaN \/ high = NaN ->
  py_ge (Fin f) low && py_le (Fin f) high = false.
Proof.
  unfold py_ge.
  intros [H|[-> | ->]].
  - destruct low as [l| | |], high as [h| | |]; cbn in *; try discriminate;
      try reflexivity;
      repeat match goal with
             | H : context [Rlt_dec ?a ?b] |- _ => destruct (Rlt_dec a b)
             | |- context [Rle_dec ?a ?b] => destruct (Rle_dec a b)
             end; cbn; try reflexivity; try discriminate; try lra.
    all: try (apply andb_false_r).
  - reflexivity.
  - destruct low; cbn; try reflexivity; try (apply andb_false_r).
Qed.

Lemma masked_spectrum_overflow (data : list R) (low high : pyfloat) (k : nat) :
  (1024 < k)%nat -> nth k (masked_spectrum sr0 data low high) Czero = Czero.
Proof.
  intros Hk. apply nth_overflow.
  rewrite masked_spectrum_length, block_size_half. lia.
Qed.

Lemma irfft_sample_zero (X : list C) (n j : nat) :
  (forall k, nth k X Czero = Czero) -> irfft_sample X n j = 0.
Proof.
  intros HX. unfold irfft_sample.
  rewrite (Rsum_ext _ _ (fun _ => 0))
    by (intros i _; rewrite HX; cbn [fst snd Czero]; ring).
  rewrite Rsum_zero, !HX. cbn [fst Czero]. unfold Rdiv. ring.
Qed.

Lemma apply_bandpass_empty (data : list R) (low high : pyfloat) :
  length data = block_size ->
  py_lt high low = true \/ low = NaN \/ high = NaN ->
  apply_bandpass sr0 data low high = Ok (repeat 0 block_size).
Proof.
  intros Hlen Hband. rewrite apply_bandpass_full by exact Hlen. f_equal.
  apply (nth_ext _ _ 0 0).
  - now rewrite length_map, length_seq, repeat_length.
  - intros j Hj. rewrite length_map, length_seq in Hj.
    rewrite nth_map_seq by exact Hj.
    rewrite nth_repeat.
    apply irfft_sample_zero. intros k.
    destruct (Nat.le_gt_cases k 1024) as [Hk|Hk].
    + rewrite masked_spectrum_nth, band_mask_nth by exact Hk.
      now rewrite empty_band_mask.
    + now apply masked_spectrum_overflow.
Qed.

(** *** Blocks of another length *)

Lemma zip_with_repeat (v : R) (w : list R) :
  zip_with Rmult (repeat v (length w)) w = map (fun x => v * x) w.
Proof. induction w as [|x w IH]; cbn; [reflexivity|now rewrite IH]. Qed.

Lemma apply_bandpass_one_sample (v : R) (low high : pyfloat) :
  apply_bandpass sr0 [v] low high
  = apply_bandpass sr0 (repeat v block_size) low high.
Proof.
  unfold apply_bandpass.
  assert (E1 : mul [v] window = Ok (map (fun x => v * x) window)).
  { unfold mul. cbn [length hd]. rewrite window_length.
    replace (1 =? block_size)%nat with false by reflexivity.
    reflexivity. }
  assert (E2 : mul (repeat v block_size) window = Ok (map (fun x => v * x) window)).
  { rewrite mul_same_length by (now rewrite repeat_length, window_length).
    rewrite <- window_length, zip_with_repeat. reflexivity. }
  assert (E : mul [v] window = mul (repeat v block_size) window)
    by (now rewrite E1, E2).
  now rewrite E.
Qed.

Lemma apply_bandpass_bad_length (data : list R) (low high : pyfloat) :
  length data <> block_size -> length data <> 1%nat ->
  apply_bandpass sr0 data low high = Raise ValueError.
Proof.
  intros H1 H2. unfold apply_bandpass, mul. rewrite window_length.
  apply Nat.eqb_neq in H1, H2. rewrite H1, H2.
  replace (block_size =? 1)%nat with false by reflexivity.
  reflexivity.
Qed.

(** *** The bins inside the band *)

Lemma rfft_bin_edge_real (M : nat) (x : list R) (k : nat) :
  length x = (2 * M)%nat -> (0 < M)%nat -> k = O \/ k = M ->
  snd (rfft_bin x k) = 0.
Proof.
  intros Hlen HM Hk. unfold rfft_bin. cbn [snd]. rewrite Hlen.
  rewrite (Rsum_ext _ _ (fun _ => 0)); [rewrite Rsum_zero; ring|].
  intros m _. destruct Hk as [-> | ->].
  - rewrite (angle_zero M). rewrite sin_0. ring.
  - rewrite (angle_half M HM), sin_nat_PI. ring.
Qed.

Lemma pass_band_bin (data : list R) (low high : R) (k : nat) :
  length data = block_size ->
  (k <= 1024)%nat ->
  low <= nth k (freqs sr0) 0 <= high ->
  rfft_bin (map (irfft_sample (masked_spectrum sr0 data (Fin low) (Fin high))
                              block_size) (seq 0 block_size)) k
  = rfft_bin (windowed data) k.
Proof.
  intros Hlen Hk Hin.
  rewrite rfft_of_irfft_nth by exact Hk.
  rewrite masked_spectrum_nth, band_mask_nth by exact Hk.
  rewrite in_band_true by exact Hin.
  destruct ((k =? 0)%nat || (k =? 1024)%nat) eqn:E.
  - rewrite (surjective_pairing (rfft_bin (windowed data) k)) at 2. f_equal.
    symmetry. apply (rfft_bin_edge_real 1024).
    + now rewrite windowed_length.
    + lia.
    + apply orb_true_iff in E. destruct E as [E|E]; apply Nat.eqb_eq in E; auto.
  - symmetry. apply surjective_pairing.
Qed.

End BandpassMore.


(** *** Superposition *)

Section Superposition.
Local Open Scope R_scope.
Import Np.

Variable sr0 : nat.

Lemma combination_times (a b p q c : R) :
  (a * p + b * q) * c = a * (p * c) + b * (q * c).
Proof. ring. Qed.

Lemma combination_rotated (a b p q p' q' c s : R) :
  (a * p + b * q) * c - (a * p' + b * q') * s
  = a * (p * c - p' * s) + b * (q * c - q' * s).
Proof. ring. Qed.

Lemma combination_inverse (a b p0 q0 sp sq pm qm s n : R) :
  (a * p0 + b * q0 + 2 * (a * sp + b * sq) + (a * pm + b * qm) * s) / n
  = a * ((p0 + 2 * sp + pm * s) / n) + b * ((q0 + 2 * sq + qm * s) / n).
Proof. unfold Rdiv. ring. Qed.

Lemma combine_length (a b : R) (u v : list R) :
  length u = block_size -> length v = block_size ->
  length (combine a u b v) = block_size.
Proof.
  intros Hu Hv. unfold combine.
  rewrite zip_with_length, !length_map, Hu, Hv. apply Nat.min_id.
Qed.

Lemma combine_nth (a b : R) (u v : list R) (i : nat) :
  length u = block_size -> length v = block_size -> (i < block_size)%nat ->
  nth i (combine a u b v) 0 = a * nth i u 0 + b * nth i v 0.
Proof.
  intros Hu Hv Hi. unfold combine.
  rewrite (zip_with_nth _ _ _ i 0 0 0) by (rewrite length_map; lia).
  rewrite (nth_map_in (Rmult a) u i 0 0) by lia.
  now rewrite (nth_map_in (Rmult b) v i 0 0) by lia.
Qed.

Lemma rfft_bin_fst (x : list R) (k : nat) :
  fst (rfft_bin x k)
  = Rsum (length x) (fun m => nth m x 0 * cos (angle (length x) m k)).
Proof. reflexivity. Qed.

Lemma rfft_bin_snd (x : list R) (k : nat) :
  snd (rfft_bin x k)
  = - Rsum (length x) (fun m => nth m x 0 * sin (angle (length x) m k)).
Proof. reflexivity. Qed.

Lemma windowed_combine_nth (a b : R) (u v : list R) (m : nat) :
  length u = block_size -> length v = block_size -> (m < block_size)%nat ->
  nth m (windowed (combine a u b v)) 0
  = a * nth m (windowed u) 0 + b * nth m (windowed v) 0.
Proof.
  intros Hu Hv Hm.
  rewrite !windowed_nth by (try apply combine_length; assumption).
  rewrite combine_nth by assumption.
  apply combination_times.
Qed.

Lemma rfft_bin_combine (a b : R) (u v : list R) (k : nat) :
  length u = block_size -> length v = block_size ->
  rfft_bin (windowed (combine a u b v)) k
  = (a * fst (rfft_bin (windowed u) k) + b * fst (rfft_bin (windowed v) k),
     a * snd (rfft_bin (windowed u) k) + b * snd (rfft_bin (windowed v) k)).
Proof.
  intros Hu Hv.
  rewrite (surjective_pairing (rfft_bin (windowed (combine a u b v)) k)).
  rewrite !rfft_bin_fst, !rfft_bin_snd.
  rewrite !windowed_length by (try apply combine_length; assumption).
  f_equal.
  - rewrite <- !Rsum_scal, <- Rsum_plus. apply Rsum_ext. intros m Hm.
    rewrite windowed_combine_nth by assumption.
    apply combination_times.
  - rewrite <- !Ropp_mult_distr_r, <- Ropp_plus_distr. f_equal.
    rewrite <- !Rsum_scal, <- Rsum_plus. apply Rsum_ext. intros m Hm.
    rewrite windowed_combine_nth by assumption.
    apply combination_times.
Qed.

Lemma masked_spectrum_combine (a b : R) (u v : list R) (low high : pyfloat) (k : nat) :
  length u = block_size -> length v = block_size ->
  nth k (masked_spectrum sr0 (combine a u b v) low high) Czero
  = (a * fst (nth k (masked_spectrum sr0 u low high) Czero)
     + b * fst (nth k (masked_spectrum sr0 v low high) Czero),
     a * snd (nth k (masked_spectrum sr0 u low high) Czero)
     + b * snd (nth k (masked_spectrum sr0 v low high) Czero)).
Proof.
  intros Hu Hv.
  destruct (Nat.le_gt_cases k 1024) as [Hk|Hk].
  - rewrite !masked_spectrum_nth by exact Hk.
    destruct (nth k (band_mask sr0 low high) false).
    + now apply rfft_bin_combine.
    + unfold Czero. cbn [fst snd]. f_equal; ring.
  - rewrite !(masked_spectrum_overflow sr0) by exact Hk.
    unfold Czero. cbn [fst snd]. f_equal; ring.
Qed.

Lemma apply_bandpass_combine (a b : R) (u v : list R) (low high : pyfloat) :
  length u = block_size -> length v = block_size ->
  exists ou ov,
    apply_bandpass sr0 u low high = Ok ou
    /\ apply_bandpass sr0 v low high = Ok ov
    /\ length ou = block_size /\ length ov = block_size
    /\ apply_bandpass sr0 (combine a u b v) low high = Ok (combine a ou b ov).
Proof.
  intros Hu Hv.
  exists (map (irfft_sample (masked_spectrum sr0 u low high) block_size)
              (seq 0 block_size)),
         (map (irfft_sample (masked_spectrum sr0 v low high) block_size)
              (seq 0 block_size)).
  split; [now apply apply_bandpass_full|].
  split; [now apply apply_bandpass_full|].
  split; [now rewrite length_map, length_seq|].
  split; [now rewrite length_map, length_seq|].
  rewrite apply_bandpass_full by (now apply combine_length). f_equal.
  apply (nth_ext _ _ 0 0).
  - rewrite length_map, length_seq, combine_length;
      [reflexivity| |]; now rewrite length_map, length_seq.
  - intros j Hj. rewrite length_map, length_seq in Hj.
    rewrite combine_nth; [| | |exact Hj]; try (now rewrite length_map, length_seq).
    rewrite !nth_map_seq by exact Hj.
    unfold irfft_sample.
    rewrite !(masked_spectrum_combine a b u v low high) by assumption.
    cbn [fst snd].
    rewrite (Rsum_ext _ _ (fun i =>
       a * (fst (nth (S i) (masked_spectrum sr0 u low high) Czero)
              * cos (angle block_size j (S i))
            - snd (nth (S i) (masked_spectrum sr0 u low high) Czero)
              * sin (angle block_size j (S i)))
       + b * (fst (nth (S i) (masked_spectrum sr0 v low high) Czero)
                * cos (angle block_size j (S i))
              - snd (nth (S i) (masked_spectrum sr0 v low high) Czero)
                * sin (angle block_size j (S i))))).
    + rewrite Rsum_plus, !Rsum_scal. apply combination_inverse.
    + intros i _. rewrite (masked_spectrum_combine a b u v low high) by assumption.
      cbn [fst snd]. apply combination_rotated.
Qed.

End Superposition.

(** *** The window *)

Section Window.
Local Open Scope R_scope.
Import Np.

Lemma window_formula (i : nat) :
  (i < block_size)%nat ->
  nth i window 0
  = 0.34 + 0.5 * cos (PI * IZR (2 * Z.of_nat i - 2047) / 2047)
    + 0.16 * (cos (PI * IZR (2 * Z.of_nat i - 2047) / 2047)
              * cos (PI * IZR (2 * Z.of_nat i - 2047) / 2047)).
Proof.
  intros Hi. unfold window. rewrite blackman_nth by (unfold block_size in *; lia).
  replace (INR (block_size - 1)) with 2047 by (rewrite INR_IZR_INZ; reflexivity).
  replace (1 - Z.of_nat block_size + 2 * Z.of_nat i)%Z
    with (2 * Z.of_nat i - 2047)%Z
    by (change (Z.of_nat block_size) with 2048%Z; lia).
  replace (2 * PI * IZR (2 * Z.of_nat i - 2047) / 2047)
    with (2 * (PI * IZR (2 * Z.of_nat i - 2047) / 2047)) by field.
  rewrite cos_2a_cos. lra.
Qed.

Lemma window_range (i : nat) :
  (i < block_size)%nat -> 0 <= nth i window 0 <= 1.
Proof.
  intros Hi. rewrite window_formula by exact Hi.
  pose proof (COS_bound (PI * IZR (2 * Z.of_nat i - 2047) / 2047)) as [H1 H2].
  split; nra.
Qed.

Variable sr0 : nat.

Lemma all_pass_output (data : list R) (low high : R) :
  (0 < sr0)%nat -> length data = block_size ->
  low <= 0 -> INR sr0 / 2 <= high ->
  apply_bandpass sr0 data (Fin low) (Fin high) = Ok (windowed data).
Proof.
  intros Hsr Hlen Hlow Hhigh.
  rewrite apply_bandpass_full by exact Hlen.
  rewrite all_pass_spectrum by assumption.
  now rewrite irfft_rfft_block by (apply windowed_length; exact Hlen).
Qed.

Lemma windowed_bounded (data : list R) (i : nat) :
  length data = block_size -> (i < block_size)%nat ->
  Rabs (nth i (windowed data) 0) <= Rabs (nth i data 0).
Proof.
  intros Hlen Hi. rewrite windowed_nth by assumption.
  rewrite Rabs_mult.
  destruct (window_range i Hi) as [H0 H1].
  rewrite (Rabs_pos_eq (nth i window 0)) by exact H0.
  pose proof (Rabs_pos (nth i data 0)). nra.
Qed.

End Window.


(** ** The animation callback *)

Section PlotFacts.
Local Open Scope R_scope.

Lemma linspace_length (start stop : R) (num : nat) :
  length (Plot.linspace start stop num) = num.
Proof.
  destruct num as [|[|num]]; try reflexivity.
  unfold Plot.linspace. now rewrite length_map, length_seq.
Qed.

Lemma linspace_nth (start stop : R) (num i : nat) :
  (2 <= num)%nat -> (i < num)%nat ->
  nth i (Plot.linspace start stop num) 0
  = start + INR i * ((stop - start) / INR (num - 1)).
Proof.
  intros Hn Hi. destruct num as [|[|num]]; try lia.
  unfold Plot.linspace. now rewrite nth_map_seq by exact Hi.
Qed.

Lemma select_map_filter {A : Type} (p : A -> bool) (a : list A) :
  Plot.select a (map p a) = filter p a.
Proof.
  induction a as [|x a IH]; [reflexivity|].
  cbn [map Plot.select filter]. rewrite IH. reflexivity.
Qed.

Lemma select_length {A B : Type} (a : list A) (b : list B) (m : list bool) :
  length a = length m -> length b = length m ->
  length (Plot.select a m) = length (Plot.select b m).
Proof.
  revert a b. induction m as [|c m IH]; intros [|x a] [|z b] Ha Hb;
    try discriminate; try reflexivity.
  cbn [Plot.select]. injection Ha as Ha. injection Hb as Hb.
  destruct c; cbn [length]; now rewrite (IH a b).
Qed.

Lemma amin_le (v : R) (vs : list R) : Plot.amin v vs <= v.
Proof.
  unfold Plot.amin. revert v. induction vs as [|x vs IH]; intros v; cbn [fold_left].
  - apply Rle_refl.
  - eapply Rle_trans; [apply IH|apply Rmin_l].
Qed.

Lemma amax_ge (v : R) (vs : list R) : v <= Plot.amax v vs.
Proof.
  unfold Plot.amax. revert v. induction vs as [|x vs IH]; intros v; cbn [fold_left].
  - apply Rle_refl.
  - eapply Rle_trans; [apply Rmax_l|apply IH].
Qed.

Lemma mean_axis0_rows (r : list R) (rs : list (list R)) (n : nat) :
  Forall (fun s => length s = n) (r :: rs) ->
  exists avg, Plot.mean_axis0 r rs = Ok avg /\ length avg = n.
Proof.
  intros H. inversion H as [|? ? Hr Hrs]; subst.
  unfold Plot.mean_axis0.
  replace (forallb (fun r' => length r' =? length r) rs) with true.
  - eexists. split; [reflexivity|]. now rewrite length_map, length_seq.
  - symmetry. apply forallb_forall. intros s Hs. apply Nat.eqb_eq.
    rewrite Forall_forall in Hrs. now apply Hrs.
Qed.

End PlotFacts.

Section Update.
Local Open Scope R_scope.

Variable sr0 : nat.
Variable float_ : string -> option pyfloat.
Variable str_ : pyfloat -> string.

Lemma update_paused (st : State) (art : Artists) :
  paused st = true -> update sr0 st art = (art, None).
Proof. intros H. unfold update. now rewrite H. Qed.

Lemma update_playing (y0 : list R) (st : State) (art : Artists) :
  reachable sr0 float_ str_ y0 st ->
  paused st = false ->
  (0 < sr st)%nat ->
  exists art',
    update sr0 st art = (art', None)
    /\ snd (time_line art') = Deque.items (time_buffer st)
    /\ fst (time_line art')
       = Plot.linspace 0 (INR (display_samples sr0) / INR (sr st))
                       (length (Deque.items (time_buffer st)))
    /\ length (fst (time_line art')) = length (snd (time_line art'))
    /\ (length (snd (time_line art')) <= sr0 / 10)%nat
    /\ match Deque.items (spectrum_buffer st) with
       | [] =>
           freq_line art' = freq_line art
           /\ selected_band art' = selected_band art
           /\ ylim art' = ylim art
       | _ :: _ =>
           fst (freq_line art') = freqs sr0
           /\ length (snd (freq_line art')) = (block_size / 2 + 1)%nat
           /\ length (fst (selected_band art')) = length (snd (selected_band art'))
           /\ (forall f, In f (fst (selected_band art')) ->
                         py_ge (Fin f) (lowcut st) && py_le (Fin f) (highcut st) = true)
           /\ (ylim art' = ylim art \/ fst (ylim art') + 10 <= snd (ylim art'))
       end.
Proof.
  intros Hreach Hp Hsr.
  destruct (reachable_buffers_bounded float_ str_ sr0 y0 st Hreach) as [Htb _].
  destruct (reachable_well_formed sr0 float_ str_ y0 st Hreach) as (_ & _ & Hsp & _).
  unfold update. rewrite Hp.
  replace (sr st =? 0)%nat with false by (symmetry; apply Nat.eqb_neq; lia).
  destruct (Deque.items (spectrum_buffer st)) as [|s rest] eqn:Hitems.
  { eexists. split; [reflexivity|]. cbn [time_line fst snd freq_line selected_band ylim].
    split; [reflexivity|]. split; [reflexivity|].
    split; [apply linspace_length|]. split; [exact Htb|].
    now repeat split. }
  destruct (mean_axis0_rows s rest _ Hsp) as (avg & Havg & Hlen).
  rewrite Havg.
  assert (Hm1 : forall p, Plot.index_mask (freqs sr0) (map p (freqs sr0))
                          = Ok (filter p (freqs sr0))).
  { intros p. unfold Plot.index_mask.
    now rewrite length_map, Nat.eqb_refl, select_map_filter. }
  assert (Hm2 : forall p, Plot.index_mask avg (map p (freqs sr0))
                          = Ok (Plot.select avg (map p (freqs sr0)))).
  { intros p. unfold Plot.index_mask.
    now rewrite length_map, freqs_length, Hlen, Nat.eqb_refl. }
  rewrite Hm1, !Hm2.
  assert (Hsel : length (filter (fun f => py_ge (Fin f) (lowcut st)
                                          && py_le (Fin f) (highcut st)) (freqs sr0))
                 = length (Plot.select avg
                             (map (fun f => py_ge (Fin f) (lowcut st)
                                            && py_le (Fin f) (highcut st)) (freqs sr0)))).
  { rewrite <- select_map_filter. apply select_length.
    - now rewrite length_map.
    - now rewrite length_map, freqs_length. }
  assert (Hband : forall f,
             In f (filter (fun f => py_ge (Fin f) (lowcut st)
                                    && py_le (Fin f) (highcut st)) (freqs sr0)) ->
             py_ge (Fin f) (lowcut st) && py_le (Fin f) (highcut st) = true).
  { intros f Hf. apply filter_In in Hf. apply Hf. }
  destruct (Plot.select avg
              (map (fun f => py_ge (Fin f) (Fin 20) && py_le (Fin f) (Fin 20000))
                   (freqs sr0))) as [|v vs].
  - eexists. split; [reflexivity|]. cbn [time_line fst snd freq_line selected_band ylim].
    split; [reflexivity|]. split; [reflexivity|].
    split; [apply linspace_length|]. split; [exact Htb|].
    split; [reflexivity|]. split; [exact Hlen|]. split; [exact Hsel|].
    split; [exact Hband|]. now left.
  - eexists. split; [reflexivity|]. cbn [time_line fst snd freq_line selected_band ylim].
    split; [reflexivity|]. split; [reflexivity|].
    split; [apply linspace_length|]. split; [exact Htb|].
    split; [reflexivity|]. split; [exact Hlen|]. split; [exact Hsel|].
    split; [exact Hband|]. right.
    pose proof (amin_le v vs). pose proof (amax_ge v vs). lra.
Qed.

End Update.


(** * Further properties of the code *)

Lemma reachable_after_play (y0 : list R) :
  reachable 44100 float_digits str_decimal y0 (toggle_play (initial_state 44100 y0)).
Proof.
  exists (initial_state 44100 y0), [EvTogglePlay]. split; [reflexivity|].
  eapply steps_cons; [apply step_toggle_play|apply steps_nil].
Qed.

Section ReachableStates.

Variable sr0 : nat.
Variable float_ : string -> option pyfloat.
Variable str_ : pyfloat -> string.

Lemma reachable_buffers (y0 : list R) (st : State) :
  reachable sr0 float_ str_ y0 st -> buffers_bounded sr0 st.
Proof.
  intros (st0 & evs & Hrun & Hsteps).
  unfold run_visualizer in Hrun. destruct (sr0 =? 0); [discriminate|].
  injection Hrun as <-.
  exact (steps_buffers_bounded float_ str_ sr0 _ _ _ Hsteps (initial_buffers_bounded sr0 y0)).
Qed.

(** X1.  A call of the callback has one of four outcomes: silence with the
    state unchanged (paused, or at the end of the source);
    [UnboundLocalError] with the state unchanged (the chunk is not a whole
    block); on a whole block, the block (filtered when the filter is on) is
    written, both buffers are fed and the position advances by [block_size],
    or, when [outdata] has another length than [block_size], [ValueError] is
    raised after both buffers have been fed, the position staying. *)
Theorem callback_outcomes (st : State) (outdata : list R) (frames : nat) :
  ((paused st = true \/ length (y st) <= audio_position st)
   /\ audio_callback sr0 outdata frames st = (Ok (Np.fill outdata 0%R), st))
  \/
  (paused st = false /\ audio_position st < length (y st)
   /\ Nat.min frames (length (y st) - audio_position st) <> block_size
   /\ audio_callback sr0 outdata frames st = (Raise UnboundLocalError, st))
  \/
  (paused st = false
   /\ audio_position st + block_size <= length (y st)
   /\ block_size <= frames
   /\ exists fc spectrum,
        length fc = block_size
        /\ length spectrum = block_size / 2 + 1
        /\ (filter_enabled st = false ->
            fc = Np.slice (y st) (audio_position st) (audio_position st + block_size))
        /\ (filter_enabled st = true ->
            apply_bandpass sr0
              (Np.slice (y st) (audio_position st) (audio_position st + block_size))
              (lowcut st) (highcut st) = Ok fc)
        /\ ((length outdata = block_size
             /\ audio_callback sr0 outdata frames st
                = (Ok fc,
                   set_audio_position
                     (set_spectrum_buffer
                        (set_time_buffer st
                           (Deque.extend (time_buffer st) (Np.every4th fc)))
                        (Deque.append (spectrum_buffer st) spectrum))
                     (audio_position st + block_size)))
            \/ (length outdata <> block_size
                /\ audio_callback sr0 outdata frames st
                   = (Raise ValueError,
                      set_spectrum_buffer
                        (set_time_buffer st
                           (Deque.extend (time_buffer st) (Np.every4th fc)))
                        (Deque.append (spectrum_buffer st) spectrum))))).
Proof. exact (callback_cases sr0 st outdata frames). Qed.

(** X2.  At every reachable state the position lies inside the source and
    is a whole number of blocks. *)
Theorem position_within_source (y0 : list R) (st : State) :
  reachable sr0 float_ str_ y0 st ->
  audio_position st <= length (y st)
  /\ exists k, audio_position st = k * block_size.
Proof.
  intros H. destruct (reachable_well_formed sr0 float_ str_ y0 st H) as (Hk & Hle & _).
  now split.
Qed.

(** X3.  At every reachable state every spectrum held by the spectrum buffer
    has one magnitude per frequency bin, [block_size / 2 + 1] of them. *)
Theorem stored_spectra_have_all_bins (y0 : list R) (st : State) :
  reachable sr0 float_ str_ y0 st ->
  Forall (fun s => length s = block_size / 2 + 1)
         (Deque.items (spectrum_buffer st)).
Proof.
  intros H. now destruct (reachable_well_formed sr0 float_ str_ y0 st H) as (_ & _ & Hsp & _).
Qed.

(** X4.  At every reachable state [paused] is false exactly when the stream
    opened by [start_stream] has not been closed by [stop_stream]; Play/Pause
    flips [paused] and leaves the stream open after a play, closed after a
    pause. *)
Theorem playing_iff_stream_open (y0 : list R) (st : State) :
  reachable sr0 float_ str_ y0 st ->
  (paused st = false <-> stream st = Some Active)
  /\ paused (toggle_play st) = negb (paused st)
  /\ stream (toggle_play st) = Some (if paused st then Active else Closed).
Proof.
  intros H. destruct (reachable_well_formed sr0 float_ str_ y0 st H) as (_ & _ & _ & Hps).
  split; [exact Hps|].
  unfold toggle_play, start_stream, stop_stream.
  destruct (paused st) eqn:Hp; [now split|].
  destruct Hps as [Hps _]. rewrite (Hps eq_refl). now split.
Qed.

(** X5.  At every reachable state the time buffer holds at most a tenth of
    the rate of the first file ([sr0 // 10] samples, its capacity) and the
    spectrum buffer at most 10 spectra. *)
Theorem buffers_within_capacity (y0 : list R) (st : State) :
  reachable sr0 float_ str_ y0 st ->
  Deque.maxlen (time_buffer st) = sr0 / 10
  /\ Deque.len (time_buffer st) <= sr0 / 10
  /\ Deque.maxlen (spectrum_buffer st) = 10
  /\ Deque.len (spectrum_buffer st) <= 10.
Proof. intros H. exact (reachable_buffers y0 st H). Qed.

(** X6.  At a reachable state, a call on a whole block that is given a buffer
    of [block_size] frames leaves in the time buffer the latest [sr0 // 10]
    of the samples it held followed by every fourth sample written to the
    device, and in the spectrum buffer the latest 10 of the spectra it held
    followed by the new one: the oldest entries go first. *)
Theorem buffers_keep_latest (y0 : list R) (st : State) (outdata : list R) :
  reachable sr0 float_ str_ y0 st ->
  paused st = false ->
  audio_position st + block_size <= length (y st) ->
  length outdata = block_size ->
  exists fc spectrum,
    fst (audio_callback sr0 outdata block_size st) = Ok fc
    /\ length spectrum = block_size / 2 + 1
    /\ Deque.items (time_buffer (snd (audio_callback sr0 outdata block_size st)))
       = lastn (sr0 / 10) (Deque.items (time_buffer st) ++ Np.every4th fc)
    /\ Deque.items (spectrum_buffer (snd (audio_callback sr0 outdata block_size st)))
       = lastn 10 (Deque.items (spectrum_buffer st) ++ [spectrum]).
Proof.
  intros Hreach Hp Hpos Hout.
  destruct (reachable_buffers y0 st Hreach) as (Hm & Hl & Hsm & Hsl).
  pose proof block_size_nonzero as Hbs.
  destruct (callback_cases sr0 st outdata block_size)
    as [[[H|H] _]|[(_ & _ & H & _)|(_ & _ & _ & fc & sp & _ & Hsp & _ & _ & H)]];
    [congruence|lia|lia|].
  destruct H as [[_ H]|[H _]]; [|contradiction].
  exists fc, sp. rewrite H. fields.
  split; [reflexivity|]. split; [exact Hsp|].
  rewrite extend_lastn by (rewrite Hm; exact Hl).
  rewrite append_lastn by (rewrite Hsm; exact Hsl).
  now rewrite Hm, Hsm.
Qed.

End ReachableStates.

Lemma position_within_source_witness :
  reachable 44100 float_digits str_decimal [1; 2; 3]%R (toggle_play (initial_state 44100 [1; 2; 3]%R))
  /\ audio_position (toggle_play (initial_state 44100 [1; 2; 3]%R))
     <= length (y (toggle_play (initial_state 44100 [1; 2; 3]%R))).
Proof.
  split; [apply reachable_after_play|].
  apply (position_within_source 44100 float_digits str_decimal [1; 2; 3]%R).
  apply reachable_after_play.
Defined.

Lemma stored_spectra_have_all_bins_witness :
  reachable 44100 float_digits str_decimal [] (toggle_play (initial_state 44100 []))
  /\ Forall (fun s => length s = block_size / 2 + 1)
            (Deque.items (spectrum_buffer (toggle_play (initial_state 44100 [])))).
Proof.
  split; [apply reachable_after_play|].
  apply (stored_spectra_have_all_bins 44100 float_digits str_decimal []).
  apply reachable_after_play.
Defined.

Lemma playing_iff_stream_open_witness :
  reachable 44100 float_digits str_decimal [] (toggle_play (initial_state 44100 []))
  /\ paused (toggle_play (toggle_play (initial_state 44100 []))) = true.
Proof.
  split; [apply reachable_after_play|].
  apply (playing_iff_stream_open 44100 float_digits str_decimal []
           (toggle_play (initial_state 44100 []))).
  apply reachable_after_play.
Defined.

Lemma buffers_within_capacity_witness :
  reachable 44100 float_digits str_decimal [] (toggle_play (initial_state 44100 []))
  /\ Deque.len (time_buffer (toggle_play (initial_state 44100 []))) <= 44100 / 10.
Proof.
  split; [apply reachable_after_play|].
  apply (buffers_within_capacity 44100 float_digits str_decimal []).
  apply reachable_after_play.
Defined.

Lemma buffers_keep_latest_witness :
  audio_position (toggle_play (initial_state 44100 (repeat 0%R block_size))) + block_size
  <= length (y (toggle_play (initial_state 44100 (repeat 0%R block_size))))
  /\ exists fc,
       fst (audio_callback 44100 (repeat 0%R block_size) block_size
              (toggle_play (initial_state 44100 (repeat 0%R block_size)))) = Ok fc.
Proof.
  assert (H : audio_position (toggle_play (initial_state 44100 (repeat 0%R block_size)))
              + block_size
              <= length (y (toggle_play (initial_state 44100 (repeat 0%R block_size))))).
  { change (0 + block_size <= length (repeat 0%R block_size)).
    rewrite repeat_length. apply le_n. }
  split; [exact H|].
  destruct (buffers_keep_latest 44100 float_digits str_decimal (repeat 0%R block_size)
              (toggle_play (initial_state 44100 (repeat 0%R block_size)))
              (repeat 0%R block_size)
              (reachable_after_play (repeat 0%R block_size))
              eq_refl H (repeat_length 0%R block_size))
    as (fc & sp & Hfc & _).
  exists fc. exact Hfc.
Defined.


Section PlaybackTheorems.

Variable sr0 : nat.

(** X7.  With the filter off, [N] calls on whole blocks give the device the
    samples of the source in order: the blocks written are
    [y[position : position + N * block_size]]. *)
Theorem unfiltered_playback_reproduces_source
        (outdata : list R) (N : nat) (st : State) :
  paused st = false ->
  filter_enabled st = false ->
  length outdata = block_size ->
  audio_position st + N * block_size <= length (y st) ->
  concat (map written (callback_log sr0 outdata block_size N st))
  = Np.slice (y st) (audio_position st) (audio_position st + N * block_size).
Proof. exact (playback_from sr0 outdata N st). Qed.

(** X8.  From position 0, while playing, of [N] calls for [block_size]
    frames the first [len(y) // block_size] return a block of [block_size]
    samples; every later one returns silence when the source is a whole
    number of blocks, and raises [UnboundLocalError] when it is not. *)
Theorem playback_log_shape (outdata : list R) (N : nat) (st : State) :
  paused st = false ->
  length outdata = block_size ->
  audio_position st = 0 ->
  Forall (fun r => exists out, r = Ok out /\ length out = block_size)
         (firstn (length (y st) / block_size)
                 (callback_log sr0 outdata block_size N st))
  /\ skipn (length (y st) / block_size)
           (callback_log sr0 outdata block_size N st)
     = repeat (if length (y st) mod block_size =? 0
               then Ok (repeat 0%R block_size)
               else Raise UnboundLocalError)
              (N - length (y st) / block_size).
Proof.
  intros Hp Hout Hpos.
  pose proof (log_blocks sr0 outdata N 0 st Hp Hout Hpos (Nat.le_0_l _)) as H.
  now rewrite Nat.sub_0_r in H.
Qed.

(** X9.  After [stop_stream], and after [change_file] whatever the load gave,
    every call of the callback returns silence and leaves the state as it
    is. *)
Theorem callbacks_after_stop_are_silent
        (outdata : list R) (frames N : nat) (st : State) (o : load_outcome) :
  (callback_log sr0 outdata frames N (stop_stream st)
   = repeat (Ok (Np.fill outdata 0%R)) N
   /\ callbacks sr0 outdata frames N (stop_stream st) = stop_stream st)
  /\ (callback_log sr0 outdata frames N (change_file st o)
      = repeat (Ok (Np.fill outdata 0%R)) N
      /\ callbacks sr0 outdata frames N (change_file st o) = change_file st o).
Proof.
  split; apply paused_run; [apply stop_stream_paused|apply change_file_paused].
Qed.

(** X10.  Reset rewinds: whatever the position was, [N] calls for
    [block_size] frames after [reset], while playing, leave the position at
    [min(N, len(y) // block_size) * block_size], and [reset] itself empties
    both buffers without changing their capacities. *)
Theorem reset_restarts_playback (outdata : list R) (N : nat) (st : State) :
  paused st = false ->
  length outdata = block_size ->
  audio_position (callbacks sr0 outdata block_size N (reset st))
  = Nat.min N (length (y st) / block_size) * block_size
  /\ Deque.items (time_buffer (reset st)) = []
  /\ Deque.items (spectrum_buffer (reset st)) = []
  /\ Deque.maxlen (time_buffer (reset st)) = Deque.maxlen (time_buffer st)
  /\ Deque.maxlen (spectrum_buffer (reset st)) = Deque.maxlen (spectrum_buffer st).
Proof.
  intros Hp Hout. split; [|now repeat split].
  apply (callbacks_position_from sr0 outdata N 0 (reset st));
    [exact Hp|exact Hout|reflexivity|apply Nat.le_0_l].
Qed.

End PlaybackTheorems.

Lemma unfiltered_playback_reproduces_source_witness :
  length (repeat 0%R block_size) = block_size
  /\ concat (map written
               (callback_log 44100 (repeat 0%R block_size) block_size 2
                  (toggle_play (initial_state 44100 (repeat 1%R 4096)))))
     = Np.slice (repeat 1%R 4096) 0 (0 + 2 * block_size).
Proof.
  split; [apply repeat_length|].
  apply (unfiltered_playback_reproduces_source 44100 (repeat 0%R block_size) 2
           (toggle_play (initial_state 44100 (repeat 1%R 4096)))
           eq_refl eq_refl (repeat_length 0%R block_size)).
  change (0 + 2 * block_size <= length (repeat 1%R 4096)).
  rewrite repeat_length. apply Nat.leb_le. reflexivity.
Defined.

Lemma playback_log_shape_witness :
  length (repeat 0%R block_size) = block_size
  /\ skipn (length (repeat 1%R 3000) / block_size)
           (callback_log 44100 (repeat 0%R block_size) block_size 3
              (toggle_play (initial_state 44100 (repeat 1%R 3000))))
     = repeat (if length (repeat 1%R 3000) mod block_size =? 0
               then Ok (repeat 0%R block_size)
               else Raise UnboundLocalError)
              (3 - length (repeat 1%R 3000) / block_size).
Proof.
  split; [apply repeat_length|].
  apply (playback_log_shape 44100 (repeat 0%R block_size) 3
           (toggle_play (initial_state 44100 (repeat 1%R 3000)))
           eq_refl (repeat_length 0%R block_size) eq_refl).
Defined.

Lemma reset_restarts_playback_witness :
  length (repeat 0%R block_size) = block_size
  /\ audio_position
       (callbacks 44100 (repeat 0%R block_size) block_size 1
          (reset (toggle_play (initial_state 44100 (repeat 1%R 3000)))))
     = Nat.min 1 (length (repeat 1%R 3000) / block_size) * block_size.
Proof.
  split; [apply repeat_length|].
  apply (reset_restarts_playback 44100 (repeat 0%R block_size) 1
           (toggle_play (initial_state 44100 (repeat 1%R 3000)))
           eq_refl (repeat_length 0%R block_size)).
Defined.

Section HandlerTheorems.
Local Open Scope R_scope.

Variable float_ : string -> option pyfloat.
Variable str_ : pyfloat -> string.

(** X11.  What a cutoff edit does, when [float] reads back what [str] writes
    for the clamped value and [20 <= sr/2].  The two text boxes do not call
    each other for ever: with fuel for one nested submission a handler
    returns, and what it returns does not depend on the fuel.  A text that
    [float] refuses changes nothing.  Otherwise the edited cutoff becomes [c],
    the value of [max(20, min(sr/2, v))], in [[20, sr/2]]; when that does not
    invert the order the other cutoff is kept; when it does, [set_val] shows
    [str(c)] in the other box and sets the other cutoff to [c] too, unless
    that box shows [str(c)] already: then nothing more is done and the other
    cutoff stays where it was. *)
Theorem cutoff_handlers_return (fuel : nat) (st : State) (text : string) :
  20 <= INR (sr st) / 2 ->
  (2 <= fuel)%nat ->
  (forall v, float_ text = Some v ->
             float_ (str_ (Fin (clamp_value (INR (sr st) / 2) v)))
             = Some (Fin (clamp_value (INR (sr st) / 2) v))) ->
  match float_ text with
  | None =>
      update_lowcut float_ str_ fuel st text = Some st
      /\ update_highcut float_ str_ fuel st text = Some st
  | Some v =>
      exists c : R,
        20 <= c <= INR (sr st) / 2
        /\ (forall r, v = Fin r -> c = Rmax 20 (Rmin (INR (sr st) / 2) r))
        /\ update_lowcut float_ str_ fuel st text
           = Some (if py_lt (highcut st) (Fin c)
                   then if String.eqb (highcut_box st) (str_ (Fin c))
                        then set_lowcut st (Fin c)
                        else set_highcut
                               (set_highcut_box (set_lowcut st (Fin c))
                                  (str_ (Fin c)))
                               (Fin c)
                   else set_lowcut st (Fin c))
        /\ update_highcut float_ str_ fuel st text
           = Some (if py_lt (Fin c) (lowcut st)
                   then if String.eqb (lowcut_box st) (str_ (Fin c))
                        then set_highcut st (Fin c)
                        else set_lowcut
                               (set_lowcut_box (set_highcut st (Fin c))
                                  (str_ (Fin c)))
                               (Fin c)
                   else set_highcut st (Fin c))
  end.
Proof.
  intros Hsr Hfuel Hrt. destruct fuel as [|[|fuel]]; try lia.
  destruct (float_ text) as [v|] eqn:Hv.
  - exists (clamp_value (INR (sr st) / 2) v).
    destruct (clamp_value_range (INR (sr st) / 2) v) as [H1 H2].
    split; [split; [exact H1|exact (H2 Hsr)]|].
    split; [now intros r ->|].
    split; [apply update_lowcut_spec|apply update_highcut_spec];
      auto.
  - cbn [update_lowcut update_highcut]. rewrite Hv. now split.
Qed.

(** X12.  Submitting the same text to a text box a second time changes
    nothing more, when [float] reads back what [str] writes for the clamped
    value. *)
Theorem cutoff_edit_idempotent (fuel : nat) (st : State) (text : string) :
  (2 <= fuel)%nat ->
  (forall v, float_ text = Some v ->
             float_ (str_ (Fin (clamp_value (INR (sr st) / 2) v)))
             = Some (Fin (clamp_value (INR (sr st) / 2) v))) ->
  (exists st1, update_lowcut float_ str_ fuel st text = Some st1
               /\ update_lowcut float_ str_ fuel st1 text = Some st1)
  /\ (exists st1, update_highcut float_ str_ fuel st text = Some st1
                  /\ update_highcut float_ str_ fuel st1 text = Some st1).
Proof.
  intros Hfuel Hrt. destruct fuel as [|[|fuel]]; try lia.
  destruct (float_ text) as [v|] eqn:Hv.
  2:{ split; exists st; cbn [update_lowcut update_highcut]; rewrite Hv; now split. }
  specialize (Hrt v eq_refl).
  set (c := clamp_value (INR (sr st) / 2) v) in *.
  split.
  - rewrite (update_lowcut_spec float_ str_ fuel st text v Hv Hrt). fold c.
    destruct (py_lt (highcut st) (Fin c)) eqn:E;
      [destruct (String.eqb (highcut_box st) (str_ (Fin c))) eqn:B|];
      eexists; (split; [reflexivity|]);
      rewrite (update_lowcut_plain float_ str_ (S fuel) _ text v Hv); fields;
      fold c; try reflexivity.
    + right. now apply String.eqb_eq.
    + left. apply py_lt_irrefl.
    + left. exact E.
  - rewrite (update_highcut_spec float_ str_ fuel st text v Hv Hrt). fold c.
    destruct (py_lt (Fin c) (lowcut st)) eqn:E;
      [destruct (String.eqb (lowcut_box st) (str_ (Fin c))) eqn:B|];
      eexists; (split; [reflexivity|]);
      rewrite (update_highcut_plain float_ str_ (S fuel) _ text v Hv); fields;
      fold c; try reflexivity.
    + right. now apply String.eqb_eq.
    + left. apply py_lt_irrefl.
    + left. exact E.
Qed.

End HandlerTheorems.

Lemma float_str_initial (v : pyfloat) :
  float_decimal "5000" = Some v ->
  float_decimal
    (str_decimal (Fin (clamp_value (INR (sr (initial_state 44100 [])) / 2) v)))
  = Some (Fin (clamp_value (INR (sr (initial_state 44100 [])) / 2) v)).
Proof.
  intros [= <-]. cbn [sr initial_state]. rewrite INR_44100.
  rewrite clamp_inside by lra. exact float_str_5000.
Qed.

Lemma cutoff_handlers_return_witness :
  (20 <= INR (sr (initial_state 44100 [])) / 2)%R
  /\ exists c : R,
       (20 <= c <= INR (sr (initial_state 44100 [])) / 2)%R
       /\ update_lowcut float_decimal str_decimal 2 (initial_state 44100 []) "5000"
          = Some (if py_lt (highcut (initial_state 44100 [])) (Fin c)
                  then if String.eqb (highcut_box (initial_state 44100 []))
                            (str_decimal (Fin c))
                       then set_lowcut (initial_state 44100 []) (Fin c)
                       else set_highcut
                              (set_highcut_box
                                 (set_lowcut (initial_state 44100 []) (Fin c))
                                 (str_decimal (Fin c)))
                              (Fin c)
                  else set_lowcut (initial_state 44100 []) (Fin c)).
Proof.
  assert (H : (20 <= INR (sr (initial_state 44100 [])) / 2)%R).
  { cbn [sr initial_state]. rewrite INR_44100. lra. }
  split; [exact H|].
  pose proof (cutoff_handlers_return float_decimal str_decimal 2
                (initial_state 44100 []) "5000" H (le_n 2) float_str_initial) as E.
  change (float_decimal "5000") with (Some (Fin 5000)) in E.
  destruct E as (c & Hc & _ & Hlow & _).
  exists c. now split.
Defined.

Lemma cutoff_edit_idempotent_witness :
  2 <= 2
  /\ exists st1,
       update_lowcut float_decimal str_decimal 2 (initial_state 44100 []) "5000"
       = Some st1
       /\ update_lowcut float_decimal str_decimal 2 st1 "5000" = Some st1.
Proof.
  split; [apply le_n|].
  apply (cutoff_edit_idempotent float_decimal str_decimal 2
           (initial_state 44100 []) "5000" (le_n 2) float_str_initial).
Defined.

Section BandpassExtra.
Local Open Scope R_scope.
Import Np.

Variable sr0 : nat.

(** X13.  A band that holds no frequency silences the block: when
    [high < low], or when a cutoff is [nan], [apply_bandpass] returns
    [block_size] zeros. *)
Theorem apply_bandpass_empty_band (data : list R) (low high : pyfloat) :
  length data = block_size ->
  py_lt high low = true \/ low = NaN \/ high = NaN ->
  apply_bandpass sr0 data low high = Ok (repeat 0 block_size).
Proof. exact (apply_bandpass_empty sr0 data low high). Qed.

(** X14.  [apply_bandpass] is linear: the filtered [a * u + b * v] is
    [a] times the filtered [u] plus [b] times the filtered [v], sample by
    sample. *)
Theorem apply_bandpass_superposition
        (a b : R) (u v : list R) (low high : pyfloat) :
  length u = block_size -> length v = block_size ->
  exists ou ov,
    apply_bandpass sr0 u low high = Ok ou
    /\ apply_bandpass sr0 v low high = Ok ov
    /\ length ou = block_size /\ length ov = block_size
    /\ apply_bandpass sr0 (combine a u b v) low high = Ok (combine a ou b ov).
Proof. exact (apply_bandpass_combine sr0 a b u v low high). Qed.

(** X15.  The bins inside the band pass unchanged: at every bin [k] with
    [low <= freqs[k] <= high] the forward transform of the signal
    [apply_bandpass] returns equals the forward transform of the windowed
    block. *)
Theorem apply_bandpass_keeps_pass_band (data : list R) (low high : R) :
  length data = block_size ->
  exists (xw out : list R) (X Z : list C),
    mul data window = Ok xw
    /\ rfft xw = Ok X
    /\ apply_bandpass sr0 data (Fin low) (Fin high) = Ok out
    /\ rfft out = Ok Z
    /\ forall k, (k < block_size / 2 + 1)%nat ->
                 low <= nth k (freqs sr0) 0 <= high ->
                 nth k Z Czero = nth k X Czero.
Proof.
  intros Hlen.
  exists (windowed data),
         (map (irfft_sample (masked_spectrum sr0 data (Fin low) (Fin high)) block_size)
              (seq 0 block_size)),
         (map (rfft_bin (windowed data)) (seq 0 (block_size / 2 + 1))),
         (map (rfft_bin
                 (map (irfft_sample (masked_spectrum sr0 data (Fin low) (Fin high))
                                    block_size) (seq 0 block_size)))
              (seq 0 (block_size / 2 + 1))).
  split. { apply mul_same_length. now rewrite window_length. }
  split. { rewrite rfft_nonempty; rewrite windowed_length by exact Hlen;
             [reflexivity|exact block_size_nonzero]. }
  split. { now apply apply_bandpass_full. }
  split. { apply rfft_of_irfft. }
  intros k Hk Hin. rewrite !nth_map_seq by exact Hk.
  apply pass_band_bin; [exact Hlen|rewrite block_size_half in Hk; lia|exact Hin].
Qed.

(** X16.  A block of another length than [block_size]: one sample is
    broadcast by [data * window] and filtered as the constant block; any
    other length makes [data * window] raise [ValueError]. *)
Theorem apply_bandpass_other_lengths (data : list R) (low high : pyfloat) :
  length data <> block_size ->
  (length data = 1%nat ->
   apply_bandpass sr0 data low high
   = apply_bandpass sr0 (repeat (hd 0 data) block_size) low high)
  /\ (length data <> 1%nat ->
      apply_bandpass sr0 data low high = Raise ValueError).
Proof.
  intros Hlen. split.
  - intros H1. destruct data as [|v [|w data]]; try discriminate.
    apply apply_bandpass_one_sample.
  - intros H1. now apply apply_bandpass_bad_length.
Qed.

(** X18.  With a band that keeps every bin, no sample comes out of
    [apply_bandpass] larger in magnitude than it went in. *)
Theorem all_pass_never_amplifies (data : list R) (low high : R) :
  (0 < sr0)%nat -> length data = block_size ->
  low <= 0 -> INR sr0 / 2 <= high ->
  exists out,
    apply_bandpass sr0 data (Fin low) (Fin high) = Ok out
    /\ forall i, (i < block_size)%nat -> Rabs (nth i out 0) <= Rabs (nth i data 0).
Proof.
  intros Hsr Hlen Hlow Hhigh. exists (windowed data).
  split; [now apply all_pass_output|].
  intros i Hi. now apply windowed_bounded.
Qed.

(** X19.  The frequency axis: [freqs] has [block_size / 2 + 1] points,
    [freqs[k] = k * sr0 / block_size] for the rate [sr0] of the first file,
    from 0 up to [sr0 / 2]. *)
Theorem freqs_axis (k : nat) :
  (0 < sr0)%nat -> (k <= block_size / 2)%nat ->
  length (freqs sr0) = (block_size / 2 + 1)%nat
  /\ nth k (freqs sr0) 0 = INR k * INR sr0 / INR block_size
  /\ 0 <= nth k (freqs sr0) 0 <= INR sr0 / 2
  /\ nth 0 (freqs sr0) 0 = 0
  /\ nth (block_size / 2) (freqs sr0) 0 = INR sr0 / 2.
Proof.
  intros Hsr Hk. rewrite block_size_half in Hk.
  split; [apply freqs_length|].
  split; [now apply freqs_nth|].
  split; [now apply freqs_range|].
  rewrite block_size_half, !freqs_nth by (try exact Hsr; lia).
  rewrite INR_block_size.
  replace (INR 1024) with 1024 by (rewrite INR_IZR_INZ; reflexivity).
  cbn [INR]. split; field.
Qed.

End BandpassExtra.

Lemma apply_bandpass_empty_band_witness :
  length (repeat 1%R block_size) = block_size
  /\ apply_bandpass 44100 (repeat 1%R block_size) NaN (Fin 1000)
     = Ok (repeat 0%R block_size).
Proof.
  split; [apply repeat_length|].
  apply (apply_bandpass_empty_band 44100 (repeat 1%R block_size) NaN (Fin 1000)
           (repeat_length 1%R block_size)).
  right. left. reflexivity.
Defined.

Lemma apply_bandpass_superposition_witness :
  length (repeat 1%R block_size) = block_size
  /\ exists ou ov,
       apply_bandpass 44100
         (combine 2 (repeat 1%R block_size) 3 (repeat 0%R block_size))
         (Fin 100) (Fin 1000)
       = Ok (combine 2 ou 3 ov).
Proof.
  split; [apply repeat_length|].
  destruct (apply_bandpass_superposition 44100 2 3
              (repeat 1%R block_size) (repeat 0%R block_size) (Fin 100) (Fin 1000)
              (repeat_length 1%R block_size) (repeat_length 0%R block_size))
    as (ou & ov & _ & _ & _ & _ & H).
  exists ou, ov. exact H.
Defined.

Lemma apply_bandpass_keeps_pass_band_witness :
  length (repeat 1%R block_size) = block_size
  /\ exists out,
       apply_bandpass 44100 (repeat 1%R block_size) (Fin 100) (Fin 1000) = Ok out.
Proof.
  split; [apply repeat_length|].
  destruct (apply_bandpass_keeps_pass_band 44100 (repeat 1%R block_size) 100 1000
              (repeat_length 1%R block_size))
    as (xw & out & X & Z & _ & _ & H & _).
  exists out. exact H.
Defined.

Lemma apply_bandpass_other_lengths_witness :
  length (@nil R) <> block_size
  /\ apply_bandpass 44100 [] (Fin 100) (Fin 1000) = Raise ValueError.
Proof.
  assert (H : length (@nil R) <> block_size) by discriminate.
  split; [exact H|].
  apply (apply_bandpass_other_lengths 44100 [] (Fin 100) (Fin 1000) H).
  discriminate.
Defined.

Lemma all_pass_never_amplifies_witness :
  0 < 44100
  /\ exists out,
       apply_bandpass 44100 (repeat 1%R block_size) (Fin 0) (Fin 22050) = Ok out.
Proof.
  assert (H1 : 0 < 44100) by (apply Nat.ltb_lt; reflexivity).
  split; [exact H1|].
  assert (H2 : (0 <= 0)%R) by apply Rle_refl.
  assert (H3 : (INR 44100 / 2 <= 22050)%R) by (rewrite INR_44100; lra).
  destruct (all_pass_never_amplifies 44100 (repeat 1%R block_size) 0 22050
              H1 (repeat_length 1%R block_size) H2 H3) as (out & H & _).
  exists out. exact H.
Defined.

Lemma freqs_axis_witness :
  0 < 44100
  /\ nth (block_size / 2) (freqs 44100) 0%R = (INR 44100 / 2)%R.
Proof.
  assert (H1 : 0 < 44100) by (apply Nat.ltb_lt; reflexivity).
  split; [exact H1|].
  apply (freqs_axis 44100 0 H1 (Nat.le_0_l _)).
Defined.


Section UpdateTheorems.
Local Open Scope R_scope.

Variable sr0 : nat.
Variable float_ : string -> option pyfloat.
Variable str_ : pyfloat -> string.

(** X20.  At a reachable state with a source of positive rate [update] does
    not raise.  While paused it draws nothing.  While playing the time line
    shows the time buffer, with as many abscissas as samples, at most
    [sr0 // 10]; when the spectrum buffer is empty the frequency plot is left
    alone; otherwise the frequency line has one point per bin, the selected
    band has as many abscissas as ordinates, each of them a frequency with
    [lowcut <= f <= highcut], and the limits of the magnitude axis, when they
    are set, are at least 10 dB apart. *)
Theorem update_draws (y0 : list R) (st : State) (art : Artists) :
  reachable sr0 float_ str_ y0 st ->
  (0 < sr st)%nat ->
  (paused st = true -> update sr0 st art = (art, None))
  /\ (paused st = false ->
      exists art',
        update sr0 st art = (art', None)
        /\ snd (time_line art') = Deque.items (time_buffer st)
        /\ length (fst (time_line art')) = length (snd (time_line art'))
        /\ (length (snd (time_line art')) <= sr0 / 10)%nat
        /\ match Deque.items (spectrum_buffer st) with
           | [] =>
               freq_line art' = freq_line art
               /\ selected_band art' = selected_band art
               /\ ylim art' = ylim art
           | _ :: _ =>
               fst (freq_line art') = freqs sr0
               /\ length (snd (freq_line art')) = (block_size / 2 + 1)%nat
               /\ length (fst (selected_band art'))
                  = length (snd (selected_band art'))
               /\ (forall f, In f (fst (selected_band art')) ->
                             py_ge (Fin f) (lowcut st)
                             && py_le (Fin f) (highcut st) = true)
               /\ (ylim art' = ylim art
                   \/ fst (ylim art') + 10 <= snd (ylim art'))
           end).
Proof.
  intros Hreach Hsr. split; [apply update_paused|].
  intros Hp.
  destruct (update_playing sr0 float_ str_ y0 st art Hreach Hp Hsr)
    as (art' & H1 & H2 & _ & H3 & H4 & H5).
  exists art'. now repeat split.
Qed.

(** X21.  While playing, with two samples or more in the time buffer, the
    abscissas of the time line are evenly spaced from 0 to
    [display_samples / sr]: the capacity chosen from the first file over the
    rate of the current one. *)
Theorem time_axis_span (y0 : list R) (st : State) (art : Artists) :
  reachable sr0 float_ str_ y0 st ->
  paused st = false ->
  (0 < sr st)%nat ->
  (2 <= Deque.len (time_buffer st))%nat ->
  nth 0 (fst (time_line (fst (update sr0 st art)))) 0 = 0
  /\ nth (Deque.len (time_buffer st) - 1)
         (fst (time_line (fst (update sr0 st art)))) 0
     = INR (sr0 / 10) / INR (sr st)
  /\ forall i, (S i < Deque.len (time_buffer st))%nat ->
       nth (S i) (fst (time_line (fst (update sr0 st art)))) 0
       - nth i (fst (time_line (fst (update sr0 st art)))) 0
       = INR (sr0 / 10) / INR (sr st) / INR (Deque.len (time_buffer st) - 1).
Proof.
  intros Hreach Hp Hsr Hlen.
  destruct (update_playing sr0 float_ str_ y0 st art Hreach Hp Hsr)
    as (art' & H1 & _ & H2 & _).
  rewrite H1. cbn [fst]. rewrite H2. unfold Deque.len in *.
  fold (display_samples sr0).
  assert (Hn : INR (length (Deque.items (time_buffer st)) - 1) <> 0)
    by (apply not_0_INR; lia).
  split; [|split].
  - rewrite linspace_nth by lia. cbn [INR]. field.
    split; [apply not_0_INR; lia|exact Hn].
  - rewrite linspace_nth by lia. field.
    split; [apply not_0_INR; lia|exact Hn].
  - intros i Hi. rewrite !linspace_nth by lia. rewrite S_INR. field.
    split; [apply not_0_INR; lia|exact Hn].
Qed.

End UpdateTheorems.

Lemma update_draws_witness :
  reachable 44100 float_digits str_decimal [] (toggle_play (initial_state 44100 []))
  /\ exists art',
       update 44100 (toggle_play (initial_state 44100 [])) initial_artists
       = (art', None).
Proof.
  split; [apply reachable_after_play|].
  assert (Hsr : 0 < sr (toggle_play (initial_state 44100 [])))
    by (apply Nat.ltb_lt; reflexivity).
  destruct (update_draws 44100 float_digits str_decimal [] (toggle_play (initial_state 44100 []))
              initial_artists (reachable_after_play []) Hsr) as [_ H].
  destruct (H eq_refl) as (art' & H' & _).
  exists art'. exact H'.
Defined.

Lemma callbacks_keep_paused (sr0 : nat) (outdata : list R) (frames N : nat) (st : State) :
  paused (callbacks sr0 outdata frames N st) = paused st.
Proof.
  revert st. induction N as [|N IH]; intros st; [reflexivity|].
  cbn [callbacks]. rewrite IH.
  now destruct (callback_effects sr0 st outdata frames) as (_ & _ & _ & _ & _ & _ & H & _).
Qed.

Lemma after_two_blocks_reachable : reachable 44100 float_digits str_decimal [] after_two_blocks.
Proof.
  exists (initial_state 44100 []),
         ([EvChangeFile (Loaded (repeat 0%R 4096) 8000); EvTogglePlay]
            ++ repeat (EvCallback (repeat 0%R block_size) block_size) 2).
  split; [reflexivity|].
  apply (steps_app float_digits str_decimal 44100 _ after_source_change).
  - apply after_source_change_steps.
  - exact (callbacks_steps float_digits str_decimal 44100 (repeat 0%R block_size)
             block_size 2 after_source_change).
Qed.

Lemma after_two_blocks_facts :
  paused after_two_blocks = false
  /\ sr after_two_blocks = 8000
  /\ Deque.len (time_buffer after_two_blocks) = 1024.
Proof.
  unfold after_two_blocks.
  destruct (two_blocks_fill 44100 after_source_change (repeat 0%R block_size))
    as [Hlen Hsr].
  - rewrite after_source_change_eq. reflexivity.
  - rewrite after_source_change_eq. reflexivity.
  - rewrite after_source_change_eq. cbn [y]. rewrite repeat_length.
    apply Nat.leb_le. reflexivity.
  - apply repeat_length.
  - rewrite after_source_change_eq. reflexivity.
  - rewrite after_source_change_eq. cbn [time_buffer Deque.maxlen].
    apply Nat.leb_le. reflexivity.
  - rewrite callbacks_keep_paused, Hlen, Hsr, after_source_change_eq.
    now repeat split.
Qed.

Lemma time_axis_span_witness :
  reachable 44100 float_digits str_decimal [] after_two_blocks
  /\ nth 0 (fst (time_line (fst (update 44100 after_two_blocks initial_artists)))) 0%R
     = 0%R.
Proof.
  split; [exact after_two_blocks_reachable|].
  destruct after_two_blocks_facts as (Hp & Hsr & Hlen).
  assert (Hpos : 0 < sr after_two_blocks)
    by (rewrite Hsr; apply Nat.ltb_lt; reflexivity).
  assert (Htwo : 2 <= Deque.len (time_buffer after_two_blocks))
    by (rewrite Hlen; apply Nat.leb_le; reflexivity).
  destruct (time_axis_span 44100 float_digits str_decimal [] after_two_blocks initial_artists
              after_two_blocks_reachable Hp Hpos Htwo) as [H _].
  exact H.
Defined.


(** ** The magnitudes stored *)

Section Magnitudes.
Local Open Scope R_scope.

Lemma ln_floor : ln 1e-9 = - 9 * ln 10.
Proof.
  replace 1e-9 with (/ 10 ^ 9) by (simpl; lra).
  rewrite ln_Rinv by (apply pow_lt; lra).
  rewrite ln_pow by lra. simpl INR. lra.
Qed.

Lemma ln_10_pos : 0 < ln 10.
Proof. rewrite <- ln_1. apply ln_increasing; lra. Qed.

Lemma dB_floor (z : Np.C) : -180 <= 20 * Np.log10 (Np.Cabs z + 1e-9).
Proof.
  unfold Np.log10.
  assert (Ha : 0 <= Np.Cabs z) by apply sqrt_pos.
  assert (Hl : ln 1e-9 <= ln (Np.Cabs z + 1e-9)).
  { destruct (Rle_lt_or_eq_dec _ _ Ha) as [Hlt|Heq].
    - left. apply ln_increasing; lra.
    - rewrite <- Heq, Rplus_0_l. apply Rle_refl. }
  rewrite ln_floor in Hl. pose proof ln_10_pos as H10.
  replace (-180) with (20 * (- 9 * ln 10 / ln 10)) by (field; lra).
  apply Rmult_le_compat_l; [lra|].
  apply Rmult_le_compat_r; [left; now apply Rinv_0_lt_compat|exact Hl].
Qed.

Lemma dB_zero (z : Np.C) :
  fst z = 0 -> snd z = 0 -> 20 * Np.log10 (Np.Cabs z + 1e-9) = -180.
Proof.
  intros H1 H2. unfold Np.log10, Np.Cabs. rewrite H1, H2.
  rewrite Rmult_0_l, Rplus_0_l, sqrt_0, Rplus_0_l, ln_floor.
  pose proof ln_10_pos. field. lra.
Qed.

Lemma dB_map_floor (X : list Np.C) :
  Forall (fun v => -180 <= v) (map (fun z => 20 * Np.log10 (Np.Cabs z + 1e-9)) X).
Proof. apply Forall_forall. intros v Hv. apply in_map_iff in Hv.
  destruct Hv as (z & <- & _). apply dB_floor.
Qed.

Variable sr0 : nat.
Variable float_ : string -> option pyfloat.
Variable str_ : pyfloat -> string.

Lemma initial_spectra_floor (y0 : list R) : spectra_floor (initial_state sr0 y0).
Proof. constructor. Qed.

Lemma step_spectra_floor (st st' : State) (ev : event) :
  step sr0 float_ str_ st ev st' -> spectra_floor st -> spectra_floor st'.
Proof.
  unfold spectra_floor. intros Hstep Hsp.
  destruct Hstep as [st outdata frames r st' Hcb | st | st text fuel st' Hup
                    | st text fuel st' Hup | st | st | st o | st].
  - destruct (callback_cases_bins sr0 st outdata frames)
      as [[_ H]|[(_ & _ & _ & H)|(_ & _ & _ & fc & X & _ & _ & _ & _ & _ & H)]].
    + rewrite Hcb in H. now injection H as _ <-.
    + rewrite Hcb in H. now injection H as _ <-.
    + assert (Hsp' : Forall (Forall (fun v => -180 <= v))
                       (Deque.items
                          (Deque.append (spectrum_buffer st)
                             (map (fun z => 20 * Np.log10 (Np.Cabs z + 1e-9)) X))))
        by (apply append_Forall; [exact Hsp|apply dB_map_floor]).
      destruct H as [[_ H]|[_ H]]; rewrite Hcb in H; injection H as _ ->; fields;
        exact Hsp'.
  - fields. exact Hsp.
  - destruct (lowcut_edit_edited float_ str_ fuel st st' text Hup)
      as (lc & hc & lb & hb & -> & _ & _).
    fields. exact Hsp.
  - destruct (highcut_edit_edited float_ str_ fuel st st' text Hup)
      as (lc & hc & lb & hb & -> & _ & _).
    fields. exact Hsp.
  - unfold toggle_play, start_stream, stop_stream.
    destruct (paused st); [|destruct (stream st)]; fields; exact Hsp.
  - unfold reset, Deque.clear. fields. constructor.
  - unfold change_file, stop_stream, reset, Deque.clear.
    destruct o; destruct (stream st); fields; cbn [Deque.items];
      try exact Hsp; constructor.
  - unfold stop_stream. destruct (stream st); fields; exact Hsp.
Qed.

Lemma steps_spectra_floor (st st' : State) (evs : list event) :
  steps sr0 float_ str_ st evs st' -> spectra_floor st -> spectra_floor st'.
Proof.
  intros H. induction H as [st|st ev st1 evs st2 Hstep Hsteps IH]; [auto|].
  intros Hw. apply IH. exact (step_spectra_floor st st1 ev Hstep Hw).
Qed.

Lemma reachable_spectra_floor (y0 : list R) (st : State) :
  reachable sr0 float_ str_ y0 st -> spectra_floor st.
Proof.
  intros (st0 & evs & Hrun & Hsteps).
  unfold run_visualizer in Hrun. destruct (sr0 =? 0)%nat; [discriminate|].
  injection Hrun as <-.
  exact (steps_spectra_floor _ _ _ Hsteps (initial_spectra_floor y0)).
Qed.

(** The filter gives silence for silence. *)
Lemma combine_zero (u v : list R) :
  length u = block_size -> length v = block_size ->
  combine 0 u 0 v = repeat 0 block_size.
Proof.
  intros Hu Hv. apply (nth_ext _ _ 0 0).
  - now rewrite combine_length, repeat_length.
  - rewrite combine_length by assumption. intros i Hi.
    rewrite combine_nth by assumption. rewrite nth_repeat. ring.
Qed.

Lemma apply_bandpass_zero (low high : pyfloat) :
  apply_bandpass sr0 (repeat 0 block_size) low high = Ok (repeat 0 block_size).
Proof.
  destruct (apply_bandpass_combine sr0 0 0 (repeat 0 block_size) (repeat 0 block_size)
              low high (repeat_length _ _) (repeat_length _ _))
    as (ou & ov & _ & _ & Hou & Hov & H).
  rewrite combine_zero in H by apply repeat_length.
  now rewrite combine_zero in H by assumption.
Qed.

Lemma rfft_silent (fc : list R) :
  length fc = block_size -> (forall m, nth m fc 0 = 0) ->
  exists X, Np.rfft (Np.zip_with Rmult fc window) = Ok X
            /\ map (fun z => 20 * Np.log10 (Np.Cabs z + 1e-9)) X
               = repeat (-180) (block_size / 2 + 1).
Proof.
  intros Hlen Hzero.
  assert (Hnth : forall m, nth m (windowed fc) 0 = 0).
  { intros m. destruct (Nat.lt_ge_cases m block_size) as [Hm|Hm].
    - rewrite windowed_nth by assumption. rewrite Hzero. ring.
    - apply nth_overflow. now rewrite windowed_length. }
  exists (map (Np.rfft_bin (windowed fc)) (seq 0 (block_size / 2 + 1))).
  split.
  - fold (windowed fc). rewrite rfft_nonempty; rewrite windowed_length by exact Hlen;
      [reflexivity|exact block_size_nonzero].
  - rewrite map_map.
    transitivity (map (fun _ : nat => -180) (seq 0 (block_size / 2 + 1))).
    + apply map_ext. intros k. apply dB_zero.
      * rewrite rfft_bin_fst. rewrite (Rsum_ext _ _ (fun _ => 0)).
        -- apply Rsum_zero.
        -- intros m _. rewrite Hnth. ring.
      * rewrite rfft_bin_snd. rewrite (Rsum_ext _ _ (fun _ => 0)).
        -- rewrite Rsum_zero. ring.
        -- intros m _. rewrite Hnth. ring.
    + rewrite map_const, length_seq. reflexivity.
Qed.

Lemma slice_nth (a : list R) (lo n m : nat) :
  (m < n)%nat -> nth m (Np.slice a lo (lo + n)) 0 = nth (lo + m) a 0.
Proof.
  intros Hm. unfold Np.slice.
  replace (lo + n - lo)%nat with n by lia.
  rewrite nth_firstn. apply Nat.ltb_lt in Hm. rewrite Hm. apply nth_skipn.
Qed.

Lemma silent_is_repeat (fc : list R) :
  length fc = block_size -> (forall m, (m < block_size)%nat -> nth m fc 0 = 0) ->
  fc = repeat 0 block_size.
Proof.
  intros Hlen Hz. apply (nth_ext _ _ 0 0).
  - now rewrite repeat_length.
  - rewrite Hlen. intros m Hm. rewrite nth_repeat. now apply Hz.
Qed.

(** X22.  At every reachable state no magnitude held by the spectrum buffer
    is below -180 dB: the [1e-9] added before the logarithm is a floor. *)
Theorem stored_magnitudes_floor (y0 : list R) (st : State) :
  reachable sr0 float_ str_ y0 st ->
  Forall (Forall (fun v => -180 <= v)) (Deque.items (spectrum_buffer st)).
Proof. exact (reachable_spectra_floor y0 st). Qed.

(** X23.  A silent block is played as silence and stored as the floor: when
    the [block_size] samples at the position are 0, the call writes
    [block_size] zeros and appends to the spectrum buffer a spectrum of
    -180 dB at every bin, with the filter on and with the filter off. *)
Theorem silent_block_reads_floor (st : State) (outdata : list R) :
  paused st = false ->
  (audio_position st + block_size <= length (y st))%nat ->
  (forall m, (m < block_size)%nat -> nth (audio_position st + m) (y st) 0 = 0) ->
  length outdata = block_size ->
  fst (audio_callback sr0 outdata block_size st) = Ok (repeat 0 block_size)
  /\ spectrum_buffer (snd (audio_callback sr0 outdata block_size st))
     = Deque.append (spectrum_buffer st) (repeat (-180) (block_size / 2 + 1))
  /\ audio_position (snd (audio_callback sr0 outdata block_size st))
     = (audio_position st + block_size)%nat.
Proof.
  intros Hp Hpos Hsilent Hout.
  pose proof block_size_nonzero as Hbs.
  assert (Hchunk : Np.slice (y st) (audio_position st) (audio_position st + block_size)
                   = repeat 0 block_size).
  { apply silent_is_repeat.
    - rewrite slice_length. lia.
    - intros m Hm. rewrite slice_nth by exact Hm. now apply Hsilent. }
  destruct (callback_cases_bins sr0 st outdata block_size)
    as [[[H|H] _]|[(_ & _ & H & _)
                  |(_ & _ & _ & fc & X & Hfc & HX & _ & Hoff & Hon & H)]];
    [congruence|lia|lia|].
  destruct H as [[_ H]|[H _]]; [|contradiction].
  assert (Hzero : fc = repeat 0 block_size).
  { destruct (filter_enabled st).
    - specialize (Hon eq_refl). rewrite Hchunk, apply_bandpass_zero in Hon.
      now injection Hon as <-.
    - now rewrite (Hoff eq_refl). }
  destruct (rfft_silent fc Hfc) as (X' & HX' & HdB).
  { intros m. rewrite Hzero. apply nth_repeat. }
  rewrite HX in HX'. injection HX' as <-.
  rewrite H, HdB, Hzero. fields. now repeat split.
Qed.

End Magnitudes.

Lemma stored_magnitudes_floor_witness :
  reachable 44100 float_digits str_decimal [] (toggle_play (initial_state 44100 []))
  /\ Forall (Forall (fun v => (-180 <= v)%R))
            (Deque.items (spectrum_buffer (toggle_play (initial_state 44100 [])))).
Proof.
  split; [apply reachable_after_play|].
  apply (stored_magnitudes_floor 44100 float_digits str_decimal []).
  apply reachable_after_play.
Defined.

Lemma silent_block_reads_floor_witness :
  length (repeat 0%R block_size) = block_size
  /\ fst (audio_callback 44100 (repeat 0%R block_size) block_size
            (toggle_play (initial_state 44100 (repeat 0%R block_size))))
     = Ok (repeat 0%R block_size).
Proof.
  split; [apply repeat_length|].
  apply (silent_block_reads_floor 44100
           (toggle_play (initial_state 44100 (repeat 0%R block_size)))
           (repeat 0%R block_size) eq_refl).
  - change (0 + block_size <= length (repeat 0%R block_size)).
    rewrite repeat_length. apply le_n.
  - intros m _.
    change (nth (0 + m) (repeat 0%R block_size) 0%R = 0%R). apply nth_repeat.
  - apply repeat_length.
Defined.

(** ** The order of the cutoffs while the rate stays the same *)

Section OneRate.
Local Open Scope R_scope.

Variable sr0 : nat.
Variable float_ : string -> option pyfloat.
Variable str_ : pyfloat -> string.

Hypothesis rate_2000 : (2000 <= sr0)%nat.

(** [float] reads back what [str] writes for a clamped value. *)
Hypothesis float_str :
  forall text v,
    float_ text = Some v ->
    float_ (str_ (Fin (clamp_value (INR sr0 / 2) v)))
    = Some (Fin (clamp_value (INR sr0 / 2) v)).

(** [float] reads the texts the boxes show at start-up. *)
Hypothesis float_100 : float_ "100" = Some (Fin 100).
Hypothesis float_1000 : float_ "1000" = Some (Fin 1000).

Lemma nyquist_2000 : 2000 <= INR sr0.
Proof.
  apply le_INR in rate_2000.
  now replace (INR 2000) with 2000 in rate_2000 by (rewrite INR_IZR_INZ; reflexivity).
Qed.

(** A handler that returns, whatever the fuel, has done what
    [update_lowcut_spec] says. *)
Lemma update_lowcut_returned (fuel : nat) (st st' : State) (text : string)
      (v : pyfloat) :
  float_ text = Some v ->
  float_ (str_ (Fin (clamp_value (INR (sr st) / 2) v)))
  = Some (Fin (clamp_value (INR (sr st) / 2) v)) ->
  update_lowcut float_ str_ fuel st text = Some st' ->
  st' = if py_lt (highcut st) (Fin (clamp_value (INR (sr st) / 2) v))
        then if String.eqb (highcut_box st)
                  (str_ (Fin (clamp_value (INR (sr st) / 2) v)))
             then set_lowcut st (Fin (clamp_value (INR (sr st) / 2) v))
             else set_highcut
                    (set_highcut_box
                       (set_lowcut st (Fin (clamp_value (INR (sr st) / 2) v)))
                       (str_ (Fin (clamp_value (INR (sr st) / 2) v))))
                    (Fin (clamp_value (INR (sr st) / 2) v))
        else set_lowcut st (Fin (clamp_value (INR (sr st) / 2) v)).
Proof.
  intros Hv Hrt. destruct fuel as [|[|fuel]].
  - discriminate.
  - cbn [update_lowcut update_highcut]. rewrite Hv, clamp_eq. fields.
    destruct (py_lt (highcut st) _); [|now intros [= <-]].
    destruct (String.eqb _ _); [now intros [= <-]|discriminate].
  - rewrite (update_lowcut_spec float_ str_ fuel st text v Hv Hrt).
    now intros [= <-].
Qed.

Lemma update_highcut_returned (fuel : nat) (st st' : State) (text : string)
      (v : pyfloat) :
  float_ text = Some v ->
  float_ (str_ (Fin (clamp_value (INR (sr st) / 2) v)))
  = Some (Fin (clamp_value (INR (sr st) / 2) v)) ->
  update_highcut float_ str_ fuel st text = Some st' ->
  st' = if py_lt (Fin (clamp_value (INR (sr st) / 2) v)) (lowcut st)
        then if String.eqb (lowcut_box st)
                  (str_ (Fin (clamp_value (INR (sr st) / 2) v)))
             then set_highcut st (Fin (clamp_value (INR (sr st) / 2) v))
             else set_lowcut
                    (set_lowcut_box
                       (set_highcut st (Fin (clamp_value (INR (sr st) / 2) v)))
                       (str_ (Fin (clamp_value (INR (sr st) / 2) v))))
                    (Fin (clamp_value (INR (sr st) / 2) v))
        else set_highcut st (Fin (clamp_value (INR (sr st) / 2) v)).
Proof.
  intros Hv Hrt. destruct fuel as [|[|fuel]].
  - discriminate.
  - cbn [update_lowcut update_highcut]. rewrite Hv, clamp_eq. fields.
    destruct (py_lt _ (lowcut st)); [|now intros [= <-]].
    destruct (String.eqb _ _); [now intros [= <-]|discriminate].
  - rewrite (update_highcut_spec float_ str_ fuel st text v Hv Hrt).
    now intros [= <-].
Qed.

Lemma update_refused (fuel : nat) (st st' : State) (text : string) :
  float_ text = None ->
  (update_lowcut float_ str_ fuel st text = Some st' -> st' = st)
  /\ (update_highcut float_ str_ fuel st text = Some st' -> st' = st).
Proof.
  intros Hv. destruct fuel as [|fuel]; [split; discriminate|].
  cbn [update_lowcut update_highcut]. rewrite Hv. split; now intros [= <-].
Qed.

Lemma lowcut_edit_agrees (fuel : nat) (st st' : State) (text : string) :
  sr st = sr0 ->
  update_lowcut float_ str_ fuel (set_lowcut_box st text) text = Some st' ->
  boxes_agree float_ st -> boxes_agree float_ st'.
Proof.
  intros Hsr Hup (l & h & Hl & Hh & Hlh & Hny & Hbl & Hbh).
  pose proof nyquist_2000 as H2000.
  destruct (float_ text) as [v|] eqn:Hv.
  2:{ apply (update_refused fuel _ st' text Hv) in Hup. subst st'.
      exists l, h. fields. repeat split; try assumption; try lra.
      intros v Hv'. congruence. }
  assert (Hrt := float_str text v Hv). rewrite <- Hsr in Hrt.
  apply (update_lowcut_returned fuel (set_lowcut_box st text) st' text v Hv Hrt) in Hup.
  fields. subst st'. rewrite Hh.
  set (c := clamp_value (INR (sr st) / 2) v) in *.
  destruct (clamp_value_range (INR (sr st) / 2) v) as [Hc20 Hcs]. fold c in Hc20, Hcs.
  assert (Hcn : c <= INR (sr st) / 2) by (apply Hcs; rewrite Hsr; lra).
  destruct (py_lt (Fin h) (Fin c)) eqn:E.
  - apply py_lt_fin in E.
    destruct (String.eqb (highcut_box st) (str_ (Fin c))) eqn:B.
    + apply String.eqb_eq in B. rewrite B in Hbh.
      specialize (Hbh (Fin c) Hrt). unfold c in Hbh at 1.
      rewrite clamp_value_idem in Hbh. fold c in Hbh. lra.
    + exists c, c. fields. repeat split; try lra.
      * intros v' Hv'. rewrite Hv in Hv'. now injection Hv' as <-.
      * intros v' Hv'. rewrite Hrt in Hv'. injection Hv' as <-.
        unfold c. apply clamp_value_idem.
  - apply not_true_iff_false in E. rewrite py_lt_fin in E.
    exists c, h. fields. repeat split; try assumption; try lra.
    intros v' Hv'. rewrite Hv in Hv'. now injection Hv' as <-.
Qed.

Lemma highcut_edit_agrees (fuel : nat) (st st' : State) (text : string) :
  sr st = sr0 ->
  update_highcut float_ str_ fuel (set_highcut_box st text) text = Some st' ->
  boxes_agree float_ st -> boxes_agree float_ st'.
Proof.
  intros Hsr Hup (l & h & Hl & Hh & Hlh & Hny & Hbl & Hbh).
  pose proof nyquist_2000 as H2000.
  destruct (float_ text) as [v|] eqn:Hv.
  2:{ apply (update_refused fuel _ st' text Hv) in Hup. subst st'.
      exists l, h. fields. repeat split; try assumption; try lra.
      intros v Hv'. congruence. }
  assert (Hrt := float_str text v Hv). rewrite <- Hsr in Hrt.
  apply (update_highcut_returned fuel (set_highcut_box st text) st' text v Hv Hrt) in Hup.
  fields. subst st'. rewrite Hl.
  set (c := clamp_value (INR (sr st) / 2) v) in *.
  destruct (clamp_value_range (INR (sr st) / 2) v) as [Hc20 Hcs]. fold c in Hc20, Hcs.
  assert (Hcn : c <= INR (sr st) / 2) by (apply Hcs; rewrite Hsr; lra).
  destruct (py_lt (Fin c) (Fin l)) eqn:E.
  - apply py_lt_fin in E.
    destruct (String.eqb (lowcut_box st) (str_ (Fin c))) eqn:B.
    + apply String.eqb_eq in B. rewrite B in Hbl.
      specialize (Hbl (Fin c) Hrt). unfold c in Hbl at 1.
      rewrite clamp_value_idem in Hbl. fold c in Hbl. lra.
    + exists c, c. fields. repeat split; try lra.
      * intros v' Hv'. rewrite Hrt in Hv'. injection Hv' as <-.
        unfold c. apply clamp_value_idem.
      * intros v' Hv'. rewrite Hv in Hv'. now injection Hv' as <-.
  - apply not_true_iff_false in E. rewrite py_lt_fin in E.
    exists l, c. fields. repeat split; try assumption; try lra.
    intros v' Hv'. rewrite Hv in Hv'. now injection Hv' as <-.
Qed.

Lemma step_boxes_agree (st st' : State) (ev : event) :
  step sr0 float_ str_ st ev st' ->
  sr st = sr0 -> rate_after st ev = sr0 ->
  boxes_agree float_ st -> boxes_agree float_ st'.
Proof.
  intros Hstep Hsr Hrate Hb.
  destruct Hstep as [st outdata frames r st' Hcb | st | st text fuel st' Hup
                    | st text fuel st' Hup | st | st | st o | st].
  - destruct (callback_cases sr0 st outdata frames)
      as [[_ H]|[(_ & _ & _ & H)|(_ & _ & _ & fc & sp & _ & _ & _ & _ & H)]].
    + rewrite Hcb in H. now injection H as _ <-.
    + rewrite Hcb in H. now injection H as _ <-.
    + destruct H as [[_ H]|[_ H]]; rewrite Hcb in H; injection H as _ ->; exact Hb.
  - exact Hb.
  - exact (lowcut_edit_agrees fuel st st' text Hsr Hup Hb).
  - exact (highcut_edit_agrees fuel st st' text Hsr Hup Hb).
  - unfold toggle_play, start_stream, stop_stream.
    destruct (paused st); [|destruct (stream st)]; exact Hb.
  - exact Hb.
  - unfold rate_after in Hrate.
    destruct Hb as (l & h & Hl & Hh & Hlh & Hny & Hbl & Hbh).
    unfold change_file, stop_stream, reset, boxes_agree.
    destruct o as [| |y' sr']; destruct (stream st); fields;
      try (rewrite Hrate, <- Hsr);
      exists l, h; repeat split; try assumption; try lra.
  - unfold stop_stream. destruct (stream st); exact Hb.
Qed.

Lemma steps_boxes_agree (st st' : State) (evs : list event) :
  steps sr0 float_ str_ st evs st' ->
  sr st = sr0 -> same_rate sr0 evs ->
  boxes_agree float_ st -> boxes_agree float_ st' /\ sr st' = sr0.
Proof.
  intros H. induction H as [st|st ev st1 evs st2 Hstep Hsteps IH]; [auto|].
  intros Hsr Hsame Hb.
  assert (Hrate : rate_after st ev = sr0 /\ same_rate sr0 evs).
  { destruct ev as [| | | | | |[| |y' sr']|]; cbn [same_rate rate_after] in *;
      try (split; [exact Hsr|exact Hsame]). exact Hsame. }
  destruct Hrate as [Hrate Hrest].
  apply IH.
  - rewrite (step_rate float_ str_ sr0 st st1 ev Hstep). exact Hrate.
  - exact Hrest.
  - exact (step_boxes_agree st st1 ev Hstep Hsr Hrate Hb).
Qed.

(** X24.  While every file loaded has the rate of the first one, of 2000 Hz
    at least, the cutoffs stay in order below half the rate:
    [20 <= low <= high <= sr/2] at every state of the run.  [float] is taken
    to read the two start-up texts and to read back what [str] writes for a
    clamped value. *)
Theorem cutoffs_ordered_at_one_rate (y0 : list R) (st0 st : State)
        (evs : list event) :
  run_visualizer sr0 y0 = Ok st0 ->
  steps sr0 float_ str_ st0 evs st ->
  same_rate sr0 evs ->
  sr st = sr0
  /\ exists l h : R,
       lowcut st = Fin l /\ highcut st = Fin h
       /\ 20 <= l <= h /\ h <= INR (sr st) / 2.
Proof.
  intros Hrun Hsteps Hsame.
  unfold run_visualizer in Hrun. destruct (sr0 =? 0)%nat; [discriminate|].
  injection Hrun as <-.
  pose proof nyquist_2000 as H2000.
  assert (Hb : boxes_agree float_ (initial_state sr0 y0)).
  { exists 100, 1000. cbn [lowcut highcut sr lowcut_box highcut_box initial_state].
    split; [reflexivity|]. split; [reflexivity|]. split; [lra|]. split; [lra|].
    split; intros v Hv.
    - rewrite float_100 in Hv. injection Hv as <-. apply clamp_inside. lra.
    - rewrite float_1000 in Hv. injection Hv as <-. apply clamp_inside. lra. }
  destruct (steps_boxes_agree _ _ _ Hsteps eq_refl Hsame Hb)
    as [(l & h & Hl & Hh & Hlh & Hny & _) Hsr].
  split; [exact Hsr|]. now exists l, h.
Qed.

End OneRate.

(** [float_decimal] and [str_decimal] at 2000 Hz: the clamped values are
    the whole numbers from 20 to 1000, and each is read back. *)
Lemma decimal_round_trip (n : Z) :
  (20 <= n <= 1000)%Z ->
  decimal_value (NilZero.string_of_int (Z.to_int n) ++ ".0") = Some n.
Proof.
  intros Hn.
  assert (Hall : forallb
                   (fun k : nat =>
                      match decimal_value
                              (NilZero.string_of_int (Z.to_int (Z.of_nat k)) ++ ".0")
                      with
                      | Some z => Z.eqb z (Z.of_nat k)
                      | None => false
                      end)
                   (seq 20 981) = true) by (vm_compute; reflexivity).
  rewrite forallb_forall in Hall.
  specialize (Hall (Z.to_nat n)).
  rewrite Z2Nat.id in Hall by lia.
  destruct (decimal_value _) as [z|].
  - f_equal. apply Z.eqb_eq. apply Hall. apply in_seq. lia.
  - discriminate Hall. apply in_seq. lia.
Qed.

Lemma INR_2000 : INR 2000 = 2000%R.
Proof. rewrite INR_IZR_INZ. reflexivity. Qed.

Lemma clamp_whole (z : Z) :
  clamp_value (INR 2000 / 2) (Fin (IZR z))
  = IZR (Z.max 20 (Z.min 1000 z)).
Proof.
  rewrite INR_2000. replace (2000 / 2)%R with 1000%R by lra.
  destruct (Z_lt_le_dec z 20) as [H|H]; [|destruct (Z_le_gt_dec z 1000) as [H'|H']].
  - replace (Z.max 20 (Z.min 1000 z)) with 20%Z by lia.
    apply IZR_lt in H. unfold clamp_value.
    rewrite Rmin_right by lra. apply Rmax_left. lra.
  - replace (Z.max 20 (Z.min 1000 z)) with z by lia.
    apply IZR_le in H, H'. apply clamp_inside. lra.
  - replace (Z.max 20 (Z.min 1000 z)) with 1000%Z by lia.
    apply Z.gt_lt, IZR_lt in H'. apply clamp_above. lra.
Qed.

Lemma float_str_decimal (text : string) (v : pyfloat) :
  float_decimal text = Some v ->
  float_decimal (str_decimal (Fin (clamp_value (INR 2000 / 2) v)))
  = Some (Fin (clamp_value (INR 2000 / 2) v)).
Proof.
  unfold float_decimal at 1. destruct (decimal_value text) as [z|]; [|discriminate].
  intros [= <-]. rewrite clamp_whole, str_decimal_whole.
  assert (Hn : (20 <= Z.max 20 (Z.min 1000 z) <= 1000)%Z) by lia.
  unfold float_decimal. rewrite (decimal_round_trip _ Hn). reflexivity.
Qed.

Lemma cutoffs_ordered_at_one_rate_witness :
  (2000 <= 2000)%nat
  /\ float_decimal "100" = Some (Fin 100)
  /\ float_decimal "1000" = Some (Fin 1000)
  /\ exists st,
       steps 2000 float_decimal str_decimal (initial_state 2000 [])
             [EvHighcut "50"] st
       /\ exists l h : R,
            lowcut st = Fin l /\ highcut st = Fin h /\ (20 <= l <= h)%R.
Proof.
  split; [apply le_n|]. split; [reflexivity|]. split; [reflexivity|].
  assert (Hex : exists st,
             update_highcut float_decimal str_decimal 2
               (set_highcut_box (initial_state 2000 []) "50") "50" = Some st).
  { eexists.
    apply (update_highcut_spec float_decimal str_decimal 0
             (set_highcut_box (initial_state 2000 []) "50") "50" (Fin 50) eq_refl).
    exact (float_str_decimal "50" (Fin 50) eq_refl). }
  destruct Hex as [st Hst]. exists st.
  assert (Hsteps : steps 2000 float_decimal str_decimal (initial_state 2000 [])
                     [EvHighcut "50"] st).
  { eapply steps_cons; [exact (step_highcut 2000 _ _ _ _ 2 _ Hst)|apply steps_nil]. }
  split; [exact Hsteps|].
  destruct (cutoffs_ordered_at_one_rate 2000 float_decimal str_decimal (le_n 2000)
              float_str_decimal eq_refl eq_refl [] _ _ _
              eq_refl Hsteps I)
    as (_ & l & h & Hl & Hh & Hlh & _).
  exists l, h. split; [exact Hl|]. split; [exact Hh|exact Hlh].
Defined.
